(** * Gardener resource-manager: NetworkPolicy controller and the
      ManagedResource progressing check

    A shallow embedding of
    - [pkg/resourcemanager/controller/networkpolicy/reconciler.go]
      (the Service -> NetworkPolicy reconciler), and
    - the [progressing] health reconciler of ManagedResources,
    together with the properties of both that the design document states.

    Conventions.  Go strings are [string]s (lists of bytes); [map[string]string]
    is a [gmap string string]; a nil-able pointer or map is an [option]; Go's
    [error] results are the [Err] branch of [result]; the API server behind
    [client.Client] is an explicit in-memory [Cluster] that every client call
    reads or updates, and that can be told to fail any request. *)

From Stdlib Require Import ZArith Ascii String DecimalString DecimalZ Permutation.
From stdpp Require Import base option list strings gmap fin_maps.

Local Open Scope string_scope.
Local Open Scope list_scope.

(* ===================================================================== *)
(** ** Go runtime and library helpers *)
(* ===================================================================== *)

(** [strconv.Itoa]: decimal rendering, a leading [-] for negative numbers. *)
Definition Itoa (n : Z) : string := NilEmpty.string_of_int (Z.to_int n).

(** One byte of [strings.ToLower].  The strings lower-cased by the controller
    are protocol names, which are ASCII; bytes outside [A-Z] are kept. *)
Definition toLowerByte (a : ascii) : ascii :=
  let n := Ascii.N_of_ascii a in
  if ((65 <=? n)%N && (n <=? 90)%N)%bool then Ascii.ascii_of_N (n + 32)%N else a.

Fixpoint ToLower (s : string) : string :=
  match s with
  | EmptyString => EmptyString
  | String a rest => String (toLowerByte a) (ToLower rest)
  end.

(** The verb [%q] of [fmt]: the string between double quotes.  The strings
    quoted by the controllers are names and keys of Kubernetes objects, whose
    characters (lower-case letters, digits, [-], [.] and the [/] of a key)
    are printed as they are. *)
Definition quoted (s : string) : string :=
  String (Ascii.ascii_of_N 34) (s +:+ String (Ascii.ascii_of_N 34) EmptyString).

(** Errors.  [ErrWrap] is [fmt.Errorf("...: %w", err)]; [ErrPanic] stands for
    a run-time panic (nil pointer dereference), which unwinds the call like an
    error that nobody handles. *)
Inductive error : Type :=
| ErrNotFound
| ErrStore (reason : string)
| ErrSyntax (input : string)
| ErrInvalidSelector (reason : string)
| ErrPanic
| ErrWrap (context : string) (cause : error).

Inductive result (A : Type) : Type :=
| Ok (a : A)
| Err (e : error).
Arguments Ok {A} a.
Arguments Err {A} e.

Definition isErr {A} (r : result A) : bool :=
  match r with Ok _ => false | Err _ => true end.

(** [apierrors.IsNotFound] looks through wrapped errors. *)
Fixpoint IsNotFound (e : error) : bool :=
  match e with
  | ErrNotFound => true
  | ErrWrap _ cause => IsNotFound cause
  | _ => false
  end.

(* ===================================================================== *)
(** ** Kubernetes API types (the fields the controllers use) *)
(* ===================================================================== *)

Module intstr.
(** [intstr.IntOrString]: the [Type] tag with [IntVal] or [StrVal]. *)
Inductive IntOrString : Type :=
| FromInt (IntVal : Z)
| FromString (StrVal : string).

(** The [String] method of a pointer to [IntOrString]: a nil receiver
    prints as [<nil>]. *)
Definition String (v : option IntOrString) : string :=
  match v with
  | None => "<nil>"
  | Some (FromString s) => s
  | Some (FromInt n) => Itoa n
  end.
End intstr.

Module metav1.
Record ObjectMeta : Type := {
  Name : string;
  Namespace : string;
  Labels : gmap string string;
  Annotations : gmap string string;
  DeletionTimestamp : option Z;
  Finalizers : list string;
}.

(** [metav1.ObjectMeta{Name: n, Namespace: ns}] *)
Definition newObjectMeta (name namespace : string) : ObjectMeta :=
  {| Name := name; Namespace := namespace; Labels := ∅; Annotations := ∅;
     DeletionTimestamp := None; Finalizers := [] |}.

Definition SetMetaDataLabel (meta : ObjectMeta) (k v : string) : ObjectMeta :=
  {| Name := Name meta; Namespace := Namespace meta;
     Labels := <[k := v]> (Labels meta); Annotations := Annotations meta;
     DeletionTimestamp := DeletionTimestamp meta; Finalizers := Finalizers meta |}.

Definition SetMetaDataAnnotation (meta : ObjectMeta) (k v : string) : ObjectMeta :=
  {| Name := Name meta; Namespace := Namespace meta;
     Labels := Labels meta; Annotations := <[k := v]> (Annotations meta);
     DeletionTimestamp := DeletionTimestamp meta; Finalizers := Finalizers meta |}.

Definition SetFinalizers (meta : ObjectMeta) (fs : list string) : ObjectMeta :=
  {| Name := Name meta; Namespace := Namespace meta;
     Labels := Labels meta; Annotations := Annotations meta;
     DeletionTimestamp := DeletionTimestamp meta; Finalizers := fs |}.

Record LabelSelectorRequirement : Type := {
  Key : string;
  Operator : string;
  Values : list string;
}.

Record LabelSelector : Type := {
  MatchLabels : option (gmap string string);
  MatchExpressions : list LabelSelectorRequirement;
}.

(** [metav1.LabelSelector{}] *)
Definition emptyLabelSelector : LabelSelector :=
  {| MatchLabels := None; MatchExpressions := [] |}.

(** [metav1.PartialObjectMetadata]: an object reduced to its metadata. *)
Abbreviation PartialObjectMetadata := ObjectMeta (only parsing).
End metav1.

Module labels.
(** [labels.Selector]: a compiled selector, used through [Matches]. *)
Record Selector : Type := { Matches : gmap string string → bool }.
End labels.

Module corev1.
Record ServicePort : Type := {
  PortName : string;
  Protocol : string;
  Port : Z;
  TargetPort : intstr.IntOrString;
}.

Record ServiceSpec : Type := {
  Selector : option (gmap string string);
  Ports : list ServicePort;
}.

Record Service : Type := {
  ObjectMeta : metav1.ObjectMeta;
  Spec : ServiceSpec;
}.

Definition withObjectMeta (s : Service) (m : metav1.ObjectMeta) : Service :=
  {| ObjectMeta := m; Spec := Spec s |}.
End corev1.

Module networkingv1.
Record NetworkPolicyPort : Type := {
  Protocol : option string;
  Port : option intstr.IntOrString;
  EndPort : option Z;
}.

Record IPBlock : Type := { CIDR : string; Except : list string }.

Record NetworkPolicyPeer : Type := {
  PodSelector : option metav1.LabelSelector;
  NamespaceSelector : option metav1.LabelSelector;
  PeerIPBlock : option IPBlock;
}.

Record NetworkPolicyIngressRule : Type := {
  From : list NetworkPolicyPeer;
  IngressPorts : list NetworkPolicyPort;
}.

Record NetworkPolicyEgressRule : Type := {
  To : list NetworkPolicyPeer;
  EgressPorts : list NetworkPolicyPort;
}.

Inductive PolicyType : Type := PolicyTypeIngress | PolicyTypeEgress.

Record NetworkPolicySpec : Type := {
  SpecPodSelector : metav1.LabelSelector;
  Ingress : list NetworkPolicyIngressRule;
  Egress : list NetworkPolicyEgressRule;
  PolicyTypes : list PolicyType;
}.

Record NetworkPolicy : Type := {
  ObjectMeta : metav1.ObjectMeta;
  Spec : NetworkPolicySpec;
}.

(** [&networkingv1.NetworkPolicy{ObjectMeta: meta}] *)
Definition newNetworkPolicy (meta : metav1.ObjectMeta) : NetworkPolicy :=
  {| ObjectMeta := meta;
     Spec := {| SpecPodSelector := metav1.emptyLabelSelector;
                Ingress := []; Egress := []; PolicyTypes := [] |} |}.
End networkingv1.

(* ===================================================================== *)
(** ** Constants *)
(* ===================================================================== *)

(** [reconciler.go]: [const finalizerName]. *)
Definition finalizerName : string := "resources.gardener.cloud/networkpolicy-controller".

(** Modelled from the spec: the annotation keys of
    [pkg/apis/resources/v1alpha1], which is not among the sources; the design
    document lists them as the wire contract. *)
Definition NetworkingNamespaceSelectors : string :=
  "networking.resources.gardener.cloud/namespace-selectors".
Definition NetworkingPodLabelSelectorNamespaceAlias : string :=
  "networking.resources.gardener.cloud/pod-label-selector-namespace-alias".
Definition NetworkingFromWorldToPorts : string :=
  "networking.resources.gardener.cloud/from-world-to-ports".
Definition NetworkingFromPolicyPodLabelSelector : string :=
  "networking.resources.gardener.cloud/from-policy-pod-label-selector".
Definition NetworkingFromPolicyAllowedPorts : string :=
  "networking.resources.gardener.cloud/from-policy-allowed-ports".

(** Modelled from the spec: the two back-reference labels ([service-name],
    [service-namespace]) and the description annotation, declared in packages
    that are not among the sources. *)
Definition NetworkingServiceName : string :=
  "networking.resources.gardener.cloud/service-name".
Definition NetworkingServiceNamespace : string :=
  "networking.resources.gardener.cloud/service-namespace".
Definition GardenerDescription : string := "gardener.cloud/description".

(** Modelled from the spec: [v1beta1constants.LabelNetworkPolicyAllowed], the
    value of the peer label ([...=allowed]). *)
Definition LabelNetworkPolicyAllowed : string := "allowed".

(** [corev1.LabelMetadataName] *)
Definition LabelMetadataName : string := "kubernetes.io/metadata.name".

(* ===================================================================== *)
(** ** Naming: [policyIDFor], object metadata and the identity key *)
(* ===================================================================== *)

(** [policyIDFor].  [*port.Protocol] panics on a nil protocol: [None]. *)
Definition policyIDFor (serviceName : string) (port : networkingv1.NetworkPolicyPort)
  : option string :=
  match networkingv1.Protocol port with
  | None => None
  | Some protocol =>
      Some (serviceName +:+ "-" +:+ ToLower protocol +:+ "-"
              +:+ intstr.String (networkingv1.Port port))
  end.

(** [service.Annotations[k]] with the comma-ok form. *)
Definition annotation (service : corev1.Service) (k : string) : option string :=
  metav1.Annotations (corev1.ObjectMeta service) !! k.

(** [service.Annotations[k]]: the empty string when the key is absent. *)
Definition annotationValue (service : corev1.Service) (k : string) : string :=
  default "" (annotation service k).

Definition serviceName (service : corev1.Service) : string :=
  metav1.Name (corev1.ObjectMeta service).
Definition serviceNamespace (service : corev1.Service) : string :=
  metav1.Namespace (corev1.ObjectMeta service).

Definition matchLabelsForServiceAndNamespace
    (podLabelSelector : string) (service : corev1.Service) (namespaceName : string)
  : gmap string string :=
  let infix :=
    if decide (serviceNamespace service ≠ namespaceName) then
      (match annotation service NetworkingPodLabelSelectorNamespaceAlias with
       | Some namespaceAlias => namespaceAlias
       | None => serviceNamespace service
       end) +:+ "-"
    else "" in
  {[ "networking.resources.gardener.cloud/to-" +:+ infix +:+ podLabelSelector
     := LabelNetworkPolicyAllowed ]}.

Definition ingressPolicyObjectMetaFor (policyID serviceNamespace namespaceName : string)
  : metav1.ObjectMeta :=
  let name := "ingress-to-" +:+ policyID in
  let name := if decide (serviceNamespace ≠ namespaceName)
              then name +:+ "-from-" +:+ namespaceName else name in
  metav1.newObjectMeta name serviceNamespace.

Definition egressPolicyObjectMetaFor (policyID serviceNamespace namespaceName : string)
  : metav1.ObjectMeta :=
  let name := "egress-to-" +:+ policyID in
  let name := if decide (serviceNamespace ≠ namespaceName)
              then "egress-to-" +:+ serviceNamespace +:+ "-" +:+ policyID else name in
  metav1.newObjectMeta name namespaceName.

Definition ingressNamespaceSelectorFor (serviceNamespace namespaceName : string)
  : option metav1.LabelSelector :=
  if decide (serviceNamespace = namespaceName) then None
  else Some {| metav1.MatchLabels := Some {[ LabelMetadataName := namespaceName ]};
               metav1.MatchExpressions := [] |}.

Definition egressNamespaceSelectorFor (serviceNamespace namespaceName : string)
  : option metav1.LabelSelector :=
  if decide (serviceNamespace = namespaceName) then None
  else Some {| metav1.MatchLabels := Some {[ LabelMetadataName := serviceNamespace ]};
               metav1.MatchExpressions := [] |}.

Definition key (meta : metav1.ObjectMeta) : string :=
  metav1.Namespace meta +:+ "/" +:+ metav1.Name meta.


(* ===================================================================== *)
(** ** The object store behind [client.Client] *)
(* ===================================================================== *)

(** The requests the controller sends.  [UpsertNetworkPolicy] is one
    [GetAndCreateOrMergePatch]; [PatchFinalizers] is the merge patch sent by
    [AddFinalizers] and [RemoveFinalizers]. *)
Inductive Request : Type :=
| GetService (namespace name : string)
| ListServices
| ListNetworkPolicies
| GetNamespace (name : string)
| ListNamespaces
| PatchFinalizers (namespace name : string)
| UpsertNetworkPolicy (namespace name : string)
| DeleteNetworkPolicy (namespace name : string).

(** Modelled from the spec: the Object Store Abstraction (get,
    list-with-filter, create, patch, delete-if-exists) that stands behind
    [client.Client]; its implementation is not among the sources.  [faults]
    makes a request fail with the given error; [journal] records the requests
    in the order in which they were served. *)
Record Cluster : Type := {
  services : gmap (string * string) corev1.Service;
  namespaces : gmap string metav1.PartialObjectMetadata;
  networkPolicies : gmap (string * string) networkingv1.NetworkPolicy;
  faults : Request → option error;
  journal : list Request;
}.

Definition setServices (c : Cluster) (s : gmap (string * string) corev1.Service) : Cluster :=
  {| services := s; namespaces := namespaces c; networkPolicies := networkPolicies c;
     faults := faults c; journal := journal c |}.

Definition setNetworkPolicies (c : Cluster)
    (nps : gmap (string * string) networkingv1.NetworkPolicy) : Cluster :=
  {| services := services c; namespaces := namespaces c; networkPolicies := nps;
     faults := faults c; journal := journal c |}.

Definition record (c : Cluster) (req : Request) : Cluster :=
  {| services := services c; namespaces := namespaces c;
     networkPolicies := networkPolicies c;
     faults := faults c; journal := journal c ++ [req] |}.

(** Every stored NetworkPolicy sits under its own namespace and name. *)
Definition wellKeyed (c : Cluster) : Prop :=
  ∀ k np, networkPolicies c !! k = Some np →
    k = (metav1.Namespace (networkingv1.ObjectMeta np),
         metav1.Name (networkingv1.ObjectMeta np)).

(** No request fails for a reason of the store's own. *)
Definition reliable (c : Cluster) : Prop := ∀ req, faults c req = None.

(** *** The monad of client calls: state passing with errors *)

Definition M (A : Type) : Type := Cluster → result A * Cluster.

#[global] Instance M_ret : MRet M := λ A a c, (Ok a, c).
#[global] Instance M_bind : MBind M := λ A B f m c,
  match m c with
  | (Ok a, c') => f a c'
  | (Err e, c') => (Err e, c')
  end.

#[global] Instance result_ret : MRet result := λ A a, Ok a.
#[global] Instance result_bind : MBind result := λ A B f m,
  match m with
  | Ok a => f a
  | Err e => Err e
  end.

Definition fail {A} (e : error) : M A := λ c, (Err e, c).

(** A pure computation that may fail, inside a reconciliation. *)
Definition lift {A} (r : result A) : M A := λ c, (r, c).

(** [if err != nil { return fmt.Errorf(context + ": %w", err) }] *)
Definition wrapResult {A} (context : string) (r : result A) : result A :=
  match r with
  | Ok a => Ok a
  | Err e => Err (ErrWrap context e)
  end.

Definition wrap {A} (context : string) (m : M A) : M A :=
  λ c, let '(r, c') := m c in (wrapResult context r, c').

(** Serving a request: it is journalled, and fails if the store says so. *)
Definition call (req : Request) : M unit :=
  λ c, match faults c req with
       | Some e => (Err e, record c req)
       | None => (Ok tt, record c req)
       end.

Definition Get_Service (namespace name : string) : M corev1.Service :=
  call (GetService namespace name);;
  (λ c, match services c !! (namespace, name) with
        | Some service => (Ok service, c)
        | None => (Err ErrNotFound, c)
        end) : M corev1.Service.

Definition Get_Namespace (name : string) : M metav1.PartialObjectMetadata :=
  call (GetNamespace name);;
  (λ c, match namespaces c !! name with
        | Some namespace => (Ok namespace, c)
        | None => (Err ErrNotFound, c)
        end) : M metav1.PartialObjectMetadata.

(** [client.MatchingLabels]: every given label is carried with that value. *)
Definition matchingLabels (want : list (string * string)) (meta : metav1.ObjectMeta) : bool :=
  forallb (λ kv, bool_decide (metav1.Labels meta !! kv.1 = Some kv.2)) want.

Definition List_NetworkPolicies (want : list (string * string))
  : M (list metav1.PartialObjectMetadata) :=
  call ListNetworkPolicies;;
  (λ c, (Ok (filter (λ meta, matchingLabels want meta = true)
               (networkingv1.ObjectMeta <$> (map_to_list (networkPolicies c)).*2)), c))
  : M (list metav1.PartialObjectMetadata).

(** [client.MatchingLabelsSelector] on the namespaces. *)
Definition List_Namespaces (selector : labels.Selector)
  : M (list metav1.PartialObjectMetadata) :=
  call ListNamespaces;;
  (λ c, (Ok (filter (λ meta, labels.Matches selector (metav1.Labels meta) = true)
               (map_to_list (namespaces c)).*2), c))
  : M (list metav1.PartialObjectMetadata).

(** Modelled from the spec: [controllerutils.GetAndCreateOrMergePatch], which
    is not among the sources: fetch by (namespace, name); if absent, create
    the mutated object; if present, patch it with what the mutation changes,
    leaving every other field as stored. *)
Definition GetAndCreateOrMergePatch (obj : networkingv1.NetworkPolicy)
    (mutate : networkingv1.NetworkPolicy → networkingv1.NetworkPolicy) : M unit :=
  let namespace := metav1.Namespace (networkingv1.ObjectMeta obj) in
  let name := metav1.Name (networkingv1.ObjectMeta obj) in
  call (UpsertNetworkPolicy namespace name);;
  (λ c, let stored := default obj (networkPolicies c !! (namespace, name)) in
        (Ok tt, setNetworkPolicies c
                  (<[(namespace, name) := mutate stored]> (networkPolicies c)))) : M unit.

(** Modelled from the spec: [kubernetesutils.DeleteObject], which is not among
    the sources: delete-if-exists, an object already gone is a success. *)
Definition DeleteObject (obj : metav1.PartialObjectMetadata) : M unit :=
  let namespace := metav1.Namespace obj in
  let name := metav1.Name obj in
  λ c, match faults c (DeleteNetworkPolicy namespace name) with
       | Some e =>
           (if IsNotFound e then Ok tt else Err e, record c (DeleteNetworkPolicy namespace name))
       | None =>
           (Ok tt, setNetworkPolicies (record c (DeleteNetworkPolicy namespace name))
                     (delete (namespace, name) (networkPolicies c)))
       end.

(** [controllerutil.ContainsFinalizer], [AddFinalizer], [RemoveFinalizer]. *)
Definition ContainsFinalizer (meta : metav1.ObjectMeta) (finalizer : string) : bool :=
  bool_decide (finalizer ∈ metav1.Finalizers meta).

Definition AddFinalizer (meta : metav1.ObjectMeta) (finalizer : string) : metav1.ObjectMeta :=
  if ContainsFinalizer meta finalizer then meta
  else metav1.SetFinalizers meta (metav1.Finalizers meta ++ [finalizer]).

Definition RemoveFinalizer (meta : metav1.ObjectMeta) (finalizer : string) : metav1.ObjectMeta :=
  metav1.SetFinalizers meta
    (filter (λ f, f ≠ finalizer) (metav1.Finalizers meta)).

(** The merge patch of the finalizer list of a stored Service. *)
Definition patchFinalizers (service : corev1.Service) : M unit :=
  let namespace := metav1.Namespace (corev1.ObjectMeta service) in
  let name := metav1.Name (corev1.ObjectMeta service) in
  call (PatchFinalizers namespace name);;
  (λ c, match services c !! (namespace, name) with
        | None => (Err ErrNotFound, c)
        | Some stored =>
            (Ok tt, setServices c
               (<[(namespace, name) :=
                    corev1.withObjectMeta stored
                      (metav1.SetFinalizers (corev1.ObjectMeta stored)
                         (metav1.Finalizers (corev1.ObjectMeta service)))]> (services c)))
        end) : M unit.

(** Modelled from the spec: [controllerutils.AddFinalizers] and
    [controllerutils.RemoveFinalizers], which are not among the sources: the
    finalizer is added to (removed from) the object in memory and the change
    is patched into the store; the removal treats not-found as success.  The
    updated in-memory object is returned. *)
Definition AddFinalizers (service : corev1.Service) (finalizer : string) : M corev1.Service :=
  let service' :=
    corev1.withObjectMeta service (AddFinalizer (corev1.ObjectMeta service) finalizer) in
  patchFinalizers service';; mret service'.

Definition RemoveFinalizers (service : corev1.Service) (finalizer : string) : M corev1.Service :=
  let service' :=
    corev1.withObjectMeta service (RemoveFinalizer (corev1.ObjectMeta service) finalizer) in
  λ c, match patchFinalizers service' c with
       | (Err e, c') => (if IsNotFound e then Ok service' else Err e, c')
       | (Ok _, c') => (Ok service', c')
       end.

(* ===================================================================== *)
(** ** Library code the reconciler calls *)
(* ===================================================================== *)

(** [encoding/json], [metav1.LabelSelectorAsSelector] and [fmt]'s rendering of
    a port list belong to libraries outside this repository.  The reconciler
    is written against their signatures; every theorem holds for whatever
    they compute. *)
Class External : Type := {
  unmarshalLabelSelectors : string → result (list metav1.LabelSelector);
  unmarshalPorts : string → result (list networkingv1.NetworkPolicyPort);
  LabelSelectorAsSelector : metav1.LabelSelector → result labels.Selector;
  sprintPorts : list networkingv1.NetworkPolicyPort → string;
}.

(** [fmt]'s rendering of a [map[string]string]; the maps printed by the
    reconciler have one entry. *)
Definition sprintLabels (m : gmap string string) : string :=
  "map[" +:+ String.concat " " ((λ kv, kv.1 +:+ ":" +:+ kv.2) <$> map_to_list m) +:+ "]".

(** [client.ObjectKeyFromObject(service).String()] *)
Definition objectKeyString (service : corev1.Service) : string :=
  serviceNamespace service +:+ "/" +:+ serviceName service.

Module reconcile.
Record Result : Type := { Requeue : bool; RequeueAfter : Z }.
(** [reconcile.Result{}] *)
Definition empty : Result := {| Requeue := false; RequeueAfter := 0 |}.
End reconcile.

(* ===================================================================== *)
(** ** Tasks and [flow.Parallel] *)
(* ===================================================================== *)

(** A [flow.TaskFn] built by the reconciler is one of four closures; each is
    represented by its code and the variables it captured. *)
Inductive TaskFn : Type :=
| reconcileIngressPolicyTask (service : corev1.Service)
    (port : networkingv1.NetworkPolicyPort) (objectMeta : metav1.ObjectMeta)
    (namespaceName : string) (matchLabels : gmap string string)
| reconcileEgressPolicyTask (service : corev1.Service)
    (port : networkingv1.NetworkPolicyPort) (objectMeta : metav1.ObjectMeta)
    (namespaceName : string) (matchLabels : gmap string string)
| reconcileIngressFromWorldPolicyTask (service : corev1.Service)
    (objectMeta : metav1.ObjectMeta)
| deleteObjectTask (networkPolicy : metav1.PartialObjectMetadata).

(** The order in which the tasks of one fan-out of [n] tasks are served. *)
Definition Scheduler : Type := nat → list nat.

(** A scheduler that serves every task exactly once. *)
Definition fair (sched : Scheduler) : Prop := ∀ n, Permutation (sched n) (seq 0 n).

(** The scheduler that serves the tasks last to first. *)
Definition lastFirst : Scheduler := λ n, reverse (seq 0 n).

(** The scheduler that serves the tasks in the order of the task list. *)
Definition inOrder : Scheduler := seq 0.

Section Reconciler.
Context `{External}.

(** *** Upserts *)

Definition setBackReferences (meta : metav1.ObjectMeta) (service : corev1.Service)
  : metav1.ObjectMeta :=
  metav1.SetMetaDataLabel
    (metav1.SetMetaDataLabel meta NetworkingServiceName (serviceName service))
    NetworkingServiceNamespace (serviceNamespace service).

Definition reconcileIngressPolicy (service : corev1.Service)
    (port : networkingv1.NetworkPolicyPort) (networkPolicyObjectMeta : metav1.ObjectMeta)
    (namespaceName : string) (matchLabels : gmap string string) : M unit :=
  GetAndCreateOrMergePatch (networkingv1.newNetworkPolicy networkPolicyObjectMeta)
    (λ networkPolicy,
       {| networkingv1.ObjectMeta :=
            metav1.SetMetaDataAnnotation
              (setBackReferences (networkingv1.ObjectMeta networkPolicy) service)
              GardenerDescription
              ("Allows ingress " +:+ default "" (networkingv1.Protocol port)
                 +:+ " traffic to port " +:+ intstr.String (networkingv1.Port port)
                 +:+ " for pods selected by the " +:+ objectKeyString service
                 +:+ " service selector from pods running in namespace " +:+ namespaceName
                 +:+ " labeled with " +:+ sprintLabels matchLabels +:+ ".");
          networkingv1.Spec :=
            {| networkingv1.Ingress :=
                 [{| networkingv1.From :=
                       [{| networkingv1.PodSelector :=
                             Some {| metav1.MatchLabels := Some matchLabels;
                                     metav1.MatchExpressions := [] |};
                           networkingv1.NamespaceSelector :=
                             ingressNamespaceSelectorFor (serviceNamespace service) namespaceName;
                           networkingv1.PeerIPBlock := None |}];
                     networkingv1.IngressPorts := [port] |}];
               networkingv1.Egress := [];
               networkingv1.SpecPodSelector :=
                 {| metav1.MatchLabels := corev1.Selector (corev1.Spec service);
                    metav1.MatchExpressions := [] |};
               networkingv1.PolicyTypes := [networkingv1.PolicyTypeIngress] |} |}).

Definition reconcileEgressPolicy (service : corev1.Service)
    (port : networkingv1.NetworkPolicyPort) (networkPolicyObjectMeta : metav1.ObjectMeta)
    (namespaceName : string) (matchLabels : gmap string string) : M unit :=
  GetAndCreateOrMergePatch (networkingv1.newNetworkPolicy networkPolicyObjectMeta)
    (λ networkPolicy,
       {| networkingv1.ObjectMeta :=
            metav1.SetMetaDataAnnotation
              (setBackReferences (networkingv1.ObjectMeta networkPolicy) service)
              GardenerDescription
              ("Allows egress " +:+ default "" (networkingv1.Protocol port)
                 +:+ " traffic to port " +:+ intstr.String (networkingv1.Port port)
                 +:+ " from pods running in namespace " +:+ namespaceName
                 +:+ " labeled with " +:+ sprintLabels matchLabels
                 +:+ " to pods selected by the " +:+ objectKeyString service
                 +:+ " service selector.");
          networkingv1.Spec :=
            {| networkingv1.Ingress := [];
               networkingv1.Egress :=
                 [{| networkingv1.To :=
                       [{| networkingv1.PodSelector :=
                             Some {| metav1.MatchLabels := corev1.Selector (corev1.Spec service);
                                     metav1.MatchExpressions := [] |};
                           networkingv1.NamespaceSelector :=
                             egressNamespaceSelectorFor (serviceNamespace service) namespaceName;
                           networkingv1.PeerIPBlock := None |}];
                     networkingv1.EgressPorts := [port] |}];
               networkingv1.SpecPodSelector :=
                 {| metav1.MatchLabels := Some matchLabels;
                    metav1.MatchExpressions := [] |};
               networkingv1.PolicyTypes := [networkingv1.PolicyTypeEgress] |} |}).

Definition reconcileIngressFromWorldPolicy (service : corev1.Service)
    (networkPolicyObjectMeta : metav1.ObjectMeta) : M unit :=
  ports ← lift (wrapResult
                  ("failed unmarshaling " +:+ annotationValue service NetworkingFromWorldToPorts)
                  (unmarshalPorts (annotationValue service NetworkingFromWorldToPorts)));
  GetAndCreateOrMergePatch (networkingv1.newNetworkPolicy networkPolicyObjectMeta)
    (λ networkPolicy,
       {| networkingv1.ObjectMeta :=
            metav1.SetMetaDataAnnotation
              (setBackReferences (networkingv1.ObjectMeta networkPolicy) service)
              GardenerDescription
              ("Allows ingress traffic from everywhere to ports " +:+ sprintPorts ports
                 +:+ " for pods selected by the " +:+ objectKeyString service
                 +:+ " service selector.");
          networkingv1.Spec :=
            {| networkingv1.Ingress :=
                 [{| networkingv1.From :=
                       [{| networkingv1.PodSelector := Some metav1.emptyLabelSelector;
                           networkingv1.NamespaceSelector := Some metav1.emptyLabelSelector;
                           networkingv1.PeerIPBlock := None |};
                        {| networkingv1.PodSelector := None;
                           networkingv1.NamespaceSelector := None;
                           networkingv1.PeerIPBlock :=
                             Some {| networkingv1.CIDR := "0.0.0.0/0";
                                     networkingv1.Except := [] |} |}];
                     networkingv1.IngressPorts := ports |}];
               networkingv1.Egress := [];
               networkingv1.SpecPodSelector :=
                 {| metav1.MatchLabels := corev1.Selector (corev1.Spec service);
                    metav1.MatchExpressions := [] |};
               networkingv1.PolicyTypes := [networkingv1.PolicyTypeIngress] |} |}).

(** Calling a task. *)
Definition runTask (t : TaskFn) : M unit :=
  match t with
  | reconcileIngressPolicyTask service port objectMeta namespaceName matchLabels =>
      reconcileIngressPolicy service port objectMeta namespaceName matchLabels
  | reconcileEgressPolicyTask service port objectMeta namespaceName matchLabels =>
      reconcileEgressPolicy service port objectMeta namespaceName matchLabels
  | reconcileIngressFromWorldPolicyTask service objectMeta =>
      reconcileIngressFromWorldPolicy service objectMeta
  | deleteObjectTask networkPolicy => DeleteObject networkPolicy
  end.

(** Modelled from the spec: [flow.Parallel], which is not among the sources.
    All tasks are dispatched at once and run concurrently; a failing task does
    not stop its siblings; when all have completed the first error is
    reported.  A task is served in one step; the scheduler picks the order. *)
Definition served (order : list nat) (fns : list TaskFn) : list TaskFn :=
  omap (λ i, fns !! i) order.

Fixpoint serve (tasks : list TaskFn) (c : Cluster) : option error * Cluster :=
  match tasks with
  | [] => (None, c)
  | t :: rest =>
      let '(r, c1) := runTask t c in
      let '(e, c2) := serve rest c1 in
      (match r with Err e1 => Some e1 | Ok _ => e end, c2)
  end.

Definition Parallel (sched : Scheduler) (fns : list TaskFn) : M unit :=
  λ c, let '(e, c') := serve (served (sched (length fns)) fns) c in
       (match e with Some e1 => Err e1 | None => Ok tt end, c').

(** *** The reconciler *)

(** [Reconciler]: [TargetClient] is the [Cluster] threaded through [M];
    [selectors] are the compiled [Config.NamespaceSelectors]. *)
Record Reconciler : Type := { selectors : list labels.Selector }.

Definition namespaceIsHandled (r : Reconciler) (namespaceName : string) : M bool :=
  namespace ← wrap ("failed to get namespace " +:+ namespaceName) (Get_Namespace namespaceName);
  if decide (length (selectors r) = 0%nat) then mret true
  else mret (existsb (λ selector, labels.Matches selector (metav1.Labels namespace))
               (selectors r)).

(** The body of the loop over [namespaceSelectors]. *)
Definition insertMatchingNamespaces (n : metav1.LabelSelector) (namespaceNames : gset string)
  : M (gset string) :=
  selector ← lift (wrapResult "failed parsing to labels.Selector" (LabelSelectorAsSelector n));
  namespaceList ← wrap "failed listing namespaces with selector" (List_Namespaces selector);
  mret (foldl (λ names namespace,
                 if metav1.DeletionTimestamp namespace is None
                 then {[ metav1.Name namespace ]} ∪ names else names)
              namespaceNames namespaceList).

Fixpoint forEachSelector (namespaceSelectors : list metav1.LabelSelector)
    (namespaceNames : gset string) : M (gset string) :=
  match namespaceSelectors with
  | [] => mret namespaceNames
  | n :: rest =>
      namespaceNames' ← insertMatchingNamespaces n namespaceNames;
      forEachSelector rest namespaceNames'
  end.

Definition fetchRelevantNamespaceNames (service : corev1.Service) : M (gset string) :=
  namespaceSelectors ←
    match annotation service NetworkingNamespaceSelectors with
    | Some v => lift (wrapResult ("failed unmarshaling " +:+ v) (unmarshalLabelSelectors v))
    | None => mret []
    end;
  forEachSelector namespaceSelectors {[ serviceNamespace service ]}.

(** The closure [addTasksForRelevantNamespacesAndPort]; [taskFns] and
    [desiredObjectMetaKeys], which it appends to, are passed and returned.
    [namespaceNames.UnsortedList()] yields the names in no particular order,
    here in the order of [elements]. *)
Definition addTasksForRelevantNamespacesAndPort (service : corev1.Service)
    (namespaceNames : gset string)
    (port : networkingv1.NetworkPolicyPort) (customPodLabelSelector : string)
    (acc : list TaskFn * list string) : result (list TaskFn * list string) :=
  match policyIDFor (serviceName service) port with
  | None => Err ErrPanic
  | Some policyID0 =>
      let policyID :=
        if decide (customPodLabelSelector ≠ "")
        then policyID0 +:+ "-via-" +:+ customPodLabelSelector else policyID0 in
      let podLabelSelector :=
        if decide (customPodLabelSelector ≠ "") then customPodLabelSelector else policyID0 in
      Ok (foldl
            (λ acc namespaceName,
               let matchLabels :=
                 matchLabelsForServiceAndNamespace podLabelSelector service namespaceName in
               let ingressMeta :=
                 ingressPolicyObjectMetaFor policyID (serviceNamespace service) namespaceName in
               let egressMeta :=
                 egressPolicyObjectMetaFor policyID (serviceNamespace service) namespaceName in
               (acc.1 ++ [reconcileIngressPolicyTask service port ingressMeta namespaceName matchLabels;
                          reconcileEgressPolicyTask service port egressMeta namespaceName matchLabels],
                acc.2 ++ [key ingressMeta; key egressMeta]))
            acc (elements namespaceNames))
  end.

(** [networkingv1.NetworkPolicyPort{Protocol: &port.Protocol, Port: &port.TargetPort}] *)
Definition policyPortOf (p : corev1.ServicePort) : networkingv1.NetworkPolicyPort :=
  {| networkingv1.Protocol := Some (corev1.Protocol p);
     networkingv1.Port := Some (corev1.TargetPort p);
     networkingv1.EndPort := None |}.

Fixpoint forEachPort (service : corev1.Service) (namespaceNames : gset string)
    (ports : list networkingv1.NetworkPolicyPort) (customPodLabelSelector : string)
    (acc : list TaskFn * list string) : result (list TaskFn * list string) :=
  match ports with
  | [] => Ok acc
  | port :: rest =>
      acc' ← addTasksForRelevantNamespacesAndPort service namespaceNames port
               customPodLabelSelector acc;
      forEachPort service namespaceNames rest customPodLabelSelector acc'
  end.

Definition fromWorldObjectMeta (service : corev1.Service) : metav1.ObjectMeta :=
  metav1.newObjectMeta ("ingress-to-" +:+ serviceName service +:+ "-from-world")
    (serviceNamespace service).

Definition reconcileDesiredPolicies (service : corev1.Service) (namespaceNames : gset string)
  : result (list TaskFn * list string) :=
  acc ← forEachPort service namespaceNames
          (policyPortOf <$> corev1.Ports (corev1.Spec service)) "" ([], []);
  acc ←
    (let customPodLabelSelector := annotationValue service NetworkingFromPolicyPodLabelSelector in
     let allowedPorts := annotationValue service NetworkingFromPolicyAllowedPorts in
     if decide (customPodLabelSelector ≠ "" ∧ allowedPorts ≠ "") then
       ports ← wrapResult ("failed unmarshaling " +:+ allowedPorts) (unmarshalPorts allowedPorts);
       forEachPort service namespaceNames ports customPodLabelSelector acc
     else Ok acc);
  match annotation service NetworkingFromWorldToPorts with
  | Some _ =>
      let objectMeta := fromWorldObjectMeta service in
      Ok (acc.1 ++ [reconcileIngressFromWorldPolicyTask service objectMeta],
          acc.2 ++ [key objectMeta])
  | None => Ok acc
  end.

Definition deleteStalePolicies (networkPolicyList : list metav1.PartialObjectMetadata)
    (desiredObjectMetaKeys : list string) : list TaskFn :=
  let objectMetaKeysForDesiredPolicies : gset string := list_to_set desiredObjectMetaKeys in
  foldl (λ taskFns networkPolicy,
           if decide (key networkPolicy ∈ objectMetaKeysForDesiredPolicies) then taskFns
           else taskFns ++ [deleteObjectTask networkPolicy])
        [] networkPolicyList.

(** [Reconcile], lines 80-94: the Service is being deleted, selects no pods,
    or lives in a namespace that is not handled. *)
Definition reconcileInactive (sched : Scheduler) (service : corev1.Service)
    (networkPolicyList : list metav1.PartialObjectMetadata) : M reconcile.Result :=
  if negb (ContainsFinalizer (corev1.ObjectMeta service) finalizerName)
  then mret reconcile.empty
  else
    Parallel sched (deleteStalePolicies networkPolicyList []);;
    wrap "failed to remove finalizer" (RemoveFinalizers service finalizerName);;
    mret reconcile.empty.

(** [Reconcile], lines 97-102: the finalizer is added unless it is there. *)
Definition ensureFinalizer (service : corev1.Service) : M corev1.Service :=
  if negb (ContainsFinalizer (corev1.ObjectMeta service) finalizerName)
  then wrap "failed to add finalizer" (AddFinalizers service finalizerName)
  else mret service.

(** [Reconcile], lines 97-115: the Service is active. *)
Definition reconcileActive (sched : Scheduler) (service : corev1.Service)
    (networkPolicyList : list metav1.PartialObjectMetadata) : M reconcile.Result :=
  service ← ensureFinalizer service;
  namespaceNames ← fetchRelevantNamespaceNames service;
  desired ← lift (reconcileDesiredPolicies service namespaceNames);
  Parallel sched (desired.1 ++ deleteStalePolicies networkPolicyList desired.2);;
  mret reconcile.empty.

(** The [client.MatchingLabels] of the list call: the two back-reference
    labels of the Service. *)
Definition backReferenceLabels (service : corev1.Service) : list (string * string) :=
  [(NetworkingServiceName, serviceName service);
   (NetworkingServiceNamespace, serviceNamespace service)].

(** [Reconcile], lines 65-115: after the Service has been fetched. *)
Definition reconcileService (r : Reconciler) (sched : Scheduler) (service : corev1.Service)
  : M reconcile.Result :=
  networkPolicyList ←
    wrap ("failed listing network policies for service " +:+ objectKeyString service)
      (List_NetworkPolicies (backReferenceLabels service));
  isNamespaceHandled ←
    wrap ("failed checking whether namespace " +:+ serviceNamespace service +:+ " is handled")
      (namespaceIsHandled r (serviceNamespace service));
  if bool_decide (metav1.DeletionTimestamp (corev1.ObjectMeta service) ≠ None)
     || bool_decide (corev1.Selector (corev1.Spec service) = None)
     || negb isNamespaceHandled
  then reconcileInactive sched service networkPolicyList
  else reconcileActive sched service networkPolicyList.

Definition Reconcile (r : Reconciler) (sched : Scheduler) (request : string * string)
  : M reconcile.Result :=
  λ c, match Get_Service request.1 request.2 c with
       | (Err err, c') =>
           if IsNotFound err then (Ok reconcile.empty, c')
           else (Err (ErrWrap "error retrieving object from store" err), c')
       | (Ok service, c') => reconcileService r sched service c'
       end.

End Reconciler.

(* ===================================================================== *)
(** ** Derivation tuples and their identity keys *)
(* ===================================================================== *)

(** The two entries of the table of [objectMetaFunc]/[reconcileFunc] pairs in
    [addTasksForRelevantNamespacesAndPort]. *)
Inductive PolicyKind : Type := IngressPolicy | EgressPolicy.

Definition objectMetaFunc (kind : PolicyKind)
  : string → string → string → metav1.ObjectMeta :=
  match kind with
  | IngressPolicy => ingressPolicyObjectMetaFor
  | EgressPolicy => egressPolicyObjectMetaFor
  end.

(** What one per-port policy of a Service is derived from: the protocol and
    target port, the custom pod label selector (empty for a port of the
    Service itself), the peer namespace and the direction. *)
Record Derivation : Type := {
  dProtocol : string;
  dPort : intstr.IntOrString;
  dCustomPodLabelSelector : string;
  dNamespace : string;
  dKind : PolicyKind;
}.

Definition derivationPort (d : Derivation) : networkingv1.NetworkPolicyPort :=
  {| networkingv1.Protocol := Some (dProtocol d);
     networkingv1.Port := Some (dPort d);
     networkingv1.EndPort := None |}.

(** The identity key the reconciler gives to a derivation: the [policyID] of
    [addTasksForRelevantNamespacesAndPort], then the object metadata, then
    [key]. *)
Definition derivationPolicyID (service : corev1.Service) (d : Derivation) : string :=
  let policyID0 :=
    serviceName service +:+ "-" +:+ ToLower (dProtocol d) +:+ "-"
      +:+ intstr.String (Some (dPort d)) in
  if decide (dCustomPodLabelSelector d ≠ "")
  then policyID0 +:+ "-via-" +:+ dCustomPodLabelSelector d else policyID0.

Definition derivationKey (service : corev1.Service) (d : Derivation) : string :=
  key (objectMetaFunc (dKind d) (derivationPolicyID service d)
         (serviceNamespace service) (dNamespace d)).

(** Whether a byte occurs in a string. *)
Fixpoint occurs (a : ascii) (s : string) : bool :=
  match s with
  | EmptyString => false
  | String b rest => if decide (a = b) then true else occurs a rest
  end.

(** The derivations on which the key is shown to be injective: one of the
    three protocols of the API, a target port that is a non-negative number
    or a name without hyphen that is not a number, the custom selector of the
    Service (or none), and a namespace name without a slash. *)
Definition isDigit (a : ascii) : bool :=
  let n := Ascii.N_of_ascii a in ((48 <=? n)%N && (n <=? 57)%N)%bool.

Fixpoint allDigits (s : string) : bool :=
  match s with
  | EmptyString => true
  | String a rest => isDigit a && allDigits rest
  end.

Definition admissiblePort (p : intstr.IntOrString) : Prop :=
  match p with
  | intstr.FromInt n => (0 ≤ n)%Z
  | intstr.FromString s => occurs "-" s = false ∧ allDigits s = false
  end.

Definition admissible (customPodLabelSelector : string) (d : Derivation) : Prop :=
  dProtocol d ∈ ["TCP"; "UDP"; "SCTP"]
  ∧ admissiblePort (dPort d)
  ∧ (dCustomPodLabelSelector d = "" ∨ dCustomPodLabelSelector d = customPodLabelSelector)
  ∧ occurs "/" (dNamespace d) = false.

(** A tail is empty or starts with a hyphen. *)
Definition hyphenTail (r : string) : Prop := r = "" ∨ ∃ r', r = String "-" r'.

(** The tails a policy name can carry after the rendered port. *)
Definition viaTail (customPodLabelSelector : string) : string :=
  if decide (customPodLabelSelector ≠ "") then "-via-" +:+ customPodLabelSelector else "".

Definition fromTail (serviceNamespace namespaceName : string) : string :=
  if decide (serviceNamespace ≠ namespaceName) then "-from-" +:+ namespaceName else "".

(** A live namespace of the cluster that the compiled selector matches. *)
Definition liveMatch (c : Cluster) (selector : labels.Selector) (n : string) : Prop :=
  ∃ k namespace, namespaces c !! k = Some namespace
    ∧ metav1.Name namespace = n
    ∧ metav1.DeletionTimestamp namespace = None
    ∧ labels.Matches selector (metav1.Labels namespace) = true.

(* ===================================================================== *)
(** ** Scenarios *)
(* ===================================================================== *)

Module Fixtures.

(** A stand-in for the libraries: it decodes the JSON texts [[]] and [[{}]]
    as [encoding/json] does and rejects every other text (among them the
    malformed [{]); it compiles selectors that have match labels only. *)
Definition ext : External := {|
  unmarshalLabelSelectors := λ s,
    if decide (s = "[]") then Ok []
    else if decide (s = "[{}]") then Ok [metav1.emptyLabelSelector]
    else Err (ErrSyntax s);
  unmarshalPorts := λ s,
    if decide (s = "[]") then Ok []
    else if decide (s = "[{}]")
         then Ok [{| networkingv1.Protocol := None; networkingv1.Port := None;
                     networkingv1.EndPort := None |}]
    else Err (ErrSyntax s);
  LabelSelectorAsSelector := λ sel,
    match metav1.MatchExpressions sel with
    | [] => Ok {| labels.Matches := λ have,
                    forallb (λ kv, bool_decide (have !! kv.1 = Some kv.2))
                      (map_to_list (default ∅ (metav1.MatchLabels sel))) |}
    | _ => Err (ErrInvalidSelector "match expressions")
    end;
  sprintPorts := λ ports, "[" +:+ String.concat " " ((λ _, "{}") <$> ports) +:+ "]";
|}.

Definition servicePort (protocol : string) (target : intstr.IntOrString) : corev1.ServicePort :=
  {| corev1.PortName := ""; corev1.Protocol := protocol; corev1.Port := 80;
     corev1.TargetPort := target |}.

Definition serviceIn (namespace name : string) (annotations : gmap string string)
    (finalizers : list string) (deletion : option Z)
    (selector : option (gmap string string)) (ports : list corev1.ServicePort)
  : corev1.Service :=
  {| corev1.ObjectMeta :=
       {| metav1.Name := name; metav1.Namespace := namespace; metav1.Labels := ∅;
          metav1.Annotations := annotations; metav1.DeletionTimestamp := deletion;
          metav1.Finalizers := finalizers |};
     corev1.Spec := {| corev1.Selector := selector; corev1.Ports := ports |} |}.

(** Scenario A: [svc1] in [ns1], selector [{app: foo}], one port [{TCP, 80}]. *)
Definition svc1 : corev1.Service :=
  serviceIn "ns1" "svc1" ∅ [] None (Some {[ "app" := "foo" ]})
    [servicePort "TCP" (intstr.FromInt 80)].

Definition namespaceObject (name : string) (lbls : gmap string string)
    (deletion : option Z) : metav1.PartialObjectMetadata :=
  {| metav1.Name := name; metav1.Namespace := ""; metav1.Labels := lbls;
     metav1.Annotations := ∅; metav1.DeletionTimestamp := deletion;
     metav1.Finalizers := [] |}.

Definition clusterOf (service : corev1.Service)
    (nss : list metav1.PartialObjectMetadata)
    (nps : list networkingv1.NetworkPolicy) : Cluster :=
  {| services := {[ (serviceNamespace service, serviceName service) := service ]};
     namespaces := list_to_map ((λ n, (metav1.Name n, n)) <$> nss);
     networkPolicies :=
       list_to_map ((λ np, ((metav1.Namespace (networkingv1.ObjectMeta np),
                             metav1.Name (networkingv1.ObjectMeta np)), np)) <$> nps);
     faults := λ _, None;
     journal := [] |}.

Definition clusterA : Cluster := clusterOf svc1 [namespaceObject "ns1" ∅ None] [].

(** A policy that carries the back-reference labels of [svc1]. *)
Definition ownedPolicy (namespace name : string) (types : list networkingv1.PolicyType)
  : networkingv1.NetworkPolicy :=
  {| networkingv1.ObjectMeta :=
       setBackReferences (metav1.newObjectMeta name namespace) svc1;
     networkingv1.Spec :=
       {| networkingv1.SpecPodSelector := metav1.emptyLabelSelector;
          networkingv1.Ingress := []; networkingv1.Egress := [];
          networkingv1.PolicyTypes := types |} |}.

(** [svc1] with a policy left over from a port that is no longer served. *)
Definition clusterStale : Cluster :=
  clusterOf svc1 [namespaceObject "ns1" ∅ None]
    [ownedPolicy "ns1" "ingress-to-svc1-tcp-8080" [networkingv1.PolicyTypeIngress];
     ownedPolicy "ns1" "ingress-to-svc1-tcp-80" [networkingv1.PolicyTypeIngress]].


(** A Service with a numeric and a named target port, and the two
    derivations of it that share a name. *)
Definition svcNamed : corev1.Service :=
  serviceIn "ns1" "svc1" ∅ [] None (Some {[ "app" := "foo" ]})
    [servicePort "TCP" (intstr.FromInt 80);
     servicePort "TCP" (intstr.FromString "80-from-ns2")].

Definition numericFromNs2 : Derivation :=
  {| dProtocol := "TCP"; dPort := intstr.FromInt 80; dCustomPodLabelSelector := "";
     dNamespace := "ns2"; dKind := IngressPolicy |}.

Definition namedInNs1 : Derivation :=
  {| dProtocol := "TCP"; dPort := intstr.FromString "80-from-ns2";
     dCustomPodLabelSelector := ""; dNamespace := "ns1"; dKind := IngressPolicy |}.

Definition numericInNs1 (kind : PolicyKind) : Derivation :=
  {| dProtocol := "TCP"; dPort := intstr.FromInt 80; dCustomPodLabelSelector := "";
     dNamespace := "ns1"; dKind := kind |}.

(** [svc1] while its namespace [ns1] is being deleted. *)
Definition clusterTerminating : Cluster :=
  clusterOf svc1 [namespaceObject "ns1" ∅ (Some 1%Z)] [].

(** A Service that opens itself to every namespace, next to a live and a
    terminating namespace. *)
Definition svcOpen : corev1.Service :=
  serviceIn "ns1" "svc1" {[ NetworkingNamespaceSelectors := "[{}]" ]} [] None
    (Some {[ "app" := "foo" ]}) [servicePort "TCP" (intstr.FromInt 80)].

Definition clusterOpen : Cluster :=
  clusterOf svcOpen
    [namespaceObject "ns1" ∅ None; namespaceObject "ns2" ∅ None;
     namespaceObject "ns3" ∅ (Some 1%Z)] [].

(** [svc1] after its pod selector was removed: the finalizer is still set and
    one derived policy is left, next to a policy of somebody else. *)
Definition svcUnselected : corev1.Service :=
  serviceIn "ns1" "svc1" ∅ [finalizerName] None None
    [servicePort "TCP" (intstr.FromInt 80)].

Definition foreignPolicy : networkingv1.NetworkPolicy :=
  networkingv1.newNetworkPolicy (metav1.newObjectMeta "deny-all" "ns1").

Definition clusterUnselected : Cluster :=
  clusterOf svcUnselected [namespaceObject "ns1" ∅ None]
    [ownedPolicy "ns1" "ingress-to-svc1-tcp-80" [networkingv1.PolicyTypeIngress];
     foreignPolicy].

(** [svc1] with a from-world annotation that is not JSON. *)
Definition svcWorldMalformed : corev1.Service :=
  serviceIn "ns1" "svc1" {[ NetworkingFromWorldToPorts := "{" ]} [] None
    (Some {[ "app" := "foo" ]}) [servicePort "TCP" (intstr.FromInt 80)].

Definition clusterWorldMalformed : Cluster :=
  clusterOf svcWorldMalformed [namespaceObject "ns1" ∅ None] [].

(** Scenario A, the two expected policies. *)
Definition tcp80 : networkingv1.NetworkPolicyPort :=
  {| networkingv1.Protocol := Some "TCP"; networkingv1.Port := Some (intstr.FromInt 80);
     networkingv1.EndPort := None |}.

Definition peerLabel : gmap string string :=
  {[ "networking.resources.gardener.cloud/to-svc1-tcp-80" := "allowed" ]}.

Definition expectedMeta (name description : string) : metav1.ObjectMeta :=
  {| metav1.Name := name; metav1.Namespace := "ns1";
     metav1.Labels := {[ NetworkingServiceName := "svc1";
                         NetworkingServiceNamespace := "ns1" ]};
     metav1.Annotations := {[ GardenerDescription := description ]};
     metav1.DeletionTimestamp := None; metav1.Finalizers := [] |}.

Definition expectedIngress : networkingv1.NetworkPolicy :=
  {| networkingv1.ObjectMeta :=
       expectedMeta "ingress-to-svc1-tcp-80"
         ("Allows ingress TCP traffic to port 80 for pods selected by the ns1/svc1 "
          +:+ "service selector from pods running in namespace ns1 labeled with "
          +:+ "map[networking.resources.gardener.cloud/to-svc1-tcp-80:allowed].");
     networkingv1.Spec :=
       {| networkingv1.SpecPodSelector :=
            {| metav1.MatchLabels := Some {[ "app" := "foo" ]};
               metav1.MatchExpressions := [] |};
          networkingv1.Ingress :=
            [{| networkingv1.From :=
                  [{| networkingv1.PodSelector :=
                        Some {| metav1.MatchLabels := Some peerLabel;
                                metav1.MatchExpressions := [] |};
                      networkingv1.NamespaceSelector := None;
                      networkingv1.PeerIPBlock := None |}];
                networkingv1.IngressPorts := [tcp80] |}];
          networkingv1.Egress := [];
          networkingv1.PolicyTypes := [networkingv1.PolicyTypeIngress] |} |}.

Definition expectedEgress : networkingv1.NetworkPolicy :=
  {| networkingv1.ObjectMeta :=
       expectedMeta "egress-to-svc1-tcp-80"
         ("Allows egress TCP traffic to port 80 from pods running in namespace ns1 "
          +:+ "labeled with map[networking.resources.gardener.cloud/to-svc1-tcp-80:allowed] "
          +:+ "to pods selected by the ns1/svc1 service selector.");
     networkingv1.Spec :=
       {| networkingv1.SpecPodSelector :=
            {| metav1.MatchLabels := Some peerLabel; metav1.MatchExpressions := [] |};
          networkingv1.Ingress := [];
          networkingv1.Egress :=
            [{| networkingv1.To :=
                  [{| networkingv1.PodSelector :=
                        Some {| metav1.MatchLabels := Some {[ "app" := "foo" ]};
                                metav1.MatchExpressions := [] |};
                      networkingv1.NamespaceSelector := None;
                      networkingv1.PeerIPBlock := None |}];
                networkingv1.EgressPorts := [tcp80] |}];
          networkingv1.PolicyTypes := [networkingv1.PolicyTypeEgress] |} |}.

End Fixtures.

(* ===================================================================== *)
(** ** Vocabulary of the statements *)
(* ===================================================================== *)

(** The object a task works on. *)
Definition taskTarget (t : TaskFn) : string * string :=
  match t with
  | reconcileIngressPolicyTask _ _ objectMeta _ _
  | reconcileEgressPolicyTask _ _ objectMeta _ _
  | reconcileIngressFromWorldPolicyTask _ objectMeta
  | deleteObjectTask objectMeta => (metav1.Namespace objectMeta, metav1.Name objectMeta)
  end.

(** The identity key of the object a task works on. *)
Definition taskKey (t : TaskFn) : string :=
  match t with
  | reconcileIngressPolicyTask _ _ objectMeta _ _
  | reconcileEgressPolicyTask _ _ objectMeta _ _
  | reconcileIngressFromWorldPolicyTask _ objectMeta
  | deleteObjectTask objectMeta => key objectMeta
  end.

Definition isDeleteTask (t : TaskFn) : bool :=
  match t with deleteObjectTask _ => true | _ => false end.

Definition isUpsertTask (t : TaskFn) : bool := negb (isDeleteTask t).

Definition isUpsertRequest (req : Request) : bool :=
  match req with UpsertNetworkPolicy _ _ => true | _ => false end.

Definition isDeleteRequest (req : Request) : bool :=
  match req with DeleteNetworkPolicy _ _ => true | _ => false end.

(** The barrier of the design document, read on a journal: no delete request
    is served before an upsert request. *)
Definition upsertsBeforeDeletes (requests : list Request) : Prop :=
  ∀ i j d u, requests !! i = Some d → requests !! j = Some u →
    isDeleteRequest d = true → isUpsertRequest u = true → (j < i)%nat.

(** Two clusters with the same objects and the same faults; the journals may
    differ. *)
Definition sameObjects (c c' : Cluster) : Prop :=
  services c' = services c ∧ namespaces c' = namespaces c
  ∧ networkPolicies c' = networkPolicies c ∧ faults c' = faults c.

(** The same, up to the Services. *)
Definition samePolicies (c c' : Cluster) : Prop :=
  namespaces c' = namespaces c
  ∧ networkPolicies c' = networkPolicies c ∧ faults c' = faults c.

(** The request a task sends to the store. *)
Definition taskRequest (t : TaskFn) : Request :=
  match t with
  | deleteObjectTask objectMeta =>
      DeleteNetworkPolicy (metav1.Namespace objectMeta) (metav1.Name objectMeta)
  | _ => UpsertNetworkPolicy (taskTarget t).1 (taskTarget t).2
  end.

(** What serving one task does to a cluster: nothing at all (an upsert that
    failed before it sent its request), or one journalled request that the
    store failed, that wrote the target object, or that deleted it.  A failed
    delete counts as a success when the failure is a not-found. *)
Inductive taskStep (t : TaskFn) (c : Cluster) : result unit → Cluster → Prop :=
| stepNoRequest e :
    isUpsertTask t = true →
    taskStep t c (Err e) c
| stepFailed e r :
    faults c (taskRequest t) = Some e →
    r = Err e ∨ (r = Ok tt ∧ isDeleteTask t = true) →
    taskStep t c r (record c (taskRequest t))
| stepWritten v :
    isUpsertTask t = true →
    faults c (taskRequest t) = None →
    taskStep t c (Ok tt)
      (setNetworkPolicies (record c (taskRequest t))
         (<[taskTarget t := v]> (networkPolicies c)))
| stepDeleted :
    isDeleteTask t = true →
    faults c (taskRequest t) = None →
    taskStep t c (Ok tt)
      (setNetworkPolicies (record c (taskRequest t))
         (delete (taskTarget t) (networkPolicies c))).

(** The two tasks that [addTasksForRelevantNamespacesAndPort] appends for one
    namespace. *)
Definition policyTasks (service : corev1.Service) (port : networkingv1.NetworkPolicyPort)
    (policyID podLabelSelector namespaceName : string) : list TaskFn :=
  let matchLabels := matchLabelsForServiceAndNamespace podLabelSelector service namespaceName in
  [reconcileIngressPolicyTask service port
     (ingressPolicyObjectMetaFor policyID (serviceNamespace service) namespaceName)
     namespaceName matchLabels;
   reconcileEgressPolicyTask service port
     (egressPolicyObjectMetaFor policyID (serviceNamespace service) namespaceName)
     namespaceName matchLabels].

(** The tasks appended for a port of the Service itself. *)
Definition portTasks (service : corev1.Service) (p : corev1.ServicePort)
    (namespaceName : string) : list TaskFn :=
  let policyID :=
    serviceName service +:+ "-" +:+ ToLower (corev1.Protocol p) +:+ "-"
      +:+ intstr.String (Some (corev1.TargetPort p)) in
  policyTasks service (policyPortOf p) policyID policyID namespaceName.

Definition fromWorldTask (service : corev1.Service) : TaskFn :=
  reconcileIngressFromWorldPolicyTask service (fromWorldObjectMeta service).

(** What the tasks and keys of a reconciliation always satisfy: the keys are
    the keys of the tasks, in the same order, and the tasks are upserts. *)
Definition aligned (acc : list TaskFn * list string) : Prop :=
  acc.2 = taskKey <$> acc.1 ∧ Forall (λ t, isUpsertTask t = true) acc.1.


(** The three ways in which a well-known annotation can be malformed. *)
Definition malformedNamespaceSelectors `{External} (service : corev1.Service) : Prop :=
  ∃ v, annotation service NetworkingNamespaceSelectors = Some v
    ∧ (isErr (unmarshalLabelSelectors v) = true
       ∨ ∃ namespaceSelectors sel,
           unmarshalLabelSelectors v = Ok namespaceSelectors
           ∧ sel ∈ namespaceSelectors
           ∧ isErr (LabelSelectorAsSelector sel) = true).

Definition malformedAllowedPorts `{External} (service : corev1.Service) : Prop :=
  annotationValue service NetworkingFromPolicyPodLabelSelector ≠ ""
  ∧ annotationValue service NetworkingFromPolicyAllowedPorts ≠ ""
  ∧ isErr (unmarshalPorts (annotationValue service NetworkingFromPolicyAllowedPorts)) = true.

Definition malformedFromWorld `{External} (service : corev1.Service) : Prop :=
  ∃ v, annotation service NetworkingFromWorldToPorts = Some v
    ∧ isErr (unmarshalPorts v) = true.

(* ===================================================================== *)
(** ** The progressing check of ManagedResources *)
(* ===================================================================== *)

Module progressing.

(** [gardencorev1beta1.Condition]; the status is one of the strings below. *)
Record Condition : Type := {
  ConditionType : string;
  Status : string;
  Reason : string;
  Message : string;
  LastTransitionTime : Z;
  LastUpdateTime : Z;
}.

(** Modelled from the spec: the condition statuses and types, declared in
    packages that are not among the sources; the design document names the
    conditions [Applied] and [Progressing] and the statuses [True], [False],
    [Progressing] and [Unknown]. *)
Definition ConditionTrue : string := "True".
Definition ConditionFalse : string := "False".
Definition ConditionProgressing : string := "Progressing".
Definition ConditionUnknown : string := "Unknown".
Definition ResourcesApplied : string := "ResourcesApplied".
Definition ResourcesProgressing : string := "ResourcesProgressing".
Definition SkipHealthCheck : string := "resources.gardener.cloud/skip-health-check".
(** [appsv1.GroupName] *)
Definition appsGroupName : string := "apps".

(** [resourcesv1alpha1.ObjectReference] *)
Record ObjectReference : Type := {
  APIVersion : string;
  Kind : string;
  Namespace : string;
  Name : string;
}.

Record ManagedResourceStatus : Type := {
  Conditions : list Condition;
  Resources : list ObjectReference;
}.

Record ManagedResource : Type := {
  ObjectMeta : metav1.ObjectMeta;
  Class : option string;
  ResourceStatus : ManagedResourceStatus;
}.

Definition withConditions (mr : ManagedResource) (conditions : list Condition)
  : ManagedResource :=
  {| ObjectMeta := ObjectMeta mr; Class := Class mr;
     ResourceStatus :=
       {| Conditions := conditions; Resources := Resources (ResourceStatus mr) |} |}.

(** A Deployment, StatefulSet or DaemonSet of the target cluster: its
    metadata, and the numbers of its spec and status that the health package
    reads. *)
Record Workload : Type := {
  WorkloadMeta : metav1.ObjectMeta;
  Rollout : list Z;
}.

(** The functions of this repository and of its libraries that the check
    calls and that are not among the sources.  The check is written against
    their signatures. *)
Class Helpers : Type := {
  (** [utils.IsIgnored] *)
  IsIgnored : ManagedResource → bool;
  (** [ClassFilter.Active]: the action flag and the responsibility. *)
  Active : ManagedResource → bool * bool;
  (** [v1beta1helper.GetCondition] *)
  GetCondition : list Condition → string → option Condition;
  (** [v1beta1helper.GetOrInitConditionWithClock] *)
  GetOrInitConditionWithClock : Z → list Condition → string → Condition;
  (** [v1beta1helper.UpdatedConditionWithClock] *)
  UpdatedConditionWithClock : Z → Condition → string → string → string → Condition;
  (** [v1beta1helper.MergeConditions] *)
  MergeConditions : list Condition → Condition → list Condition;
  (** [v1beta1helper.NewConditionBuilder] with the chain
      [WithOldCondition], [WithStatus], [WithReason], [WithMessage], [Build]. *)
  buildCondition : string → Condition → string → string → string → result (Condition * bool);
  (** The group of [ref.GroupVersionKind()]. *)
  groupOf : ObjectReference → string;
  (** [health.IsDeploymentProgressing] and its siblings. *)
  IsDeploymentProgressing : Workload → bool * string;
  IsStatefulSetProgressing : Workload → bool * string;
  IsDaemonSetProgressing : Workload → bool * string;
}.

(** The requests of the check: to the source cluster for the ManagedResource
    and its status, to the target cluster for the workloads. *)
Inductive Request : Type :=
| GetManagedResource (namespace name : string)
| UpdateStatus (namespace name : string)
| GetWorkload (kind namespace name : string).

(** The two object stores, with the faults and the journal as for the
    NetworkPolicy controller. *)
Record World : Type := {
  managedResources : gmap (string * string) ManagedResource;
  workloads : gmap (string * string * string) Workload;
  faults : Request → option error;
  journal : list Request;
}.

Definition record (w : World) (req : Request) : World :=
  {| managedResources := managedResources w; workloads := workloads w;
     faults := faults w; journal := journal w ++ [req] |}.

Definition setManagedResources (w : World) (mrs : gmap (string * string) ManagedResource)
  : World :=
  {| managedResources := mrs; workloads := workloads w;
     faults := faults w; journal := journal w |}.

(** [SourceClient.Get] *)
Definition Get_ManagedResource (namespace name : string) (w : World)
  : result ManagedResource * World :=
  let w' := record w (GetManagedResource namespace name) in
  match faults w (GetManagedResource namespace name) with
  | Some e => (Err e, w')
  | None =>
      match managedResources w !! (namespace, name) with
      | Some mr => (Ok mr, w')
      | None => (Err ErrNotFound, w')
      end
  end.

(** [TargetClient.Get] into an object of the given kind. *)
Definition Get_Workload (kind namespace name : string) (w : World)
  : result Workload * World :=
  let w' := record w (GetWorkload kind namespace name) in
  match faults w (GetWorkload kind namespace name) with
  | Some e => (Err e, w')
  | None =>
      match workloads w !! (kind, namespace, name) with
      | Some obj => (Ok obj, w')
      | None => (Err ErrNotFound, w')
      end
  end.

(** [SourceClient.Status().Update]: the status of the stored object is
    replaced. *)
Definition Status_Update (mr : ManagedResource) (w : World) : result unit * World :=
  let namespace := metav1.Namespace (ObjectMeta mr) in
  let name := metav1.Name (ObjectMeta mr) in
  let w' := record w (UpdateStatus namespace name) in
  match faults w (UpdateStatus namespace name) with
  | Some e => (Err e, w')
  | None =>
      match managedResources w !! (namespace, name) with
      | Some stored =>
          (Ok tt, setManagedResources w'
                    (<[(namespace, name) :=
                         {| ObjectMeta := ObjectMeta stored; Class := Class stored;
                            ResourceStatus := ResourceStatus mr |}]>
                       (managedResources w)))
      | None => (Err ErrNotFound, w')
      end
  end.

(** [Reconciler]: the sync period of the configuration and the reading of the
    clock. *)
Record Reconciler : Type := { SyncPeriod : Z; Now : Z }.

Section Check.
Context `{Helpers}.

(** [checkProgressing]; the kind stands for the dynamic type of the object. *)
Definition checkProgressing (kind : string) (obj : Workload) : bool * string :=
  if decide (metav1.Annotations (WorkloadMeta obj) !! SkipHealthCheck = Some "true")
  then (false, "")
  else if decide (kind = "Deployment") then IsDeploymentProgressing obj
  else if decide (kind = "StatefulSet") then IsStatefulSetProgressing obj
  else if decide (kind = "DaemonSet") then IsDaemonSetProgressing obj
  else (false, "").

Definition requeue (r : Reconciler) : reconcile.Result :=
  {| reconcile.Requeue := false; reconcile.RequeueAfter := SyncPeriod r |}.

(** What one round of the loop over [mr.Status.Resources] decides. *)
Inductive Round : Type :=
| Continue
| Return (res : result reconcile.Result).

(** The body of the loop of [reconcile] for one object reference. *)
Definition checkReference (r : Reconciler) (mr : ManagedResource)
    (conditionResourcesProgressing : Condition) (ref : ObjectReference) (w : World)
  : Round * World :=
  if decide (groupOf ref ≠ appsGroupName) then (Continue, w)
  else if decide (Kind ref = "Deployment" ∨ Kind ref = "StatefulSet" ∨ Kind ref = "DaemonSet")
  then
    match Get_Workload (Kind ref) (Namespace ref) (Name ref) w with
    | (Err err, w1) =>
        if IsNotFound err then (Continue, w1) else (Return (Err err), w1)
    | (Ok obj, w1) =>
        let '(isProgressing, description) := checkProgressing (Kind ref) obj in
        if isProgressing then
          let reason := Kind ref +:+ "Progressing" in
          let message :=
            Kind ref +:+ " " +:+ quoted (Namespace ref +:+ "/" +:+ Name ref)
              +:+ " is progressing: " +:+ description in
          let condition :=
            UpdatedConditionWithClock (Now r) conditionResourcesProgressing
              ConditionTrue reason message in
          let mr' := withConditions mr (MergeConditions (Conditions (ResourceStatus mr)) condition) in
          match Status_Update mr' w1 with
          | (Err err, w2) =>
              (Return (Err (ErrWrap "could not update the ManagedResource status" err)), w2)
          | (Ok _, w2) => (Return (Ok (requeue r)), w2)
          end
        else (Continue, w1)
    end
  else (Continue, w).

Fixpoint checkReferences (r : Reconciler) (mr : ManagedResource)
    (conditionResourcesProgressing : Condition) (refs : list ObjectReference) (w : World)
  : Round * World :=
  match refs with
  | [] => (Continue, w)
  | ref :: rest =>
      match checkReference r mr conditionResourcesProgressing ref w with
      | (Continue, w1) => checkReferences r mr conditionResourcesProgressing rest w1
      | (Return res, w1) => (Return res, w1)
      end
  end.

(** [Reconciler.reconcile] *)
Definition reconcileChecks (r : Reconciler) (mr : ManagedResource) (w : World)
  : result reconcile.Result * World :=
  let conditionResourcesProgressing :=
    GetOrInitConditionWithClock (Now r) (Conditions (ResourceStatus mr)) ResourcesProgressing in
  match checkReferences r mr conditionResourcesProgressing (Resources (ResourceStatus mr)) w with
  | (Return res, w1) => (res, w1)
  | (Continue, w1) =>
      match buildCondition ResourcesProgressing conditionResourcesProgressing
              ConditionFalse "ResourcesRolledOut" "All resources have been fully rolled out."
      with
      | Err err => (Err err, w1)
      | Ok (condition, needsUpdate) =>
          if needsUpdate then
            let mr' := withConditions mr (MergeConditions (Conditions (ResourceStatus mr)) condition) in
            match Status_Update mr' w1 with
            | (Err err, w2) =>
                (Err (ErrWrap "could not update the ManagedResource status" err), w2)
            | (Ok _, w2) => (Ok (requeue r), w2)
            end
          else (Ok (requeue r), w1)
      end
  end.

(** [mr.DeletionTimestamp.IsZero()]: nil, or the zero instant. *)
Definition IsZero (t : option Z) : bool :=
  match t with
  | None => true
  | Some instant => bool_decide (instant = 0%Z)
  end.

(** The guard of [Reconcile], lines 86-87: the Applied condition is missing,
    [Progressing] or [False]. *)
Definition appliedPending (mr : ManagedResource) : bool :=
  match GetCondition (Conditions (ResourceStatus mr)) ResourcesApplied with
  | None => true
  | Some conditionResourcesApplied =>
      bool_decide (Status conditionResourcesApplied = ConditionProgressing)
      || bool_decide (Status conditionResourcesApplied = ConditionFalse)
  end.

(** [Reconciler.Reconcile] *)
Definition Reconcile (r : Reconciler) (req : string * string) (w : World)
  : result reconcile.Result * World :=
  match Get_ManagedResource req.1 req.2 w with
  | (Err err, w1) =>
      if IsNotFound err then (Ok reconcile.empty, w1)
      else (Err (ErrWrap "error retrieving object from store" err), w1)
  | (Ok mr, w1) =>
      if IsIgnored mr then (Ok reconcile.empty, w1)
      else if negb (Active mr).2 then (Ok reconcile.empty, w1)
      else if negb (IsZero (metav1.DeletionTimestamp (ObjectMeta mr)))
      then (Ok reconcile.empty, w1)
      else if appliedPending mr then (Ok (requeue r), w1)
      else reconcileChecks r mr w1
  end.

End Check.

End progressing.

Module ProgressingFixtures.

(** Plain instances of the helpers: the first condition of the type; a
    ManagedResource is ignored when it carries the ignore annotation; every
    class is served; no workload is rolling out. *)
Definition helpers : progressing.Helpers := {|
  progressing.IsIgnored := λ mr,
    bool_decide (metav1.Annotations (progressing.ObjectMeta mr) !! "resources.gardener.cloud/ignore"
                 = Some "true");
  progressing.Active := λ _, (true, true);
  progressing.GetCondition := λ conditions conditionType,
    list_find (λ c, progressing.ConditionType c = conditionType) conditions ≫= λ ic, Some ic.2;
  progressing.GetOrInitConditionWithClock := λ now conditions conditionType,
    default {| progressing.ConditionType := conditionType;
               progressing.Status := progressing.ConditionUnknown;
               progressing.Reason := ""; progressing.Message := "";
               progressing.LastTransitionTime := now; progressing.LastUpdateTime := now |}
      (list_find (λ c, progressing.ConditionType c = conditionType) conditions ≫= λ ic, Some ic.2);
  progressing.UpdatedConditionWithClock := λ now c status reason message,
    {| progressing.ConditionType := progressing.ConditionType c; progressing.Status := status;
       progressing.Reason := reason; progressing.Message := message;
       progressing.LastTransitionTime := now; progressing.LastUpdateTime := now |};
  progressing.MergeConditions := λ conditions c,
    filter (λ c', progressing.ConditionType c' ≠ progressing.ConditionType c) conditions ++ [c];
  progressing.buildCondition := λ conditionType old status reason message,
    Ok ({| progressing.ConditionType := conditionType; progressing.Status := status;
           progressing.Reason := reason; progressing.Message := message;
           progressing.LastTransitionTime := progressing.LastTransitionTime old;
           progressing.LastUpdateTime := progressing.LastUpdateTime old |},
        negb (bool_decide (progressing.Status old = status)));
  progressing.groupOf := λ ref,
    if decide (progressing.APIVersion ref = "apps/v1") then "apps" else "";
  progressing.IsDeploymentProgressing := λ _, (false, "");
  progressing.IsStatefulSetProgressing := λ _, (false, "");
  progressing.IsDaemonSetProgressing := λ _, (false, "");
|}.

Definition condition (conditionType status : string) : progressing.Condition :=
  {| progressing.ConditionType := conditionType; progressing.Status := status;
     progressing.Reason := ""; progressing.Message := "";
     progressing.LastTransitionTime := 1; progressing.LastUpdateTime := 1 |}.

Definition managedResource (annotations : gmap string string)
    (conditions : list progressing.Condition) : progressing.ManagedResource :=
  {| progressing.ObjectMeta :=
       {| metav1.Name := "mr"; metav1.Namespace := "garden"; metav1.Labels := ∅;
          metav1.Annotations := annotations; metav1.DeletionTimestamp := None;
          metav1.Finalizers := [] |};
     progressing.Class := None;
     progressing.ResourceStatus :=
       {| progressing.Conditions := conditions; progressing.Resources := [] |} |}.

Definition worldOf (mr : progressing.ManagedResource) : progressing.World :=
  {| progressing.managedResources := {[ ("garden", "mr") := mr ]};
     progressing.workloads := ∅;
     progressing.faults := λ _, None;
     progressing.journal := [] |}.

(** An ignored ManagedResource whose apply has failed. *)
Definition ignoredFailed : progressing.ManagedResource :=
  managedResource {[ "resources.gardener.cloud/ignore" := "true" ]}
    [condition progressing.ResourcesApplied progressing.ConditionFalse].

(** A ManagedResource whose apply is in flight. *)
Definition applying : progressing.ManagedResource :=
  managedResource ∅ [condition progressing.ResourcesApplied progressing.ConditionProgressing].

Definition everyMinute : progressing.Reconciler :=
  {| progressing.SyncPeriod := 60; progressing.Now := 5 |}.

End ProgressingFixtures.

(* ===================================================================== *)
(** ** The wiring of the NetworkPolicy controller: [add.go] *)
(* ===================================================================== *)

#[global] Instance IntOrString_eq_dec : EqDecision intstr.IntOrString.
Proof. solve_decision. Defined.

#[global] Instance ServicePort_eq_dec : EqDecision corev1.ServicePort.
Proof. solve_decision. Defined.

Section Manager.
Context `{External}.

(** [fmt]'s rendering of a label selector under the verb [%s]: library code. *)
Variable sprintSelector : metav1.LabelSelector → string.

(** [AddToManager], lines 51-59: every configured namespace selector is
    compiled and appended to [r.selectors]; the first selector that does not
    compile ends the set-up with an error.  The rest of [AddToManager] hands
    the reconciler to the controller-runtime builder. *)
Fixpoint compileSelectors (namespaceSelectors : list metav1.LabelSelector) (r : Reconciler)
  : result Reconciler :=
  match namespaceSelectors with
  | [] => Ok r
  | namespaceSelector :: rest =>
      selector ← wrapResult
                   ("failed parsing namespace selector " +:+ sprintSelector namespaceSelector
                      +:+ " to labels.Selector")
                   (LabelSelectorAsSelector namespaceSelector);
      compileSelectors rest {| selectors := selectors r ++ [selector] |}
  end.

End Manager.

(** [apiequality.Semantic.DeepEqual] on two selector maps: a nil map and an
    empty map are equal. *)
Definition semanticDeepEqualSelector (a b : option (gmap string string)) : bool :=
  bool_decide (default ∅ a = default ∅ b).

(** [apiequality.Semantic.DeepEqual] on two port lists, on the fields of
    [corev1.ServicePort] that the reconciler reads; a nil and an empty slice
    are the same list. *)
Definition semanticDeepEqualPorts (a b : list corev1.ServicePort) : bool :=
  bool_decide (a = b).

Module event.
(** A [client.Object] as an event carries it: a Service, or an object of
    another type (the type assertion fails). *)
Inductive Object : Type :=
| ServiceObject (service : corev1.Service)
| OtherObject.

Record UpdateEvent : Type := { ObjectOld : Object; ObjectNew : Object }.
End event.

(** The annotations whose values [ServicePredicate] compares. *)
Definition watchedAnnotations : list string :=
  [NetworkingPodLabelSelectorNamespaceAlias; NetworkingNamespaceSelectors;
   NetworkingFromWorldToPorts; NetworkingFromPolicyPodLabelSelector;
   NetworkingFromPolicyAllowedPorts].

(** [ServicePredicate]: the [UpdateFunc] of the returned [predicate.Funcs];
    the other three functions are not set, so create, delete and generic
    events are not filtered. *)
Definition ServicePredicate (e : event.UpdateEvent) : bool :=
  match event.ObjectNew e with
  | event.OtherObject => false
  | event.ServiceObject service =>
      match event.ObjectOld e with
      | event.OtherObject => false
      | event.ServiceObject oldService =>
          (bool_decide (metav1.DeletionTimestamp (corev1.ObjectMeta oldService) = None)
           && bool_decide (metav1.DeletionTimestamp (corev1.ObjectMeta service) ≠ None))
          || negb (semanticDeepEqualSelector (corev1.Selector (corev1.Spec service))
                     (corev1.Selector (corev1.Spec oldService)))
          || negb (semanticDeepEqualPorts (corev1.Ports (corev1.Spec service))
                     (corev1.Ports (corev1.Spec oldService)))
          || bool_decide (annotationValue oldService NetworkingPodLabelSelectorNamespaceAlias
                          ≠ annotationValue service NetworkingPodLabelSelectorNamespaceAlias)
          || bool_decide (annotationValue oldService NetworkingNamespaceSelectors
                          ≠ annotationValue service NetworkingNamespaceSelectors)
          || bool_decide (annotationValue oldService NetworkingFromWorldToPorts
                          ≠ annotationValue service NetworkingFromWorldToPorts)
          || bool_decide (annotationValue oldService NetworkingFromPolicyPodLabelSelector
                          ≠ annotationValue service NetworkingFromPolicyPodLabelSelector)
          || bool_decide (annotationValue oldService NetworkingFromPolicyAllowedPorts
                          ≠ annotationValue service NetworkingFromPolicyAllowedPorts)
      end
  end.

(** [TargetClient.List] of the Services, reduced to their metadata. *)
Definition List_Services : M (list metav1.PartialObjectMetadata) :=
  call ListServices;;
  (λ c, (Ok (corev1.ObjectMeta <$> (map_to_list (services c)).*2), c))
  : M (list metav1.PartialObjectMetadata).

(** [MapToAllServices]: one request per listed Service; a failing list is
    logged and yields no request. *)
Definition MapToAllServices (c : Cluster) : list (string * string) * Cluster :=
  match List_Services c with
  | (Err _, c') => ([], c')
  | (Ok serviceList, c') =>
      (foldl (λ requests service,
                requests ++ [(metav1.Namespace service, metav1.Name service)])
             [] serviceList, c')
  end.

(** Every stored Service sits under its own namespace and name. *)
Definition servicesWellKeyed (c : Cluster) : Prop :=
  ∀ k service, services c !! k = Some service →
    k = (serviceNamespace service, serviceName service).

(* ===================================================================== *)
(** ** More vocabulary *)
(* ===================================================================== *)

(** The Service an upsert task was built for. *)
Definition taskService (t : TaskFn) : option corev1.Service :=
  match t with
  | reconcileIngressPolicyTask service _ _ _ _
  | reconcileEgressPolicyTask service _ _ _ _
  | reconcileIngressFromWorldPolicyTask service _ => Some service
  | deleteObjectTask _ => None
  end.

(** The tasks that [addTasksForRelevantNamespacesAndPort] appends for one
    port: none when the call panics. *)
Definition tasksForPort (service : corev1.Service) (namespaceNames : gset string)
    (customPodLabelSelector : string) (port : networkingv1.NetworkPolicyPort) : list TaskFn :=
  match policyIDFor (serviceName service) port with
  | None => []
  | Some policyID0 =>
      elements namespaceNames ≫=
        policyTasks service port
          (if decide (customPodLabelSelector ≠ "")
           then policyID0 +:+ "-via-" +:+ customPodLabelSelector else policyID0)
          (if decide (customPodLabelSelector ≠ "") then customPodLabelSelector else policyID0)
  end.

(** The ports of the [from-policy-allowed-ports] annotation that take part
    in a reconciliation: none unless both annotations of the custom pod
    label selector are set. *)
Definition allowedPorts `{External} (service : corev1.Service)
  : result (list networkingv1.NetworkPolicyPort) :=
  if decide (annotationValue service NetworkingFromPolicyPodLabelSelector ≠ ""
             ∧ annotationValue service NetworkingFromPolicyAllowedPorts ≠ "")
  then unmarshalPorts (annotationValue service NetworkingFromPolicyAllowedPorts)
  else Ok [].

(** A Service with one more annotation. *)
Definition withAnnotation (service : corev1.Service) (k v : string) : corev1.Service :=
  corev1.withObjectMeta service
    (metav1.SetMetaDataAnnotation (corev1.ObjectMeta service) k v).

(** The Service is reconciled as an active one: not being deleted, with a
    pod selector. *)
Definition activeService (service : corev1.Service) : Prop :=
  metav1.DeletionTimestamp (corev1.ObjectMeta service) = None
  ∧ corev1.Selector (corev1.Spec service) ≠ None.

(** The stored policy carries the back-reference labels of the Service. *)
Definition ownedBy (service : corev1.Service) (np : networkingv1.NetworkPolicy) : Prop :=
  matchingLabels (backReferenceLabels service) (networkingv1.ObjectMeta np) = true.

(** The object metadata a task was built with. *)
Definition taskObjectMeta (t : TaskFn) : metav1.ObjectMeta :=
  match t with
  | reconcileIngressPolicyTask _ _ objectMeta _ _
  | reconcileEgressPolicyTask _ _ objectMeta _ _
  | reconcileIngressFromWorldPolicyTask _ objectMeta
  | deleteObjectTask objectMeta => objectMeta
  end.

(** What the three upserts do to the metadata of a policy: the two
    back-reference labels and the description are set. *)
Definition stamp (service : corev1.Service) (description : string) (meta : metav1.ObjectMeta)
  : metav1.ObjectMeta :=
  metav1.SetMetaDataAnnotation (setBackReferences meta service) GardenerDescription description.

(** The object an upsert starts from: the stored one, or a new one. *)
Definition startingPoint (t : TaskFn) (c : Cluster) : networkingv1.NetworkPolicy :=
  default (networkingv1.newNetworkPolicy (taskObjectMeta t))
    (networkPolicies c !! taskTarget t).

(** Whether every port of a list names its protocol. *)
Definition haveProtocols (ports : list networkingv1.NetworkPolicyPort) : bool :=
  forallb (λ port, bool_decide (networkingv1.Protocol port ≠ None)) ports.

(** The tasks of a reconciliation, in the order in which
    [reconcileDesiredPolicies] appends them: for the ports of the Service,
    for the allowed ports of the custom pod label selector, for the world. *)
Definition desiredTasks (service : corev1.Service) (namespaceNames : gset string)
    (ports : list networkingv1.NetworkPolicyPort) : list TaskFn :=
  ((policyPortOf <$> corev1.Ports (corev1.Spec service))
     ≫= tasksForPort service namespaceNames "")
  ++ (ports ≫= tasksForPort service namespaceNames
                 (annotationValue service NetworkingFromPolicyPodLabelSelector))
  ++ (if annotation service NetworkingFromWorldToPorts is Some _
      then [fromWorldTask service] else []).

Module MoreFixtures.

(** [svc1] with a custom pod label selector whose allowed ports are the JSON
    text [[{}]]: one port without protocol and without number. *)
Definition svcAllowedBare : corev1.Service :=
  Fixtures.serviceIn "ns1" "svc1"
    {[ NetworkingFromPolicyPodLabelSelector := "scrape";
       NetworkingFromPolicyAllowedPorts := "[{}]" ]} [] None
    (Some {[ "app" := "foo" ]}) [Fixtures.servicePort "TCP" (intstr.FromInt 80)].

(** [svc1] with a from-world annotation that opens no port. *)
Definition svcWorld : corev1.Service :=
  Fixtures.serviceIn "ns1" "svc1" {[ NetworkingFromWorldToPorts := "[]" ]} [] None
    (Some {[ "app" := "foo" ]}) [Fixtures.servicePort "TCP" (intstr.FromInt 80)].

End MoreFixtures.

Module FaultFixtures.

Definition withFaults (c : Cluster) (f : Request → option error) : Cluster :=
  {| services := services c; namespaces := namespaces c;
     networkPolicies := networkPolicies c; faults := f; journal := journal c |}.

(** The store of Scenario A when it refuses every patch of finalizers. *)
Definition clusterNoPatch : Cluster :=
  withFaults Fixtures.clusterA
    (λ req, match req with
            | PatchFinalizers _ _ => Some (ErrStore "forbidden")
            | _ => None
            end).

(** The store of the unselected Service when it refuses every delete of a
    NetworkPolicy. *)
Definition clusterNoDelete : Cluster :=
  withFaults Fixtures.clusterUnselected
    (λ req, match req with
            | DeleteNetworkPolicy _ _ => Some (ErrStore "forbidden")
            | _ => None
            end).

(** The store of the unselected Service when the fetch of a namespace times
    out. *)
Definition clusterNamespaceTimeout : Cluster :=
  withFaults Fixtures.clusterUnselected
    (λ req, match req with
            | GetNamespace _ => Some (ErrStore "timeout")
            | _ => None
            end).

(** The store of the unselected Service when the object of its namespace is
    gone; no request fails for a reason of the store's own. *)
Definition clusterNamespaceGone : Cluster :=
  Fixtures.clusterOf Fixtures.svcUnselected []
    [Fixtures.ownedPolicy "ns1" "ingress-to-svc1-tcp-80" [networkingv1.PolicyTypeIngress];
     Fixtures.foreignPolicy].

End FaultFixtures.

Module WiringFixtures.

(** A configuration with one namespace selector, [team = a]. *)
Definition teamA : list metav1.LabelSelector :=
  [{| metav1.MatchLabels := Some {[ "team" := "a" ]}; metav1.MatchExpressions := [] |}].

(** [fmt]'s rendering is of no interest when the selectors compile. *)
Definition sprintSelector : metav1.LabelSelector → string := λ _, "".

(** The reconciler after [AddToManager] compiled [teamA]. *)
Definition teamAReconciler : Reconciler :=
  match compileSelectors (H := Fixtures.ext) sprintSelector teamA {| selectors := [] |} with
  | Ok r => r
  | Err _ => {| selectors := [] |}
  end.

(** [svc1] after somebody annotated it with a note of their own. *)
Definition svc1Noted : corev1.Service := withAnnotation Fixtures.svc1 "example.org/note" "x".

End WiringFixtures.

(* ===================================================================== *)
(** ** Vocabulary of the progressing check *)
(* ===================================================================== *)

Section ProgressingVocabulary.
Context `{progressing.Helpers}.

(** The references the check looks at: of group [apps] and of one of the
    three kinds. *)
Definition considered (ref : progressing.ObjectReference) : Prop :=
  progressing.groupOf ref = progressing.appsGroupName
  ∧ (progressing.Kind ref = "Deployment" ∨ progressing.Kind ref = "StatefulSet"
     ∨ progressing.Kind ref = "DaemonSet").

#[global] Instance considered_dec ref : Decision (considered ref).
Proof. unfold considered. apply _. Defined.

(** The fetch of the workload behind a reference. *)
Definition workloadRequest (ref : progressing.ObjectReference) : progressing.Request :=
  progressing.GetWorkload (progressing.Kind ref) (progressing.Namespace ref)
    (progressing.Name ref).

(** A reference that does not hold the check up: it is not considered, or
    its workload is gone, or its workload is not progressing (which includes
    a workload that opted out of the health checks). *)
Definition settled (w : progressing.World) (ref : progressing.ObjectReference) : Prop :=
  ¬ considered ref
  ∨ match progressing.faults w (workloadRequest ref) with
    | Some e => IsNotFound e = true
    | None =>
        match progressing.workloads w
                !! (progressing.Kind ref, progressing.Namespace ref, progressing.Name ref) with
        | None => True
        | Some obj => (progressing.checkProgressing (progressing.Kind ref) obj).1 = false
        end
    end.

(** The fetches that a list of references costs. *)
Definition fetches (refs : list progressing.ObjectReference) : list progressing.Request :=
  omap (λ ref, if decide (considered ref) then Some (workloadRequest ref) else None) refs.

End ProgressingVocabulary.

(** A world after more requests were journalled. *)
Definition recordAll (w : progressing.World) (reqs : list progressing.Request)
  : progressing.World :=
  {| progressing.managedResources := progressing.managedResources w;
     progressing.workloads := progressing.workloads w;
     progressing.faults := progressing.faults w;
     progressing.journal := progressing.journal w ++ reqs |}.

(** The key of a ManagedResource in the store. *)
Definition managedResourceKey (mr : progressing.ManagedResource) : string * string :=
  (metav1.Namespace (progressing.ObjectMeta mr), metav1.Name (progressing.ObjectMeta mr)).

(** The update of the status of a ManagedResource. *)
Definition statusUpdate (mr : progressing.ManagedResource) : progressing.Request :=
  progressing.UpdateStatus (metav1.Namespace (progressing.ObjectMeta mr))
    (metav1.Name (progressing.ObjectMeta mr)).

(** A stored ManagedResource after the conditions of its status were
    replaced. *)
Definition withStatusOf (stored mr : progressing.ManagedResource)
    (conditions : list progressing.Condition) : progressing.ManagedResource :=
  {| progressing.ObjectMeta := progressing.ObjectMeta stored;
     progressing.Class := progressing.Class stored;
     progressing.ResourceStatus :=
       {| progressing.Conditions := conditions;
          progressing.Resources := progressing.Resources (progressing.ResourceStatus mr) |} |}.

Definition isFetch (req : progressing.Request) : bool :=
  match req with progressing.GetWorkload _ _ _ => true | _ => false end.

Module MoreProgressingFixtures.

(** Helpers that report every Deployment as progressing. *)
Definition rolling : progressing.Helpers := {|
  progressing.IsIgnored := progressing.IsIgnored (Helpers := ProgressingFixtures.helpers);
  progressing.Active := progressing.Active (Helpers := ProgressingFixtures.helpers);
  progressing.GetCondition := progressing.GetCondition (Helpers := ProgressingFixtures.helpers);
  progressing.GetOrInitConditionWithClock :=
    progressing.GetOrInitConditionWithClock (Helpers := ProgressingFixtures.helpers);
  progressing.UpdatedConditionWithClock :=
    progressing.UpdatedConditionWithClock (Helpers := ProgressingFixtures.helpers);
  progressing.MergeConditions :=
    progressing.MergeConditions (Helpers := ProgressingFixtures.helpers);
  progressing.buildCondition :=
    progressing.buildCondition (Helpers := ProgressingFixtures.helpers);
  progressing.groupOf := progressing.groupOf (Helpers := ProgressingFixtures.helpers);
  progressing.IsDeploymentProgressing := λ _, (true, "new replicas are coming up");
  progressing.IsStatefulSetProgressing := λ _, (false, "");
  progressing.IsDaemonSetProgressing := λ _, (false, "");
|}.

Definition reference (kind name : string) : progressing.ObjectReference :=
  {| progressing.APIVersion := "apps/v1"; progressing.Kind := kind;
     progressing.Namespace := "shoot"; progressing.Name := name |}.

Definition workload (name : string) (annotations : gmap string string)
  : progressing.Workload :=
  {| progressing.WorkloadMeta :=
       {| metav1.Name := name; metav1.Namespace := "shoot"; metav1.Labels := ∅;
          metav1.Annotations := annotations; metav1.DeletionTimestamp := None;
          metav1.Finalizers := [] |};
     progressing.Rollout := [] |}.

(** An applied ManagedResource with the given resources and conditions. *)
Definition applied (refs : list progressing.ObjectReference)
    (conditions : list progressing.Condition) : progressing.ManagedResource :=
  {| progressing.ObjectMeta :=
       progressing.ObjectMeta (ProgressingFixtures.managedResource ∅ []);
     progressing.Class := None;
     progressing.ResourceStatus :=
       {| progressing.Conditions :=
            ProgressingFixtures.condition progressing.ResourcesApplied progressing.ConditionTrue
              :: conditions;
          progressing.Resources := refs |} |}.

(** A ConfigMap, a StatefulSet that is gone, a Deployment that opted out of
    the health checks, a Deployment, and a DaemonSet. *)
Definition references : list progressing.ObjectReference :=
  [{| progressing.APIVersion := "v1"; progressing.Kind := "ConfigMap";
      progressing.Namespace := "shoot"; progressing.Name := "settings" |};
   reference "StatefulSet" "etcd"; reference "Deployment" "quiet";
   reference "Deployment" "api"; reference "DaemonSet" "proxy"].

Definition worldWith (mr : progressing.ManagedResource)
    (faults : progressing.Request → option error) : progressing.World :=
  {| progressing.managedResources := {[ ("garden", "mr") := mr ]};
     progressing.workloads :=
       {[ ("Deployment", "shoot", "quiet")
            := workload "quiet" {[ progressing.SkipHealthCheck := "true" ]};
          ("Deployment", "shoot", "api") := workload "api" ∅;
          ("DaemonSet", "shoot", "proxy") := workload "proxy" ∅ ]};
     progressing.faults := faults;
     progressing.journal := [] |}.

(** The target cluster times out on every fetch of a DaemonSet. *)
Definition daemonSetsTimeOut (req : progressing.Request) : option error :=
  match req with
  | progressing.GetWorkload kind _ _ =>
      if decide (kind = "DaemonSet") then Some (ErrStore "timeout") else None
  | _ => None
  end.

(** The ManagedResource is rolled out, and its status says so already. *)
Definition rolledOut : progressing.ManagedResource :=
  applied references
    [ProgressingFixtures.condition progressing.ResourcesProgressing progressing.ConditionFalse].

End MoreProgressingFixtures.

(** What a run of the check may do to the world: fetch workloads. *)
Definition readsOnly (w w' : progressing.World) : Prop :=
  progressing.managedResources w' = progressing.managedResources w
  ∧ progressing.workloads w' = progressing.workloads w
  ∧ progressing.faults w' = progressing.faults w
  ∧ ∃ gets, progressing.journal w' = progressing.journal w ++ gets
            ∧ Forall (λ req, isFetch req = true) gets.

(** ... and after the fetches send at most one update, of the status of the
    one ManagedResource. *)
Definition statusOnly (mr : progressing.ManagedResource) (w w' : progressing.World) : Prop :=
  progressing.workloads w' = progressing.workloads w
  ∧ progressing.faults w' = progressing.faults w
  ∧ (∀ k, k ≠ managedResourceKey mr →
       progressing.managedResources w' !! k = progressing.managedResources w !! k)
  ∧ ∃ gets updates,
      progressing.journal w' = progressing.journal w ++ gets ++ updates
      ∧ Forall (λ req, isFetch req = true) gets
      ∧ ((updates = [] ∧ progressing.managedResources w' = progressing.managedResources w)
         ∨ updates = [statusUpdate mr]).

(* ===================================================================== *)
(** ** Vocabulary of a reconciliation *)
(* ===================================================================== *)

(** The Service as the active branch of [Reconcile] holds it after lines
    97-102: with the finalizer of the controller. *)
Definition withFinalizer (service : corev1.Service) : corev1.Service :=
  if ContainsFinalizer (corev1.ObjectMeta service) finalizerName then service
  else corev1.withObjectMeta service (AddFinalizer (corev1.ObjectMeta service) finalizerName).

(** The metadata list that a store which serves the list call hands to
    [Reconcile] at lines 65-72: the stored policies that carry the two
    back-reference labels of the Service. *)
Definition listed (service : corev1.Service) (c : Cluster)
  : list metav1.PartialObjectMetadata :=
  filter (λ meta, matchingLabels (backReferenceLabels service) meta = true)
    (map_to_list (networkingv1.ObjectMeta <$> networkPolicies c)).*2.

(** Whether a task reaches the store: the from-world upsert returns before
    its request when its annotation does not parse. *)
Definition sendsRequest `{External} (t : TaskFn) : bool :=
  match t with
  | reconcileIngressFromWorldPolicyTask service _ =>
      negb (isErr (unmarshalPorts (annotationValue service NetworkingFromWorldToPorts)))
  | _ => true
  end.

(** An upsert or a delete of a NetworkPolicy. *)
Definition isPolicyRequest (req : Request) : bool :=
  isUpsertRequest req || isDeleteRequest req.

Module MalformedFixtures.

(** [svc1] with a namespace-selectors annotation that is not JSON. *)
Definition svcSelectorsMalformed : corev1.Service :=
  Fixtures.serviceIn "ns1" "svc1" {[ NetworkingNamespaceSelectors := "{" ]} [] None
    (Some {[ "app" := "foo" ]}) [Fixtures.servicePort "TCP" (intstr.FromInt 80)].

Definition clusterSelectorsMalformed : Cluster :=
  Fixtures.clusterOf svcSelectorsMalformed [Fixtures.namespaceObject "ns1" ∅ None] [].

End MalformedFixtures.

(** The policy types of the policy that an upsert task writes. *)
Definition taskPolicyTypes (t : TaskFn) : list networkingv1.PolicyType :=
  match t with
  | reconcileEgressPolicyTask _ _ _ _ _ => [networkingv1.PolicyTypeEgress]
  | _ => [networkingv1.PolicyTypeIngress]
  end.
(* ===================================================================== *)
(** * Properties *)
(* ===================================================================== *)

(** ** Basic facts about the monad and the client *)

(** Closes an equation between closed terms by evaluating both sides. *)
Ltac vm_refl :=
  match goal with |- _ = ?rhs => vm_cast_no_check (@eq_refl _ rhs) end.


Lemma bind_Ok {A B} (m : M A) (f : A → M B) c a c' :
  m c = (Ok a, c') → (m ≫= f) c = f a c'.
Proof. intros Hm. unfold mbind, M_bind. by rewrite Hm. Qed.

Lemma bind_Err {A B} (m : M A) (f : A → M B) c e c' :
  m c = (Err e, c') → (m ≫= f) c = (Err e, c').
Proof. intros Hm. unfold mbind, M_bind. by rewrite Hm. Qed.

Lemma wrap_Ok {A} ctx (m : M A) c a c' :
  m c = (Ok a, c') → wrap ctx m c = (Ok a, c').
Proof. intros Hm. unfold wrap. by rewrite Hm. Qed.

Lemma wrap_Err {A} ctx (m : M A) c e c' :
  m c = (Err e, c') → wrap ctx m c = (Err (ErrWrap ctx e), c').
Proof. intros Hm. unfold wrap. by rewrite Hm. Qed.

(** ** The delete phase: [deleteStalePolicies] *)

Lemma deleteStalePolicies_acc (keys : gset string) l acc :
  foldl (λ taskFns networkPolicy,
           if decide (key networkPolicy ∈ keys) then taskFns
           else taskFns ++ [deleteObjectTask networkPolicy]) acc l
  = acc ++ (deleteObjectTask <$> filter (λ np, key np ∉ keys) l).
Proof.
  revert acc. induction l as [|np l IH]; intros acc; simpl.
  - by rewrite app_nil_r.
  - rewrite IH. rewrite filter_cons. destruct (decide (key np ∈ keys)) as [Hin|Hnin].
    + by rewrite decide_False by (intros Hn; by apply Hn).
    + rewrite decide_True by done. by rewrite fmap_cons, <- app_assoc.
Qed.

Lemma deleteStalePolicies_filter l keys :
  deleteStalePolicies l keys
  = deleteObjectTask <$> filter (λ np, key np ∉ (list_to_set keys : gset string)) l.
Proof. unfold deleteStalePolicies. by rewrite deleteStalePolicies_acc. Qed.

Lemma deleteStalePolicies_nil l :
  deleteStalePolicies l [] = deleteObjectTask <$> l.
Proof.
  rewrite deleteStalePolicies_filter. f_equal.
  induction l as [|np l IH]; [done|].
  rewrite filter_cons, decide_True by set_solver. by f_equal.
Qed.

Lemma elem_of_deleteStalePolicies l keys t :
  t ∈ deleteStalePolicies l keys ↔ ∃ np, t = deleteObjectTask np ∧ np ∈ l ∧ key np ∉ keys.
Proof.
  rewrite deleteStalePolicies_filter, list_elem_of_fmap. split.
  - intros (np & -> & Hin). apply list_elem_of_filter in Hin as [Hk Hin].
    exists np. split_and!; [done..|]. intros Hkeys. apply Hk. by apply elem_of_list_to_set.
  - intros (np & -> & Hin & Hk). exists np. split; [done|].
    apply list_elem_of_filter. split; [|done]. intros Hkeys. apply Hk.
    by apply elem_of_list_to_set in Hkeys.
Qed.

Lemma List_NetworkPolicies_spec want c :
  List_NetworkPolicies want c =
    match faults c ListNetworkPolicies with
    | Some e => (Err e, record c ListNetworkPolicies)
    | None =>
        (Ok (filter (λ meta, matchingLabels want meta = true)
               (map_to_list (networkingv1.ObjectMeta <$> networkPolicies c)).*2),
         record c ListNetworkPolicies)
    end.
Proof.
  unfold List_NetworkPolicies, mbind, M_bind, call.
  destruct (faults c ListNetworkPolicies); [done|]. simpl.
  rewrite map_to_list_fmap. do 3 f_equal.
  rewrite <- !list_fmap_compose. by apply list_fmap_ext; intros ? [].
Qed.


(** ** Strings *)

Lemma append_cons (x : ascii) (a b : string) : String x a +:+ b = String x (a +:+ b).
Proof. reflexivity. Qed.

Lemma append_nil_l (b : string) : "" +:+ b = b.
Proof. reflexivity. Qed.

Lemma append_assoc (a b c : string) : (a +:+ b) +:+ c = a +:+ (b +:+ c).
Proof.
  induction a as [|x a IH]; [done|]. rewrite !append_cons. by f_equal.
Qed.

Lemma append_nil_r (a : string) : a +:+ "" = a.
Proof. induction a as [|x a IH]; [done|]. rewrite append_cons. by f_equal. Qed.

Lemma occurs_append (x : ascii) (a b : string) :
  occurs x (a +:+ b) = occurs x a || occurs x b.
Proof.
  induction a as [|y a IH]; [done|]. rewrite append_cons. simpl.
  destruct (decide (x = y)); [done|]. apply IH.
Qed.

(** Two strings that agree up to their first separator agree before it and
    after it. *)
Lemma split_at_separator (x : ascii) (a1 a2 r1 r2 : string) :
  occurs x a1 = false → occurs x a2 = false →
  a1 +:+ String x r1 = a2 +:+ String x r2 → a1 = a2 ∧ r1 = r2.
Proof.
  revert a2. induction a1 as [|y a1 IH]; intros [|z a2];
    rewrite ?append_cons, ?append_nil_l; simpl.
  - intros _ _ [= ->]. done.
  - intros _ Hz [= <- _]. by rewrite decide_True in Hz.
  - intros Hy _ [= -> _]. by rewrite decide_True in Hy.
  - intros Hy Hz [= -> Heq].
    destruct (decide (x = z)); [done|].
    destruct (IH a2 Hy Hz Heq) as [-> ->]. done.
Qed.

Lemma hyphen_free_prefix (a1 a2 r1 r2 : string) :
  occurs "-" a1 = false → occurs "-" a2 = false →
  hyphenTail r1 → hyphenTail r2 →
  a1 +:+ r1 = a2 +:+ r2 → a1 = a2 ∧ r1 = r2.
Proof.
  revert a2. induction a1 as [|y a1 IH]; intros [|z a2];
    rewrite ?append_cons, ?append_nil_l; simpl.
  - done.
  - intros _ Hz [->|[r' ->]] _; [done|]. intros [= <- _].
    by rewrite decide_True in Hz.
  - intros Hy _ _ [->|[r' ->]]; [done|]. intros [= -> _].
    by rewrite decide_True in Hy.
  - intros Hy Hz H1 H2 [= -> Heq].
    destruct (decide ("-"%char = z)); [done|].
    destruct (IH a2 Hy Hz H1 H2 Heq) as [-> ->]. done.
Qed.

(** *** Decimal rendering *)

Lemma Itoa_inj (a b : Z) : Itoa a = Itoa b → a = b.
Proof.
  unfold Itoa. intros Heq. apply DecimalZ.to_int_inj.
  assert (Hs : Some (Z.to_int a) = Some (Z.to_int b))
    by (rewrite <- !NilEmpty.isi; by rewrite Heq).
  by injection Hs.
Qed.

Lemma string_of_uint_digits (d : Decimal.uint) :
  allDigits (NilEmpty.string_of_uint d) = true
  ∧ occurs "-" (NilEmpty.string_of_uint d) = false.
Proof. induction d; simpl; try done; destruct IHd; split; done. Qed.

Lemma Itoa_digits (n : Z) :
  (0 ≤ n)%Z → allDigits (Itoa n) = true ∧ occurs "-" (Itoa n) = false.
Proof.
  intros Hn. unfold Itoa. destruct n as [|p|p]; [done| |lia].
  apply string_of_uint_digits.
Qed.

Lemma admissiblePort_hyphen_free (p : intstr.IntOrString) :
  admissiblePort p → occurs "-" (intstr.String (Some p)) = false.
Proof.
  destruct p as [n|s]; simpl.
  - intros Hn. by apply Itoa_digits.
  - by intros [? _].
Qed.

Lemma admissiblePort_inj (p q : intstr.IntOrString) :
  admissiblePort p → admissiblePort q →
  intstr.String (Some p) = intstr.String (Some q) → p = q.
Proof.
  destruct p as [n|s], q as [m|t]; simpl.
  - intros _ _ Heq. f_equal. by apply Itoa_inj.
  - intros Hn [_ Ht] Heq. apply Itoa_digits in Hn as [Hd _]. congruence.
  - intros [_ Hs] Hm Heq. apply Itoa_digits in Hm as [Hd _]. congruence.
  - intros _ _ ->. done.
Qed.

(** ** The identity key *)

Lemma key_inj (m1 m2 : metav1.ObjectMeta) :
  occurs "/" (metav1.Namespace m1) = false →
  occurs "/" (metav1.Namespace m2) = false →
  key m1 = key m2 →
  metav1.Namespace m1 = metav1.Namespace m2 ∧ metav1.Name m1 = metav1.Name m2.
Proof. intros H1 H2. unfold key. apply split_at_separator; done. Qed.

Lemma derivationPolicyID_shape (service : corev1.Service) (d : Derivation) :
  derivationPolicyID service d
  = serviceName service +:+ "-" +:+ ToLower (dProtocol d) +:+ "-"
      +:+ (intstr.String (Some (dPort d)) +:+ viaTail (dCustomPodLabelSelector d)).
Proof.
  unfold derivationPolicyID, viaTail.
  destruct (decide (dCustomPodLabelSelector d ≠ "")).
  - by rewrite !append_assoc.
  - by rewrite append_nil_r.
Qed.

Lemma hyphenTail_via_from (cu N n : string) :
  hyphenTail (viaTail cu +:+ fromTail N n).
Proof.
  unfold viaTail, fromTail, hyphenTail.
  destruct (decide (cu ≠ "")), (decide (N ≠ n)); eauto.
Qed.

Lemma hyphenTail_via (cu : string) : hyphenTail (viaTail cu).
Proof. unfold viaTail, hyphenTail. destruct (decide (cu ≠ "")); eauto. Qed.

Lemma policyID_tail_inj (S pr1 pr2 : string) (p1 p2 : intstr.IntOrString) (R1 R2 : string) :
  pr1 ∈ ["TCP"; "UDP"; "SCTP"] → pr2 ∈ ["TCP"; "UDP"; "SCTP"] →
  admissiblePort p1 → admissiblePort p2 →
  hyphenTail R1 → hyphenTail R2 →
  S +:+ "-" +:+ ToLower pr1 +:+ "-" +:+ (intstr.String (Some p1) +:+ R1)
  = S +:+ "-" +:+ ToLower pr2 +:+ "-" +:+ (intstr.String (Some p2) +:+ R2) →
  pr1 = pr2 ∧ p1 = p2 ∧ R1 = R2.
Proof.
  intros Hpr1 Hpr2 Hp1 Hp2 HR1 HR2 Heq.
  apply (inj (String.append S)) in Heq.
  assert (Hcases : pr1 = pr2 ∧
            intstr.String (Some p1) +:+ R1 = intstr.String (Some p2) +:+ R2).
  { repeat (apply elem_of_cons in Hpr1 as [->|Hpr1]);
      repeat (apply elem_of_cons in Hpr2 as [->|Hpr2]);
      try (by apply elem_of_nil in Hpr1); try (by apply elem_of_nil in Hpr2);
      vm_compute ToLower in Heq; rewrite ?append_cons, ?append_nil_l in Heq;
      try discriminate Heq; by simplify_eq. }
  destruct Hcases as [-> Htail].
  apply hyphen_free_prefix in Htail as [HP ->];
    auto using admissiblePort_hyphen_free.
  split_and!; [done| |done]. by apply admissiblePort_inj.
Qed.

Ltac str_cancel H :=
  repeat first
    [ discriminate H
    | apply (inj (String.append _)) in H
    | injection H as H ].

Lemma via_from_inj (C cu1 cu2 N n1 n2 : string) :
  cu1 = "" ∨ cu1 = C → cu2 = "" ∨ cu2 = C →
  viaTail cu1 +:+ fromTail N n1 = viaTail cu2 +:+ fromTail N n2 →
  cu1 = cu2 ∧ n1 = n2.
Proof.
  unfold viaTail, fromTail. intros H1 H2.
  destruct (decide (cu1 ≠ "")) as [Hc1|Hc1], (decide (cu2 ≠ "")) as [Hc2|Hc2];
    destruct (decide (N ≠ n1)) as [Hn1|Hn1], (decide (N ≠ n2)) as [Hn2|Hn2];
    try apply dec_stable in Hc1; try apply dec_stable in Hc2;
    try apply dec_stable in Hn1; try apply dec_stable in Hn2;
    destruct H1 as [H1|H1], H2 as [H2|H2]; subst;
    rewrite ?append_assoc, ?append_cons, ?append_nil_l;
    intros Heq; try done; str_cancel Heq; by subst.
Qed.

Lemma objectMetaFunc_Name (kind : PolicyKind) (policyID N n : string) :
  metav1.Name (objectMetaFunc kind policyID N n)
  = match kind with
    | IngressPolicy => "ingress-to-" +:+ (policyID +:+ fromTail N n)
    | EgressPolicy =>
        if decide (N ≠ n) then "egress-to-" +:+ N +:+ "-" +:+ policyID
        else "egress-to-" +:+ policyID
    end.
Proof.
  destruct kind; simpl; unfold ingressPolicyObjectMetaFor, egressPolicyObjectMetaFor, fromTail;
    destruct (decide (N ≠ n)); simpl; rewrite ?append_assoc, ?append_nil_r; done.
Qed.

Lemma objectMetaFunc_Namespace (kind : PolicyKind) (policyID N n : string) :
  metav1.Namespace (objectMetaFunc kind policyID N n)
  = match kind with IngressPolicy => N | EgressPolicy => n end.
Proof. by destruct kind. Qed.

(** C5 (amended).  For one Service, whose namespace name contains no slash,
    and its custom pod label selector, on derivations whose protocol is TCP,
    UDP or SCTP, whose target port is a non-negative number or a name that
    contains no hyphen and does not consist of digits only, whose custom pod
    label selector is that of the Service or none, and whose peer namespace
    name contains no slash: the same derivation always gets the same identity
    key, and two different derivations never get the same key. *)
Theorem derivationKey_injective
    (service : corev1.Service) (customPodLabelSelector : string) (d1 d2 : Derivation) :
  occurs "/" (serviceNamespace service) = false →
  admissible customPodLabelSelector d1 →
  admissible customPodLabelSelector d2 →
  (derivationKey service d1 = derivationKey service d2 ↔ d1 = d2).
Proof.
  intros HN (Hpr1 & Hp1 & Hcu1 & Hn1) (Hpr2 & Hp2 & Hcu2 & Hn2).
  split; [|by intros ->].
  unfold derivationKey. intros Hkey.
  apply key_inj in Hkey as [Hns Hname];
    [|rewrite objectMetaFunc_Namespace; by destruct (dKind d1)
     |rewrite objectMetaFunc_Namespace; by destruct (dKind d2)].
  rewrite !objectMetaFunc_Namespace in Hns.
  rewrite !objectMetaFunc_Name, !derivationPolicyID_shape in Hname.
  destruct d1 as [pr1 p1 cu1 n1 k1], d2 as [pr2 p2 cu2 n2 k2];
    cbn [dProtocol dPort dCustomPodLabelSelector dNamespace dKind] in *.
  destruct k1, k2.
  - (* two ingress policies *)
    apply (inj (String.append _)) in Hname.
    rewrite !append_assoc in Hname.
    apply policyID_tail_inj in Hname as (-> & -> & Htail);
      auto using hyphenTail_via_from.
    eapply via_from_inj in Htail as [-> ->]; done.
  - (* ingress against egress: the names start differently *)
    destruct (decide (serviceNamespace service ≠ n2));
      rewrite ?append_cons in Hname; discriminate Hname.
  - destruct (decide (serviceNamespace service ≠ n1));
      rewrite ?append_cons in Hname; discriminate Hname.
  - (* two egress policies, in the same namespace *)
    subst n2.
    assert (Hid :
      serviceName service +:+ "-" +:+ ToLower pr1 +:+ "-"
        +:+ (intstr.String (Some p1) +:+ viaTail cu1)
      = serviceName service +:+ "-" +:+ ToLower pr2 +:+ "-"
        +:+ (intstr.String (Some p2) +:+ viaTail cu2)).
    { destruct (decide (serviceNamespace service ≠ n1)).
      - by do 3 apply (inj (String.append _)) in Hname.
      - by apply (inj (String.append _)) in Hname. }
    apply policyID_tail_inj in Hid as (-> & -> & Htail);
      auto using hyphenTail_via.
    assert (Hvf : viaTail cu1 +:+ fromTail n1 n1 = viaTail cu2 +:+ fromTail n1 n1)
      by (by rewrite Htail).
    eapply via_from_inj in Hvf as [-> _]; done.
Qed.

(** C5 (as stated) fails: for the Service [svc1] of [ns1] with the target
    ports [80] and [80-from-ns2], the ingress policy of port [80] for peer
    namespace [ns2] and the ingress policy of the named port for [ns1] are
    different derivations with the same key, and both keys are desired. *)
Lemma derivationKey_collision :
  Fixtures.numericFromNs2 ≠ Fixtures.namedInNs1
  ∧ derivationKey Fixtures.svcNamed Fixtures.numericFromNs2
    = derivationKey Fixtures.svcNamed Fixtures.namedInNs1
  ∧ ∃ tasks keys,
      @reconcileDesiredPolicies Fixtures.ext Fixtures.svcNamed {[ "ns1"; "ns2" ]}
        = Ok (tasks, keys)
      ∧ derivationKey Fixtures.svcNamed Fixtures.numericFromNs2 ∈ keys
      ∧ ¬ NoDup keys.
Proof.
  split_and!; [done|by vm_compute|].
  exists (match @reconcileDesiredPolicies Fixtures.ext Fixtures.svcNamed {[ "ns1"; "ns2" ]}
          with Ok d => d.1 | Err _ => [] end),
         ["ns1/ingress-to-svc1-tcp-80"; "ns1/egress-to-svc1-tcp-80";
          "ns1/ingress-to-svc1-tcp-80-from-ns2"; "ns2/egress-to-ns1-svc1-tcp-80";
          "ns1/ingress-to-svc1-tcp-80-from-ns2"; "ns1/egress-to-svc1-tcp-80-from-ns2";
          "ns1/ingress-to-svc1-tcp-80-from-ns2-from-ns2";
          "ns2/egress-to-ns1-svc1-tcp-80-from-ns2"].
  split; [vm_cast_no_check
            (@eq_refl _ (@reconcileDesiredPolicies Fixtures.ext Fixtures.svcNamed
                           {[ "ns1"; "ns2" ]}))|].
  split.
  - apply (bool_decide_unpack _). by vm_compute.
  - intros Hnd. apply (bool_decide_pack _) in Hnd. by vm_compute in Hnd.
Qed.

Lemma derivationKey_injective_witness :
  derivationKey Fixtures.svc1 (Fixtures.numericInNs1 IngressPolicy)
    = derivationKey Fixtures.svc1 (Fixtures.numericInNs1 EgressPolicy)
  ↔ Fixtures.numericInNs1 IngressPolicy = Fixtures.numericInNs1 EgressPolicy.
Proof.
  apply (derivationKey_injective Fixtures.svc1 "").
  - reflexivity.
  - split_and!; [by constructor|simpl; lia|by left|reflexivity].
  - split_and!; [by constructor|simpl; lia|by left|reflexivity].
Defined.


(** ** The namespace-is-handled gate *)

Lemma Get_Namespace_spec (name : string) (c : Cluster) :
  Get_Namespace name c =
    match faults c (GetNamespace name), namespaces c !! name with
    | Some e, _ => (Err e, record c (GetNamespace name))
    | None, None => (Err ErrNotFound, record c (GetNamespace name))
    | None, Some namespace => (Ok namespace, record c (GetNamespace name))
    end.
Proof.
  unfold Get_Namespace, mbind, M_bind, call.
  destruct (faults c (GetNamespace name)); [done|]. simpl.
  by destruct (namespaces c !! name).
Qed.

(** C7.  The gate answers from the fetched namespace: when the fetch fails,
    for a reason of the store or because the namespace is not found, the gate
    returns that error (wrapped), never [false]; when the namespace is
    fetched the gate returns a boolean that is true iff no selector is
    configured or some configured selector matches the labels of the
    namespace. *)
Theorem namespaceIsHandled_gate (r : Reconciler) (namespaceName : string) (c : Cluster) :
  let context := "failed to get namespace " +:+ namespaceName in
  match faults c (GetNamespace namespaceName), namespaces c !! namespaceName with
  | Some e, _ => (namespaceIsHandled r namespaceName c).1 = Err (ErrWrap context e)
  | None, None => (namespaceIsHandled r namespaceName c).1 = Err (ErrWrap context ErrNotFound)
  | None, Some namespace =>
      ∃ handled : bool,
        (namespaceIsHandled r namespaceName c).1 = Ok handled
        ∧ (handled = true ↔
             selectors r = []
             ∨ ∃ selector, selector ∈ selectors r
                 ∧ labels.Matches selector (metav1.Labels namespace) = true)
  end.
Proof.
  intros context. unfold namespaceIsHandled, mbind, M_bind, wrap.
  rewrite Get_Namespace_spec.
  destruct (faults c (GetNamespace namespaceName)) as [e|]; [done|].
  destruct (namespaces c !! namespaceName) as [namespace|]; [|done]. simpl.
  destruct (decide (length (selectors r) = 0%nat)) as [Hlen|Hlen]; simpl.
  - exists true. split; [done|]. split; [|done]. intros _. left.
    by apply nil_length_inv.
  - eexists. split; [done|]. rewrite existsb_exists. split.
    + intros (selector & Hin & Hm). right. exists selector.
      by rewrite list_elem_of_In.
    + intros [Hnil|(selector & Hin & Hm)].
      * by rewrite Hnil in Hlen.
      * exists selector. by rewrite <- list_elem_of_In.
Qed.

(** ** The relevant namespaces *)

Section RelevantNamespaces.
Context `{External}.

Lemma List_Namespaces_spec (selector : labels.Selector) (c : Cluster) :
  List_Namespaces selector c =
    match faults c ListNamespaces with
    | Some e => (Err e, record c ListNamespaces)
    | None =>
        (Ok (filter (λ meta, labels.Matches selector (metav1.Labels meta) = true)
               (map_to_list (namespaces c)).*2),
         record c ListNamespaces)
    end.
Proof.
  unfold List_Namespaces, mbind, M_bind, call.
  by destruct (faults c ListNamespaces).
Qed.

Lemma elem_of_insertLive (l : list metav1.PartialObjectMetadata) (acc : gset string) n :
  n ∈ foldl (λ names namespace,
               if metav1.DeletionTimestamp namespace is None
               then {[ metav1.Name namespace ]} ∪ names else names) acc l
  ↔ n ∈ acc ∨ ∃ namespace, namespace ∈ l
        ∧ metav1.DeletionTimestamp namespace = None ∧ metav1.Name namespace = n.
Proof.
  revert acc. induction l as [|x l IH]; intros acc; simpl.
  - split; [by left|]. intros [?|(? & Hin & _)]; [done|]. by apply elem_of_nil in Hin.
  - rewrite IH. split.
    + intros [Hacc|(namespace & Hin & Hlive & Hname)].
      * destruct (metav1.DeletionTimestamp x) eqn:Hx; [by left|].
        apply elem_of_union in Hacc as [Hx'|?]; [|by left].
        apply elem_of_singleton in Hx'. right. exists x. split_and!; [left|done..].
      * right. exists namespace. split_and!; [by right|done..].
    + intros [Hacc|(namespace & Hin & Hlive & Hname)].
      * left. destruct (metav1.DeletionTimestamp x); [done|].
        apply elem_of_union. by right.
      * apply elem_of_cons in Hin as [->|Hin].
        -- left. rewrite Hlive. apply elem_of_union. left. by apply elem_of_singleton.
        -- right. by exists namespace.
Qed.

Lemma insertMatchingNamespaces_spec (sel : metav1.LabelSelector) (acc names : gset string)
    (c c' : Cluster) :
  insertMatchingNamespaces sel acc c = (Ok names, c') →
  namespaces c' = namespaces c
  ∧ acc ⊆ names
  ∧ ∀ n, n ∈ names →
      n ∈ acc ∨ ∃ selector, LabelSelectorAsSelector sel = Ok selector ∧ liveMatch c selector n.
Proof.
  unfold insertMatchingNamespaces, mbind, M_bind, lift, wrap.
  destruct (LabelSelectorAsSelector sel) as [selector|e] eqn:Hsel; simpl; [|done].
  rewrite List_Namespaces_spec.
  destruct (faults c ListNamespaces); [done|]. simpl.
  intros [= <- <-]. split_and!; [done| |].
  - intros n Hn. apply elem_of_insertLive. by left.
  - intros n Hn. apply elem_of_insertLive in Hn as [Hn|(namespace & Hin & Hlive & Hname)];
      [by left|]. right. exists selector. split; [done|].
    apply list_elem_of_filter in Hin as [Hm Hin].
    apply list_elem_of_fmap in Hin as ([k namespace'] & -> & Hin).
    apply elem_of_map_to_list in Hin. by exists k, namespace'.
Qed.

Lemma forEachSelector_spec (sels : list metav1.LabelSelector) (acc names : gset string)
    (c c' : Cluster) :
  forEachSelector sels acc c = (Ok names, c') →
  acc ⊆ names
  ∧ ∀ n, n ∈ names →
      n ∈ acc ∨ ∃ sel selector, sel ∈ sels
        ∧ LabelSelectorAsSelector sel = Ok selector ∧ liveMatch c selector n.
Proof.
  revert acc c. induction sels as [|sel sels IH]; intros acc c; simpl.
  - intros [= <- <-]. split; [done|]. by left.
  - unfold mbind, M_bind.
    destruct (insertMatchingNamespaces sel acc c) as [[acc'|e] c1] eqn:Hstep; [|done].
    intros Hrest. apply insertMatchingNamespaces_spec in Hstep as (Hns & Hsub & Hstep).
    apply IH in Hrest as [Hsub' Hrest]. split; [by transitivity acc'|].
    intros n Hn. apply Hrest in Hn as [Hn|(sel' & selector & Hin & Hsel & Hlive)].
    + apply Hstep in Hn as [Hn|(selector & Hsel & Hlive)]; [by left|].
      right. exists sel, selector. split_and!; [left|done..].
    + right. exists sel', selector. split_and!; [by right|done|].
      destruct Hlive as (k & namespace & Hk & ?). exists k, namespace.
      by rewrite <- Hns.
Qed.

(** C3 (amended).  The Service's own namespace is always relevant, whatever
    its deletion timestamp; every other relevant namespace is a namespace of
    the cluster without deletion timestamp that is matched by a selector of
    the namespace-selectors annotation. *)
Theorem fetchRelevantNamespaceNames_live (service : corev1.Service)
    (names : gset string) (c c' : Cluster) :
  fetchRelevantNamespaceNames service c = (Ok names, c') →
  serviceNamespace service ∈ names
  ∧ ∀ n, n ∈ names →
      n = serviceNamespace service
      ∨ ∃ v namespaceSelectors sel selector,
          annotation service NetworkingNamespaceSelectors = Some v
          ∧ unmarshalLabelSelectors v = Ok namespaceSelectors
          ∧ sel ∈ namespaceSelectors
          ∧ LabelSelectorAsSelector sel = Ok selector
          ∧ liveMatch c selector n.
Proof.
  unfold fetchRelevantNamespaceNames, mbind, M_bind.
  destruct (annotation service NetworkingNamespaceSelectors) as [v|] eqn:Hv.
  - unfold lift. destruct (unmarshalLabelSelectors v) as [sels|e] eqn:Hsels; simpl; [|done].
    intros Hloop. apply forEachSelector_spec in Hloop as [Hsub Hloop].
    split; [set_solver|]. intros n Hn.
    apply Hloop in Hn as [Hn|(sel & selector & Hin & Hsel & Hlive)].
    + left. by apply elem_of_singleton in Hn.
    + right. by exists v, sels, sel, selector.
  - simpl. intros [= <- <-]. split; [set_solver|].
    intros n Hn. left. by apply elem_of_singleton in Hn.
Qed.

End RelevantNamespaces.

(** C3 (as stated) fails: while the namespace [ns1] of [svc1] is being
    deleted, the resolver still returns [ns1]. *)
Lemma fetchRelevantNamespaceNames_terminating_own_namespace :
  ∃ names namespace,
    (@fetchRelevantNamespaceNames Fixtures.ext Fixtures.svc1 Fixtures.clusterTerminating).1
      = Ok names
    ∧ namespaces Fixtures.clusterTerminating !! "ns1" = Some namespace
    ∧ metav1.DeletionTimestamp namespace ≠ None
    ∧ metav1.Name namespace ∈ names.
Proof.
  exists {[ "ns1" ]}, (Fixtures.namespaceObject "ns1" ∅ (Some 1%Z)). split_and!.
  - by vm_compute.
  - by vm_compute.
  - done.
  - simpl. set_solver.
Qed.

Lemma fetchRelevantNamespaceNames_live_witness :
  let names : gset string := {[ "ns1"; "ns2" ]} in
  serviceNamespace Fixtures.svcOpen ∈ names
  ∧ ∀ n, n ∈ names →
      n = serviceNamespace Fixtures.svcOpen
      ∨ ∃ v namespaceSelectors sel selector,
          annotation Fixtures.svcOpen NetworkingNamespaceSelectors = Some v
          ∧ @unmarshalLabelSelectors Fixtures.ext v = Ok namespaceSelectors
          ∧ sel ∈ namespaceSelectors
          ∧ @LabelSelectorAsSelector Fixtures.ext sel = Ok selector
          ∧ liveMatch Fixtures.clusterOpen selector n.
Proof.
  intros names.
  apply (@fetchRelevantNamespaceNames_live Fixtures.ext Fixtures.svcOpen names
           Fixtures.clusterOpen
           (@fetchRelevantNamespaceNames Fixtures.ext Fixtures.svcOpen Fixtures.clusterOpen).2).
  vm_compute. reflexivity.
Defined.

(** ** Client calls, one by one *)


Lemma sameObjects_trans c1 c2 c3 :
  sameObjects c1 c2 → sameObjects c2 c3 → sameObjects c1 c3.
Proof. intros (?&?&?&?) (?&?&?&?). split_and!; congruence. Qed.

Lemma sameObjects_record c req : sameObjects c (record c req).
Proof. done. Qed.

Lemma sameObjects_samePolicies c c' : sameObjects c c' → samePolicies c c'.
Proof. intros (?&?&?&?). done. Qed.

Lemma samePolicies_trans c1 c2 c3 :
  samePolicies c1 c2 → samePolicies c2 c3 → samePolicies c1 c3.
Proof. intros (?&?&?) (?&?&?). split_and!; congruence. Qed.

Lemma Get_Service_spec (namespace name : string) (c : Cluster) :
  Get_Service namespace name c =
    match faults c (GetService namespace name), services c !! (namespace, name) with
    | Some e, _ => (Err e, record c (GetService namespace name))
    | None, None => (Err ErrNotFound, record c (GetService namespace name))
    | None, Some service => (Ok service, record c (GetService namespace name))
    end.
Proof.
  unfold Get_Service, mbind, M_bind, call.
  destruct (faults c (GetService namespace name)); [done|]. simpl.
  by destruct (services c !! (namespace, name)).
Qed.

Lemma GetAndCreateOrMergePatch_spec obj mutate (c : Cluster) :
  let namespace := metav1.Namespace (networkingv1.ObjectMeta obj) in
  let name := metav1.Name (networkingv1.ObjectMeta obj) in
  GetAndCreateOrMergePatch obj mutate c =
    match faults c (UpsertNetworkPolicy namespace name) with
    | Some e => (Err e, record c (UpsertNetworkPolicy namespace name))
    | None =>
        (Ok tt,
         setNetworkPolicies (record c (UpsertNetworkPolicy namespace name))
           (<[(namespace, name) := mutate (default obj (networkPolicies c !! (namespace, name)))]>
              (networkPolicies c)))
    end.
Proof.
  intros namespace name. unfold GetAndCreateOrMergePatch, mbind, M_bind, call.
  fold namespace name. by destruct (faults c (UpsertNetworkPolicy namespace name)).
Qed.

Lemma patchFinalizers_spec (service : corev1.Service) (c : Cluster) :
  let namespace := serviceNamespace service in
  let name := serviceName service in
  patchFinalizers service c =
    match faults c (PatchFinalizers namespace name), services c !! (namespace, name) with
    | Some e, _ => (Err e, record c (PatchFinalizers namespace name))
    | None, None => (Err ErrNotFound, record c (PatchFinalizers namespace name))
    | None, Some stored =>
        (Ok tt,
         setServices (record c (PatchFinalizers namespace name))
           (<[(namespace, name) :=
                corev1.withObjectMeta stored
                  (metav1.SetFinalizers (corev1.ObjectMeta stored)
                     (metav1.Finalizers (corev1.ObjectMeta service)))]> (services c)))
    end.
Proof.
  intros namespace name. unfold patchFinalizers, mbind, M_bind, call.
  fold (serviceNamespace service) (serviceName service). fold namespace name.
  destruct (faults c (PatchFinalizers namespace name)); [done|]. simpl.
  by destruct (services c !! (namespace, name)).
Qed.

Lemma namespaceIsHandled_sameObjects r n c :
  sameObjects c (namespaceIsHandled r n c).2.
Proof.
  unfold namespaceIsHandled, mbind, M_bind, wrap. rewrite Get_Namespace_spec.
  destruct (faults c (GetNamespace n)); [done|].
  destruct (namespaces c !! n); [|done]. simpl.
  by destruct (decide _).
Qed.

Lemma patchFinalizers_samePolicies service c :
  samePolicies c (patchFinalizers service c).2.
Proof.
  rewrite patchFinalizers_spec.
  destruct (faults c _); [done|]. by destruct (services c !! _).
Qed.

Lemma AddFinalizers_samePolicies service f c :
  samePolicies c (AddFinalizers service f c).2.
Proof.
  unfold AddFinalizers, mbind, M_bind.
  pose proof (patchFinalizers_samePolicies
    (corev1.withObjectMeta service (AddFinalizer (corev1.ObjectMeta service) f)) c) as Hp.
  by destruct (patchFinalizers _ c) as [[[]|e] c1].
Qed.

Lemma RemoveFinalizers_samePolicies service f c :
  samePolicies c (RemoveFinalizers service f c).2.
Proof.
  unfold RemoveFinalizers.
  pose proof (patchFinalizers_samePolicies
    (corev1.withObjectMeta service (RemoveFinalizer (corev1.ObjectMeta service) f)) c) as Hp.
  by destruct (patchFinalizers _ c) as [[[]|e] c1].
Qed.

Section Frames.
Context `{External}.

Lemma insertMatchingNamespaces_sameObjects sel acc c :
  sameObjects c (insertMatchingNamespaces sel acc c).2.
Proof.
  unfold insertMatchingNamespaces, mbind, M_bind, lift, wrap.
  destruct (LabelSelectorAsSelector sel); simpl; [|done].
  rewrite List_Namespaces_spec. by destruct (faults c ListNamespaces).
Qed.

Lemma forEachSelector_sameObjects sels acc c :
  sameObjects c (forEachSelector sels acc c).2.
Proof.
  revert acc c. induction sels as [|sel sels IH]; intros acc c; simpl; [done|].
  unfold mbind, M_bind.
  pose proof (insertMatchingNamespaces_sameObjects sel acc c) as Hstep.
  destruct (insertMatchingNamespaces sel acc c) as [[acc'|e] c1]; [|done].
  eapply sameObjects_trans; [exact Hstep|apply IH].
Qed.

Lemma fetchRelevantNamespaceNames_sameObjects service c :
  sameObjects c (fetchRelevantNamespaceNames service c).2.
Proof.
  unfold fetchRelevantNamespaceNames, mbind, M_bind.
  destruct (annotation service NetworkingNamespaceSelectors) as [v|].
  - unfold lift. destruct (unmarshalLabelSelectors v); simpl; [|done].
    apply forEachSelector_sameObjects.
  - apply forEachSelector_sameObjects.
Qed.

End Frames.

(** ** Tasks *)

Section Tasks.
Context `{External}.

Lemma upsert_step (t : TaskFn) obj mutate c :
  isUpsertTask t = true →
  taskTarget t = (metav1.Namespace (networkingv1.ObjectMeta obj),
                  metav1.Name (networkingv1.ObjectMeta obj)) →
  taskStep t c (GetAndCreateOrMergePatch obj mutate c).1
               (GetAndCreateOrMergePatch obj mutate c).2.
Proof.
  intros Hup Htarget. rewrite GetAndCreateOrMergePatch_spec.
  assert (Hreq : taskRequest t
            = UpsertNetworkPolicy (metav1.Namespace (networkingv1.ObjectMeta obj))
                (metav1.Name (networkingv1.ObjectMeta obj))).
  { destruct t; try done; simpl in *; by injection Htarget as -> ->. }
  rewrite <- Hreq, <- Htarget.
  destruct (faults c (taskRequest t)) eqn:Hf; simpl.
  - eapply stepFailed; eauto.
  - by apply stepWritten.
Qed.

Lemma runTask_step (t : TaskFn) (c : Cluster) :
  taskStep t c (runTask t c).1 (runTask t c).2.
Proof.
  destruct t as [service port meta n ml|service port meta n ml|service meta|np]; simpl.
  - by apply upsert_step.
  - by apply upsert_step.
  - unfold reconcileIngressFromWorldPolicy, mbind, M_bind, lift.
    destruct (unmarshalPorts _) as [ports|e]; simpl.
    + by apply upsert_step.
    + by apply stepNoRequest.
  - unfold DeleteObject.
    destruct (faults c (DeleteNetworkPolicy _ _)) as [e|] eqn:Hf; simpl.
    + apply (stepFailed (deleteObjectTask np) c e); [done|].
      destruct (IsNotFound e); [by right|by left].
    + by apply (stepDeleted (deleteObjectTask np)).
Qed.

Lemma taskStep_samePolicies_but_policies t c r c' :
  taskStep t c r c' →
  services c' = services c ∧ namespaces c' = namespaces c ∧ faults c' = faults c.
Proof. by destruct 1. Qed.

(** A served task leaves every object but its target as it was. *)
Lemma taskStep_other t c r c' k :
  taskStep t c r c' → k ≠ taskTarget t →
  networkPolicies c' !! k = networkPolicies c !! k.
Proof.
  destruct 1; intros Hk; simpl; try done.
  - by rewrite lookup_insert_ne.
  - by rewrite lookup_delete_ne.
Qed.

(** An upsert removes nothing. *)
Lemma taskStep_upsert_keeps t c r c' k :
  taskStep t c r c' → isUpsertTask t = true →
  is_Some (networkPolicies c !! k) → is_Some (networkPolicies c' !! k).
Proof.
  destruct 1 as [| |v Hup Hf|Hdel Hf]; intros Hupsert Hk; simpl; try done.
  - destruct (decide (taskTarget t = k)) as [->|Hne].
    + rewrite lookup_insert_eq. by eexists.
    + by rewrite lookup_insert_ne.
  - unfold isUpsertTask in Hupsert. by rewrite Hdel in Hupsert.
Qed.

End Tasks.

(** ** The fan-out *)

Lemma served_from (pre fns : list TaskFn) :
  served (seq (length pre) (length fns)) (pre ++ fns) = fns.
Proof.
  unfold served. revert pre. induction fns as [|t fns IH]; intros pre; [done|].
  simpl. rewrite list_lookup_middle by done. f_equal.
  specialize (IH (pre ++ [t])). rewrite length_app, Nat.add_1_r in IH.
  by rewrite <- app_assoc in IH.
Qed.

Lemma served_all (fns : list TaskFn) : served (seq 0 (length fns)) fns = fns.
Proof. apply (served_from [] fns). Qed.

Lemma served_elem_of (order : list nat) (fns : list TaskFn) (t : TaskFn) :
  t ∈ served order fns → t ∈ fns.
Proof.
  unfold served. intros (i & _ & Hi)%list_elem_of_omap.
  by apply list_elem_of_lookup_2 in Hi.
Qed.

(** A fair scheduler serves the dispatched tasks, each once, in some order. *)
Lemma served_fair (sched : Scheduler) (fns : list TaskFn) :
  fair sched → Permutation (served (sched (length fns)) fns) fns.
Proof.
  intros Hfair. rewrite <- (served_all fns) at 3. unfold served.
  by rewrite (Hfair (length fns)).
Qed.

Section FanOut.
Context `{External}.

(** An invariant of every task is an invariant of the fan-out. *)
Lemma serve_invariant (Inv : Cluster → Prop) (tasks : list TaskFn) :
  (∀ t c r c', t ∈ tasks → Inv c → taskStep t c r c' → Inv c') →
  ∀ c, Inv c → Inv (serve tasks c).2.
Proof.
  induction tasks as [|t tasks IH]; intros Hstep c Hc; simpl; [done|].
  pose proof (runTask_step t c) as Ht.
  destruct (runTask t c) as [r c1]. simpl in Ht.
  assert (Hc1 : Inv c1) by (eapply Hstep; [left|done..]).
  specialize (IH (λ t' c r c' Hin, Hstep t' c r c' (list_elem_of_further _ _ _ Hin)) c1 Hc1).
  by destruct (serve tasks c1) as [e c2].
Qed.

(** What a task establishes, and no later task destroys, holds at the end. *)
Lemma serve_establishes (Inv R : Cluster → Prop) (tasks : list TaskFn) (t : TaskFn) :
  t ∈ tasks →
  (∀ t' c r c', t' ∈ tasks → Inv c → taskStep t' c r c' → Inv c') →
  (∀ c r c', Inv c → taskStep t c r c' → R c') →
  (∀ t' c r c', t' ∈ tasks → Inv c → R c → taskStep t' c r c' → R c') →
  ∀ c, Inv c → R (serve tasks c).2.
Proof.
  induction tasks as [|t0 tasks IH]; intros Hin HInv Hest Hkeep c Hc; simpl.
  { by apply elem_of_nil in Hin. }
  pose proof (runTask_step t0 c) as Ht.
  destruct (runTask t0 c) as [r c1]. simpl in Ht.
  assert (Hc1 : Inv c1) by (eapply HInv; [left|done..]).
  assert (HInv' : ∀ t' c r c', t' ∈ tasks → Inv c → taskStep t' c r c' → Inv c')
    by (intros t' ???? ; apply HInv; by right).
  assert (Hkeep' : ∀ t' c r c', t' ∈ tasks → Inv c → R c → taskStep t' c r c' → R c')
    by (intros t' ???? ; apply Hkeep; by right).
  apply elem_of_cons in Hin as [->|Hin].
  - assert (HR1 : R c1) by exact (Hest _ _ _ Hc Ht).
    pose proof (serve_invariant (λ c, Inv c ∧ R c) tasks) as Hboth.
    destruct (serve tasks c1) as [e c2] eqn:Hs. simpl.
    change c2 with (e, c2).2. rewrite <- Hs. apply Hboth; [|done].
    intros t' c' r' c'' Hin [HI HR] Hstep. split; [by eapply HInv'|by eapply Hkeep'].
  - specialize (IH Hin HInv' Hest Hkeep' c1 Hc1).
    by destruct (serve tasks c1) as [e c2].
Qed.

(** The fan-out reports an error iff some task returned one. *)
Lemma serve_ok (Inv : Cluster → Prop) (tasks : list TaskFn) :
  (∀ t c r c', t ∈ tasks → Inv c → taskStep t c r c' → Inv c') →
  (∀ t c, t ∈ tasks → Inv c → (runTask t c).1 = Ok tt) →
  ∀ c, Inv c → (serve tasks c).1 = None.
Proof.
  induction tasks as [|t tasks IH]; intros HInv Hok c Hc; simpl; [done|].
  pose proof (runTask_step t c) as Ht. pose proof (Hok t c (list_elem_of_here _ _) Hc) as Hr.
  destruct (runTask t c) as [r c1]. simpl in Ht, Hr. subst r.
  assert (Hc1 : Inv c1) by (eapply HInv; [left|done..]).
  specialize (IH (λ t' c r c' Hin, HInv t' c r c' (list_elem_of_further _ _ _ Hin))
                 (λ t' c Hin, Hok t' c (list_elem_of_further _ _ _ Hin)) c1 Hc1).
  by destruct (serve tasks c1) as [e c2].
Qed.

Lemma serve_error (tasks : list TaskFn) (t : TaskFn) :
  t ∈ tasks → (∀ c, isErr (runTask t c).1 = true) →
  ∀ c, is_Some (serve tasks c).1.
Proof.
  induction tasks as [|t0 tasks IH]; intros Hin Hfail c; simpl.
  { by apply elem_of_nil in Hin. }
  apply elem_of_cons in Hin as [->|Hin].
  - specialize (Hfail c). destruct (runTask t0 c) as [[|e] c1]; [done|].
    destruct (serve tasks c1) as [e' c2]. by eexists.
  - destruct (runTask t0 c) as [r c1]. specialize (IH Hin Hfail c1).
    destruct (serve tasks c1) as [e' c2]. destruct r; [done|by eexists].
Qed.

(** The journal grows by requests of the served tasks, in the order served. *)
Lemma serve_journal (tasks : list TaskFn) (c : Cluster) :
  ∃ sent, journal (serve tasks c).2 = journal c ++ (taskRequest <$> sent)
    ∧ sublist sent tasks.
Proof.
  revert c. induction tasks as [|t tasks IH]; intros c; simpl.
  { exists []. by rewrite app_nil_r. }
  pose proof (runTask_step t c) as Ht.
  destruct (runTask t c) as [r c1]. simpl in Ht.
  destruct (IH c1) as (sent & Hj & Hsub).
  destruct (serve tasks c1) as [e c2]. simpl in *.
  destruct Ht.
  - exists sent. split; [done|]. by apply sublist_cons.
  - exists (t :: sent). split; [|by apply sublist_skip].
    rewrite Hj. simpl. by rewrite <- app_assoc.
  - exists (t :: sent). split; [|by apply sublist_skip].
    rewrite Hj. simpl. by rewrite <- app_assoc.
  - exists (t :: sent). split; [|by apply sublist_skip].
    rewrite Hj. simpl. by rewrite <- app_assoc.
Qed.

End FanOut.

Section Cleanup.
Context `{External}.

Lemma Parallel_spec (sched : Scheduler) (fns : list TaskFn) (c : Cluster) :
  Parallel sched fns c =
    (match (serve (served (sched (length fns)) fns) c).1 with
     | Some e => Err e
     | None => Ok tt
     end, (serve (served (sched (length fns)) fns) c).2).
Proof. unfold Parallel. by destruct (serve _ c). Qed.

(** Serving delete tasks on a store that does not fail. *)
Lemma serve_deletes (tasks : list TaskFn) (c : Cluster) :
  reliable c → Forall (λ t, isDeleteTask t = true) tasks →
  (serve tasks c).1 = None
  ∧ sameObjects (setNetworkPolicies c (networkPolicies (serve tasks c).2)) (serve tasks c).2
  ∧ (∀ k, networkPolicies (serve tasks c).2 !! k
          = if decide (k ∈ taskTarget <$> tasks) then None else networkPolicies c !! k)
  ∧ journal (serve tasks c).2 = journal c ++ (taskRequest <$> tasks).
Proof.
  revert c. induction tasks as [|t tasks IH]; intros c Hrel Hdel; simpl.
  { split_and!; [done..|by rewrite app_nil_r]. }
  apply Forall_cons in Hdel as [Ht Hdel].
  destruct t as [| | |np]; try done. simpl. unfold DeleteObject. rewrite Hrel.
  set (c1 := setNetworkPolicies _ _).
  assert (Hrel1 : reliable c1) by done.
  destruct (IH c1 Hrel1 Hdel) as (Hok & Hsame & Hnps & Hj).
  destruct (serve tasks c1) as [e c2]. simpl in *. subst e.
  split_and!; [done|done| |].
  - intros k. rewrite Hnps. unfold c1. simpl.
    destruct (decide (k ∈ taskTarget <$> tasks)) as [Hin|Hnin];
      destruct (decide (k ∈ _ :: _)) as [Hin'|Hnin']; try done.
    + exfalso. apply Hnin'. by right.
    + apply elem_of_cons in Hin' as [->|?]; [|done]. apply lookup_delete_eq.
    + apply lookup_delete_ne. intros <-. apply Hnin'. by left.
  - rewrite Hj. unfold c1. simpl. by rewrite <- app_assoc.
Qed.

Lemma namespaceIsHandled_sameObjects_result r n c c' :
  sameObjects c c' → (namespaceIsHandled r n c').1 = (namespaceIsHandled r n c).1.
Proof.
  intros (_ & Hns & _ & Hf).
  unfold namespaceIsHandled, mbind, M_bind, wrap. rewrite !Get_Namespace_spec, Hns, Hf.
  destruct (faults c (GetNamespace n)); [done|].
  destruct (namespaces c !! n); [|done]. simpl. by destruct (decide _).
Qed.

Lemma namespaceIsHandled_journal r n c :
  journal (namespaceIsHandled r n c).2 = journal c ++ [GetNamespace n].
Proof.
  unfold namespaceIsHandled, mbind, M_bind, wrap. rewrite Get_Namespace_spec.
  destruct (faults c (GetNamespace n)); [done|].
  destruct (namespaces c !! n); [|done]. simpl. by destruct (decide _).
Qed.

Lemma namespaceIsHandled_reliable r n c namespace :
  reliable c → namespaces c !! n = Some namespace →
  ∃ handled, (namespaceIsHandled r n c).1 = Ok handled.
Proof.
  intros Hrel Hns. unfold namespaceIsHandled, mbind, M_bind, wrap.
  rewrite Get_Namespace_spec, Hrel, Hns. simpl. destruct (decide _); by eexists.
Qed.

End Cleanup.

Section Inactive.
Context `{External}.

Lemma namespaceIsHandled_reliable_eq r n c namespace :
  reliable c → namespaces c !! n = Some namespace →
  namespaceIsHandled r n c
  = (Ok (if decide (length (selectors r) = 0%nat) then true
         else existsb (λ selector, labels.Matches selector (metav1.Labels namespace))
                (selectors r)),
     record c (GetNamespace n)).
Proof.
  intros Hrel Hns. unfold namespaceIsHandled, mbind, M_bind, wrap.
  rewrite Get_Namespace_spec, Hrel, Hns. simpl. by destruct (decide _).
Qed.

(** With well-keyed policies, the targets of the listed objects are the keys
    of the stored policies that carry the wanted labels. *)
Lemma listed_targets (want : list (string * string)) (c : Cluster) (k : string * string) :
  wellKeyed c →
  k ∈ (λ m, (metav1.Namespace m, metav1.Name m))
        <$> filter (λ meta, matchingLabels want meta = true)
              (map_to_list (networkingv1.ObjectMeta <$> networkPolicies c)).*2
  ↔ ∃ np, networkPolicies c !! k = Some np
          ∧ matchingLabels want (networkingv1.ObjectMeta np) = true.
Proof.
  intros Hwf. rewrite list_elem_of_fmap. split.
  - intros (m & -> & Hin). apply list_elem_of_filter in Hin as [Hm Hin].
    apply list_elem_of_fmap in Hin as ([k' m'] & -> & Hin).
    apply elem_of_map_to_list in Hin. rewrite lookup_fmap in Hin.
    destruct (networkPolicies c !! k') as [np|] eqn:Hk'; [|done].
    simpl in Hin. injection Hin as <-. exists np. split; [|done].
    simpl. by rewrite <- (Hwf k' np Hk').
  - intros (np & Hk & Hm). exists (networkingv1.ObjectMeta np). split.
    + by apply Hwf.
    + apply list_elem_of_filter. split; [done|].
      apply list_elem_of_fmap. exists (k, networkingv1.ObjectMeta np). split; [done|].
      apply elem_of_map_to_list. by rewrite lookup_fmap, Hk.
Qed.

(** C6 (amended).  For a stored Service that is being deleted, selects no
    pods, or lives in a namespace that is not handled, on a store that serves
    every request and holds the namespace of the Service: [Reconcile]
    succeeds; without the finalizer it only reads; with the finalizer it
    deletes exactly the NetworkPolicies that carry the back-reference labels
    of the Service, and after these deletes patches the stored Service, whose
    finalizers are then the former ones without the finalizer of the
    controller. *)
Theorem Reconcile_inactive (r : Reconciler) (sched : Scheduler) (request : string * string)
    (c : Cluster) (service : corev1.Service) (namespace : metav1.PartialObjectMetadata) :
  fair sched → reliable c → wellKeyed c →
  services c !! request = Some service →
  request = (serviceNamespace service, serviceName service) →
  namespaces c !! request.1 = Some namespace →
  metav1.DeletionTimestamp (corev1.ObjectMeta service) ≠ None
    ∨ corev1.Selector (corev1.Spec service) = None
    ∨ (namespaceIsHandled r request.1 c).1 = Ok false →
  let c' := (Reconcile r sched request c).2 in
  let reads :=
    [GetService request.1 request.2; ListNetworkPolicies; GetNamespace request.1] in
  (Reconcile r sched request c).1 = Ok reconcile.empty
  ∧ namespaces c' = namespaces c
  ∧ if ContainsFinalizer (corev1.ObjectMeta service) finalizerName then
      (∀ k, networkPolicies c' !! k =
            match networkPolicies c !! k with
            | Some np =>
                if matchingLabels (backReferenceLabels service) (networkingv1.ObjectMeta np)
                then None else Some np
            | None => None
            end)
      ∧ (∃ finalizers,
           services c'
           = <[request := corev1.withObjectMeta service
                            (metav1.SetFinalizers (corev1.ObjectMeta service) finalizers)]>
               (services c)
           ∧ ¬ (finalizerName ∈ finalizers)
           ∧ ∀ f, f ≠ finalizerName →
               (f ∈ finalizers ↔ f ∈ metav1.Finalizers (corev1.ObjectMeta service)))
      ∧ ∃ deletes,
          journal c' = journal c ++ reads ++ deletes
                         ++ [PatchFinalizers request.1 request.2]
          ∧ Forall (λ req, isDeleteRequest req = true) deletes
    else
      services c' = services c ∧ networkPolicies c' = networkPolicies c
      ∧ journal c' = journal c ++ reads.
Proof.
  intros Hfair Hrel Hwf Hsvc -> Hns Hinactive. simpl in Hns, Hinactive. simpl.
  unfold Reconcile. simpl. rewrite Get_Service_spec, Hrel, Hsvc.
  set (c1 := record c _).
  unfold reconcileService.
  erewrite bind_Ok;
    [|apply wrap_Ok; rewrite List_NetworkPolicies_spec;
      change (faults c1) with (faults c); rewrite Hrel; reflexivity].
  set (l := filter _ _). set (c2 := record c1 _).
  erewrite bind_Ok;
    [|apply wrap_Ok; by apply (namespaceIsHandled_reliable_eq r _ c2 namespace)].
  set (handled := if decide _ then true else _). set (c3 := record c2 _).
  assert (Hcond : bool_decide (metav1.DeletionTimestamp (corev1.ObjectMeta service) ≠ None)
                  || bool_decide (corev1.Selector (corev1.Spec service) = None)
                  || negb handled = true).
  { destruct Hinactive as [Hd|[Hs|Hh]].
    - by rewrite (bool_decide_eq_true_2 _ Hd).
    - rewrite (bool_decide_eq_true_2 _ Hs). by rewrite orb_true_r.
    - rewrite (namespaceIsHandled_reliable_eq r _ c namespace) in Hh by done.
      simpl in Hh. injection Hh as Hh. fold handled in Hh. rewrite Hh.
      by rewrite orb_true_r. }
  rewrite Hcond. unfold reconcileInactive.
  destruct (ContainsFinalizer (corev1.ObjectMeta service) finalizerName) eqn:Hfin; simpl;
    [|split_and!; try done; unfold c3, c2, c1; simpl; by rewrite <- !app_assoc].
  unfold mbind, M_bind. rewrite Parallel_spec.
  set (tasks := served _ _).
  assert (Hperm : Permutation tasks (deleteObjectTask <$> l)).
  { unfold tasks. rewrite served_fair by done.
    by rewrite deleteStalePolicies_nil. }
  assert (Hdel : Forall (λ t, isDeleteTask t = true) tasks).
  { rewrite Hperm. apply Forall_fmap, Forall_true. done. }
  destruct (serve_deletes tasks c3 Hrel Hdel) as (Hok & Hsame & Hnps & Hj).
  rewrite Hok. destruct Hsame as (Hs4 & Hn4 & _ & Hf4).
  change (services (serve tasks c3).2 = services c) in Hs4.
  change (namespaces (serve tasks c3).2 = namespaces c) in Hn4.
  change (faults (serve tasks c3).2 = faults c) in Hf4.
  set (c4 := (serve tasks c3).2) in *.
  unfold wrap, RemoveFinalizers. rewrite patchFinalizers_spec.
  unfold serviceNamespace, serviceName. simpl.
  fold (serviceNamespace service) (serviceName service).
  rewrite Hf4, Hrel, Hs4, Hsvc. simpl.
  split_and!; [done|exact Hn4| | |].
  2: { exists (filter (λ f, f ≠ finalizerName) (metav1.Finalizers (corev1.ObjectMeta service))).
       split_and!; [done| |].
       - intros [Hne _]%list_elem_of_filter. by apply Hne.
       - intros f Hf. rewrite list_elem_of_filter. split; [by intros [_ ?]|by intros ?]. }
  - intros k. rewrite Hnps. simpl.
    pose proof (listed_targets (backReferenceLabels service) c k Hwf) as Hl.
    fold l in Hl.
    assert (Htargets : k ∈ taskTarget <$> tasks
              ↔ k ∈ (λ m, (metav1.Namespace m, metav1.Name m)) <$> l).
    { rewrite Hperm, <- list_fmap_compose. done. }
    destruct (decide (k ∈ taskTarget <$> tasks)) as [Hin|Hnin].
    + apply Htargets, Hl in Hin as (np & Hk & Hm). rewrite Hk.
      simpl in Hm. by rewrite Hm.
    + destruct (networkPolicies c !! k) as [np|] eqn:Hk; [|done].
      destruct (matchingLabels (backReferenceLabels service) (networkingv1.ObjectMeta np))
        eqn:Hm.
      * exfalso. apply Hnin, Htargets, Hl. by exists np.
      * simpl in Hm. by rewrite Hm.
  - exists (taskRequest <$> tasks). split.
    + rewrite Hj. unfold c3, c2, c1. simpl. by rewrite <- !app_assoc.
    + apply Forall_fmap. eapply Forall_impl; [exact Hdel|].
      by intros [] ?.
Qed.

End Inactive.

Lemma fair_inOrder : fair inOrder.
Proof. intros n. reflexivity. Qed.

Lemma Reconcile_inactive_witness :
  let c := Fixtures.clusterUnselected in
  let out := @Reconcile Fixtures.ext {| selectors := [] |} inOrder ("ns1", "svc1") c in
  out.1 = Ok reconcile.empty
  ∧ networkPolicies out.2 !! ("ns1", "ingress-to-svc1-tcp-80") = None
  ∧ networkPolicies out.2 !! ("ns1", "deny-all") = Some Fixtures.foreignPolicy
  ∧ ∃ stored, services out.2 !! ("ns1", "svc1") = Some stored
      ∧ ¬ (finalizerName ∈ metav1.Finalizers (corev1.ObjectMeta stored)).
Proof.
  intros c out.
  destruct (@Reconcile_inactive Fixtures.ext {| selectors := [] |} inOrder ("ns1", "svc1") c
              Fixtures.svcUnselected (Fixtures.namespaceObject "ns1" ∅ None))
    as (Hres & _ & Hfin).
  - exact fair_inOrder.
  - intros req. reflexivity.
  - change (map_Forall (λ k np, k = (metav1.Namespace (networkingv1.ObjectMeta np),
                                     metav1.Name (networkingv1.ObjectMeta np)))
              (networkPolicies c)).
    apply (bool_decide_unpack _). vm_compute. exact I.
  - vm_compute. reflexivity.
  - reflexivity.
  - vm_compute. reflexivity.
  - right. left. reflexivity.
  - change (ContainsFinalizer (corev1.ObjectMeta Fixtures.svcUnselected) finalizerName)
      with true in Hfin.
    destruct Hfin as (Hnps & (finalizers & Hsvc & Hnot & _) & _).
    split_and!.
    + exact Hres.
    + rewrite Hnps. vm_compute. reflexivity.
    + rewrite Hnps. vm_compute. reflexivity.
    + fold c out in Hsvc. rewrite Hsvc. eexists. split; [apply lookup_insert_eq|].
      exact Hnot.
Defined.

(** C6 (as stated) fails: the Service [svc1] selects no pods any more and
    still has the finalizer and a derived policy.  When the store does not
    answer the fetch of its namespace, and also when the store serves every
    request but the object of the namespace is gone, [Reconcile] returns an
    error before it looks at the Service: the derived policy stays and so
    does the finalizer. *)
Lemma Reconcile_inactive_unfetched_namespace :
  let r := {| selectors := [] |} in
  let service := Fixtures.svcUnselected in
  let policy := Fixtures.ownedPolicy "ns1" "ingress-to-svc1-tcp-80"
                  [networkingv1.PolicyTypeIngress] in
  corev1.Selector (corev1.Spec service) = None
  ∧ finalizerName ∈ metav1.Finalizers (corev1.ObjectMeta service)
  ∧ ∀ c, c = FaultFixtures.clusterNamespaceTimeout
         ∨ c = FaultFixtures.clusterNamespaceGone →
      let out := @Reconcile Fixtures.ext r inOrder ("ns1", "svc1") c in
      services c !! ("ns1", "svc1") = Some service
      ∧ networkPolicies c !! ("ns1", "ingress-to-svc1-tcp-80") = Some policy
      ∧ isErr out.1 = true
      ∧ networkPolicies out.2 !! ("ns1", "ingress-to-svc1-tcp-80") = Some policy
      ∧ services out.2 !! ("ns1", "svc1") = Some service.
Proof.
  split_and!; [done|by left|].
  intros c [-> | ->]; split_and!; by vm_compute.
Qed.

(** ** The desired policies *)

Section Desired.
Context `{External}.

Lemma addTasks_fold (service : corev1.Service) (port : networkingv1.NetworkPolicyPort)
    (policyID podLabelSelector : string) (names : list string)
    (acc : list TaskFn * list string) :
  foldl
    (λ acc namespaceName,
       let matchLabels :=
         matchLabelsForServiceAndNamespace podLabelSelector service namespaceName in
       let ingressMeta :=
         ingressPolicyObjectMetaFor policyID (serviceNamespace service) namespaceName in
       let egressMeta :=
         egressPolicyObjectMetaFor policyID (serviceNamespace service) namespaceName in
       (acc.1 ++ [reconcileIngressPolicyTask service port ingressMeta namespaceName matchLabels;
                  reconcileEgressPolicyTask service port egressMeta namespaceName matchLabels],
        acc.2 ++ [key ingressMeta; key egressMeta]))
    acc names
  = (acc.1 ++ (names ≫= policyTasks service port policyID podLabelSelector),
     acc.2 ++ (taskKey <$> (names ≫= policyTasks service port policyID podLabelSelector))).
Proof.
  revert acc. induction names as [|n names IH]; intros [tasks keys]; simpl.
  - by rewrite !app_nil_r.
  - rewrite IH. simpl. by rewrite <- !app_assoc.
Qed.

Lemma addTasks_spec (service : corev1.Service) (names : gset string)
    (port : networkingv1.NetworkPolicyPort) (custom : string)
    (acc acc' : list TaskFn * list string) :
  addTasksForRelevantNamespacesAndPort service names port custom acc = Ok acc' →
  ∃ policyID0,
    policyIDFor (serviceName service) port = Some policyID0
    ∧ let policyID := if decide (custom ≠ "") then policyID0 +:+ "-via-" +:+ custom
                      else policyID0 in
      let podLabelSelector := if decide (custom ≠ "") then custom else policyID0 in
      let added := elements names ≫= policyTasks service port policyID podLabelSelector in
      acc' = (acc.1 ++ added, acc.2 ++ (taskKey <$> added)).
Proof.
  unfold addTasksForRelevantNamespacesAndPort.
  destruct (policyIDFor (serviceName service) port) as [policyID0|]; [|done].
  intros [= <-]. exists policyID0. split; [done|]. simpl. apply addTasks_fold.
Qed.

Lemma policyTasks_upserts service port policyID podLabelSelector (names : list string) :
  Forall (λ t, isUpsertTask t = true)
    (names ≫= policyTasks service port policyID podLabelSelector).
Proof.
  induction names as [|n names IH]; simpl; [done|].
  apply Forall_cons. split; [done|]. apply Forall_cons. by split.
Qed.

Lemma aligned_app (acc : list TaskFn * list string) (added : list TaskFn) :
  aligned acc → Forall (λ t, isUpsertTask t = true) added →
  aligned (acc.1 ++ added, acc.2 ++ (taskKey <$> added)).
Proof.
  intros [Hk Hu] Ha. split; simpl.
  - by rewrite Hk, fmap_app.
  - by apply Forall_app.
Qed.

(** The loop over a port list: what was accumulated stays, aligned stays
    aligned, and every port gets its tasks for every relevant namespace. *)
Lemma forEachPort_spec (service : corev1.Service) (names : gset string)
    (ports : list networkingv1.NetworkPolicyPort) (custom : string)
    (acc acc' : list TaskFn * list string) :
  forEachPort service names ports custom acc = Ok acc' →
  (aligned acc → aligned acc')
  ∧ (∀ t, t ∈ acc.1 → t ∈ acc'.1)
  ∧ ∀ port n, port ∈ ports → n ∈ names →
      ∃ policyID0,
        policyIDFor (serviceName service) port = Some policyID0
        ∧ ∀ t, t ∈ policyTasks service port
                     (if decide (custom ≠ "") then policyID0 +:+ "-via-" +:+ custom
                      else policyID0)
                     (if decide (custom ≠ "") then custom else policyID0) n →
               t ∈ acc'.1.
Proof.
  revert acc. induction ports as [|port ports IH]; intros acc; simpl.
  - intros [= <-]. split_and!; [done..|]. intros ?? Hin. by apply elem_of_nil in Hin.
  - unfold mbind, result_bind.
    destruct (addTasksForRelevantNamespacesAndPort service names port custom acc)
      as [acc1|e] eqn:Hadd; [|done].
    intros Hrest. apply addTasks_spec in Hadd as (policyID0 & Hid & Hacc1). simpl in Hacc1.
    apply IH in Hrest as (Hal & Hmono & Hall). subst acc1. simpl in *.
    split_and!.
    + intros Hacc. apply Hal. apply aligned_app; [done|]. apply policyTasks_upserts.
    + intros t Ht. apply Hmono. apply elem_of_app. by left.
    + intros port' n [->|Hin]%elem_of_cons Hn.
      * exists policyID0. split; [done|]. intros t Ht. apply Hmono.
        apply elem_of_app. right. apply list_elem_of_bind. exists n.
        split; [done|]. by apply elem_of_elements.
      * by apply Hall.
Qed.

Lemma policyIDFor_policyPortOf (service : corev1.Service) (p : corev1.ServicePort) :
  policyIDFor (serviceName service) (policyPortOf p)
  = Some (serviceName service +:+ "-" +:+ ToLower (corev1.Protocol p) +:+ "-"
            +:+ intstr.String (Some (corev1.TargetPort p))).
Proof. done. Qed.

(** The ports of the Service itself never make the derivation fail. *)
Lemma forEachPort_service_ports (service : corev1.Service) (names : gset string)
    (ps : list corev1.ServicePort) (acc : list TaskFn * list string) :
  ∃ acc', forEachPort service names (policyPortOf <$> ps) "" acc = Ok acc'.
Proof.
  revert acc. induction ps as [|p ps IH]; intros acc; simpl; [by eexists|].
  unfold mbind, result_bind, addTasksForRelevantNamespacesAndPort. simpl. apply IH.
Qed.

Lemma reconcileDesiredPolicies_spec (service : corev1.Service) (names : gset string)
    (tasks : list TaskFn) (keys : list string) :
  reconcileDesiredPolicies service names = Ok (tasks, keys) →
  keys = taskKey <$> tasks
  ∧ Forall (λ t, isUpsertTask t = true) tasks
  ∧ (∀ p n t, p ∈ corev1.Ports (corev1.Spec service) → n ∈ names →
       t ∈ portTasks service p n → t ∈ tasks)
  ∧ (∀ v, annotation service NetworkingFromWorldToPorts = Some v →
       ∃ before, tasks = before ++ [fromWorldTask service]).
Proof.
  unfold reconcileDesiredPolicies, mbind, result_bind.
  destruct (forEachPort service names _ "" ([], [])) as [acc1|e] eqn:Hports; [|done].
  apply forEachPort_spec in Hports as (Hal1 & _ & Hall1).
  assert (Haligned1 : aligned acc1) by (by apply Hal1).
  assert (Hown : ∀ p n t, p ∈ corev1.Ports (corev1.Spec service) → n ∈ names →
                   t ∈ portTasks service p n → t ∈ acc1.1).
  { intros p n t Hp Hn Ht.
    destruct (Hall1 (policyPortOf p) n) as (policyID0 & Hid & Hin); [|done|].
    { apply list_elem_of_fmap. by exists p. }
    rewrite policyIDFor_policyPortOf in Hid. injection Hid as <-.
    apply Hin. by rewrite !decide_False by (by intros []). }
  set (second := if decide _ then _ else _).
  assert (Hsecond : ∀ acc2, second = Ok acc2 →
            aligned acc2 ∧ ∀ t, t ∈ acc1.1 → t ∈ acc2.1).
  { intros acc2. unfold second. destruct (decide (_ ∧ _)) as [_|_].
    - destruct (unmarshalPorts _) as [ports|e]; simpl; [|done].
      intros Hcustom. apply forEachPort_spec in Hcustom as (Hal2 & Hmono & _).
      split; [by apply Hal2|done].
    - by intros [= <-]. }
  destruct second as [acc2|e]; [|done].
  destruct (Hsecond acc2 eq_refl) as [[Hk2 Hu2] Hmono2].
  destruct (annotation service NetworkingFromWorldToPorts) as [v|].
  - intros [= <- <-]. split_and!.
    + by rewrite fmap_app, Hk2.
    + apply Forall_app. split; [done|]. by apply Forall_singleton.
    + intros p n t Hp Hn Ht. apply elem_of_app. left. eauto.
    + intros _ _. by exists acc2.1.
  - intros [= Hacc]. destruct acc2 as [tasks2 keys2]. simpl in *.
    injection Hacc as <- <-. split_and!; [done|done|eauto|done].
Qed.

End Desired.

(** ** The from-world policy *)

Section FromWorld.
Context `{External}.

Lemma AddFinalizers_result (service service' : corev1.Service) (f : string) (c c' : Cluster) :
  AddFinalizers service f c = (Ok service', c') →
  service' = corev1.withObjectMeta service (AddFinalizer (corev1.ObjectMeta service) f).
Proof.
  unfold AddFinalizers, mbind, M_bind.
  destruct (patchFinalizers _ c) as [[[]|e] c1]; [|done]. by intros [= <- _].
Qed.

Lemma AddFinalizer_fields (meta : metav1.ObjectMeta) (f : string) :
  metav1.Name (AddFinalizer meta f) = metav1.Name meta
  ∧ metav1.Namespace (AddFinalizer meta f) = metav1.Namespace meta
  ∧ metav1.Annotations (AddFinalizer meta f) = metav1.Annotations meta.
Proof. unfold AddFinalizer. by destruct (ContainsFinalizer meta f). Qed.

(** The Service after the finalizer step of the active branch. *)
Lemma ensureFinalizer_cases (service : corev1.Service) (c : Cluster) :
  let step := ensureFinalizer service c in
  samePolicies c step.2
  ∧ ∀ service', step.1 = Ok service' →
      serviceName service' = serviceName service
      ∧ serviceNamespace service' = serviceNamespace service
      ∧ metav1.Annotations (corev1.ObjectMeta service')
        = metav1.Annotations (corev1.ObjectMeta service)
      ∧ corev1.Spec service' = corev1.Spec service.
Proof.
  unfold ensureFinalizer. simpl. destruct (ContainsFinalizer _ _); simpl.
  - split; [done|]. by intros ? [= <-].
  - unfold wrap.
    pose proof (AddFinalizers_samePolicies service finalizerName c) as Hsame.
    destruct (AddFinalizers service finalizerName c) as [[s1|e] c1] eqn:Hadd; simpl.
    + split; [done|]. intros ? [= <-]. apply AddFinalizers_result in Hadd as ->.
      unfold serviceName, serviceNamespace. simpl.
      destruct (AddFinalizer_fields (corev1.ObjectMeta service) finalizerName) as (-> & -> & ->).
      done.
    + split; [done|]. done.
Qed.

Lemma key_target (m1 m2 : metav1.ObjectMeta) :
  key m1 ≠ key m2 →
  (metav1.Namespace m1, metav1.Name m1) ≠ (metav1.Namespace m2, metav1.Name m2).
Proof. intros Hne [= Hns Hn]. apply Hne. unfold key. by rewrite Hns, Hn. Qed.


Lemma annotation_same (service service' : corev1.Service) (k : string) :
  metav1.Annotations (corev1.ObjectMeta service')
    = metav1.Annotations (corev1.ObjectMeta service) →
  annotation service' k = annotation service k.
Proof. unfold annotation. by intros ->. Qed.




End FromWorld.


(** ** One fan-out for upserts and deletes *)

Lemma fair_lastFirst : fair lastFirst.
Proof. intros n. unfold lastFirst. apply reverse_Permutation. Qed.

(** C1 (as stated) fails: [svc1] owns a policy of a port it no longer serves;
    a scheduler that serves the fan-out last task first is fair, and with it
    the stale policy is deleted before any desired policy is upserted. *)
Lemma Reconcile_delete_before_upsert :
  fair lastFirst
  ∧ ∃ i j d u,
      let requests :=
        journal (@Reconcile Fixtures.ext {| selectors := [] |} lastFirst ("ns1", "svc1")
                   Fixtures.clusterStale).2 in
      requests !! i = Some d ∧ requests !! j = Some u
      ∧ isDeleteRequest d = true ∧ isUpsertRequest u = true ∧ (i < j)%nat
      ∧ ¬ upsertsBeforeDeletes requests.
Proof.
  split; [exact fair_lastFirst|].
  exists 4%nat, 5%nat, (DeleteNetworkPolicy "ns1" "ingress-to-svc1-tcp-8080"),
    (UpsertNetworkPolicy "ns1" "egress-to-svc1-tcp-80").
  assert (Hd : journal (@Reconcile Fixtures.ext {| selectors := [] |} lastFirst
                          ("ns1", "svc1") Fixtures.clusterStale).2 !! 4%nat
               = Some (DeleteNetworkPolicy "ns1" "ingress-to-svc1-tcp-8080"))
    by (vm_compute; reflexivity).
  assert (Hu : journal (@Reconcile Fixtures.ext {| selectors := [] |} lastFirst
                          ("ns1", "svc1") Fixtures.clusterStale).2 !! 5%nat
               = Some (UpsertNetworkPolicy "ns1" "egress-to-svc1-tcp-80"))
    by (vm_compute; reflexivity).
  split_and!; [done|done|done|done|lia|].
  intros Hbarrier. specialize (Hbarrier _ _ _ _ Hd Hu eq_refl eq_refl). lia.
Qed.

Lemma taskRequest_kind (t : TaskFn) :
  isUpsertRequest (taskRequest t) = isUpsertTask t
  ∧ isDeleteRequest (taskRequest t) = isDeleteTask t.
Proof. by destruct t. Qed.

Lemma taskRequest_upsert (t : TaskFn) (namespace name : string) :
  taskRequest t = UpsertNetworkPolicy namespace name →
  isUpsertTask t = true ∧ taskKey t = namespace +:+ "/" +:+ name.
Proof. destruct t; simpl; intros [= <- <-]; done. Qed.

Lemma taskRequest_delete (t : TaskFn) (namespace name : string) :
  taskRequest t = DeleteNetworkPolicy namespace name →
  isDeleteTask t = true ∧ taskKey t = namespace +:+ "/" +:+ name.
Proof. destruct t; simpl; intros [= <- <-]; done. Qed.

(** Upsert requests followed by delete requests respect the barrier. *)
Lemma upsertsBeforeDeletes_app (ups dels : list Request) :
  Forall (λ req, isUpsertRequest req = true) ups →
  Forall (λ req, isDeleteRequest req = true) dels →
  upsertsBeforeDeletes (ups ++ dels).
Proof.
  intros Hups Hdels i j d u Hi Hj Hd Hu.
  apply lookup_app_Some in Hi as [Hi|[Hlen Hi]].
  - apply list_elem_of_lookup_2 in Hi.
    rewrite Forall_forall in Hups. specialize (Hups d Hi).
    by destruct d.
  - apply lookup_app_Some in Hj as [Hj|[_ Hj]].
    + apply lookup_lt_Some in Hj. lia.
    + apply list_elem_of_lookup_2 in Hj.
      rewrite Forall_forall in Hdels. specialize (Hdels u Hj).
      by destruct u.
Qed.

(** ** Malformed annotations *)

Section Malformed.
Context `{External}.

Lemma forEachSelector_malformed (sels : list metav1.LabelSelector)
    (sel : metav1.LabelSelector) (acc : gset string) (c : Cluster) :
  sel ∈ sels → isErr (LabelSelectorAsSelector sel) = true →
  isErr (forEachSelector sels acc c).1 = true.
Proof.
  revert acc c. induction sels as [|s sels IH]; intros acc c Hin Hbad.
  { by apply elem_of_nil in Hin. }
  simpl. unfold mbind, M_bind.
  apply elem_of_cons in Hin as [->|Hin].
  - unfold insertMatchingNamespaces, mbind, M_bind, lift.
    by destruct (LabelSelectorAsSelector s).
  - destruct (insertMatchingNamespaces s acc c) as [[acc'|e] c1]; [|done].
    by apply IH.
Qed.

Lemma fetchRelevantNamespaceNames_malformed (service : corev1.Service) (c : Cluster) :
  malformedNamespaceSelectors service →
  isErr (fetchRelevantNamespaceNames service c).1 = true.
Proof.
  intros (v & Hv & Hbad). unfold fetchRelevantNamespaceNames, mbind, M_bind, lift.
  rewrite Hv. destruct Hbad as [Hbad|(sels & sel & Hsels & Hin & Hbad)].
  - by destruct (unmarshalLabelSelectors v).
  - rewrite Hsels. simpl. by apply (forEachSelector_malformed sels sel).
Qed.

Lemma reconcileDesiredPolicies_malformed (service : corev1.Service) (names : gset string) :
  malformedAllowedPorts service →
  isErr (reconcileDesiredPolicies service names) = true.
Proof.
  intros (Hcustom & Hallowed & Hbad). unfold reconcileDesiredPolicies, mbind, result_bind.
  destruct (forEachPort_service_ports service names
              (corev1.Ports (corev1.Spec service)) ([], [])) as [acc1 ->].
  rewrite decide_True by done.
  by destruct (unmarshalPorts _).
Qed.

Lemma runTask_fromWorld_malformed (service : corev1.Service) (c : Cluster) :
  malformedFromWorld service →
  ∃ e, runTask (fromWorldTask service) c = (Err e, c).
Proof.
  intros (v & Hv & Hbad). simpl.
  unfold reconcileIngressFromWorldPolicy, mbind, M_bind, lift, annotationValue.
  rewrite Hv. simpl. destruct (unmarshalPorts v); [done|]. by eexists.
Qed.

Lemma malformed_same (service service' : corev1.Service) :
  metav1.Annotations (corev1.ObjectMeta service')
    = metav1.Annotations (corev1.ObjectMeta service) →
  (malformedNamespaceSelectors service → malformedNamespaceSelectors service')
  ∧ (malformedAllowedPorts service → malformedAllowedPorts service')
  ∧ (malformedFromWorld service → malformedFromWorld service').
Proof.
  intros Hann.
  unfold malformedNamespaceSelectors, malformedAllowedPorts, malformedFromWorld,
    annotationValue.
  by rewrite !(annotation_same service service').
Qed.

(** The active branch fails before the fan-out when the namespace selectors
    or the custom-selector ports do not parse: no policy is touched. *)
Lemma reconcileActive_malformed_early (service : corev1.Service) (sched : Scheduler)
    (l : list metav1.PartialObjectMetadata) (c : Cluster) :
  malformedNamespaceSelectors service ∨ malformedAllowedPorts service →
  isErr (reconcileActive sched service l c).1 = true
  ∧ networkPolicies (reconcileActive sched service l c).2 = networkPolicies c.
Proof.
  intros Hbad.
  cut (∀ out, reconcileActive sched service l c = out →
         isErr out.1 = true ∧ networkPolicies out.2 = networkPolicies c); [by eauto|].
  intros out. unfold reconcileActive, mbind at 1, M_bind at 1.
  destruct (ensureFinalizer_cases service c) as [Hsame1 Hsvc].
  set (step := ensureFinalizer service c) in *.
  assert (Hnps1 : networkPolicies step.2 = networkPolicies c)
    by (by destruct Hsame1 as (_ & -> & _)).
  destruct step as [[service'|e] c1]; simpl in *; [|by intros <-].
  destruct (Hsvc service' eq_refl) as (_ & _ & Hann & _).
  destruct (malformed_same service service' Hann) as (Hns & Hap & _).
  unfold mbind at 1, M_bind at 1.
  pose proof (fetchRelevantNamespaceNames_sameObjects service' c1) as (_ & _ & Hnps2 & _).
  pose proof (fetchRelevantNamespaceNames_malformed service' c1) as Hfetch.
  destruct (fetchRelevantNamespaceNames service' c1) as [[names|e] c2]; simpl in *;
    [|intros <-; simpl; by rewrite Hnps2].
  destruct Hbad as [Hbad|Hbad]; [by specialize (Hfetch (Hns Hbad))|].
  unfold mbind at 1, M_bind at 1, lift.
  pose proof (reconcileDesiredPolicies_malformed service' names (Hap Hbad)) as Hdesired.
  destruct (reconcileDesiredPolicies service' names) as [desired|e]; [done|].
  intros <-. simpl. by rewrite Hnps2.
Qed.

(** The active branch fails when the from-world ports do not parse. *)
Lemma reconcileActive_malformed_fromWorld (service : corev1.Service) (sched : Scheduler)
    (l : list metav1.PartialObjectMetadata) (c : Cluster) :
  fair sched → malformedFromWorld service →
  isErr (reconcileActive sched service l c).1 = true.
Proof.
  intros Hfair Hbad. unfold reconcileActive, mbind at 1, M_bind at 1.
  destruct (ensureFinalizer_cases service c) as [_ Hsvc].
  set (step := ensureFinalizer service c) in *.
  destruct step as [[service'|e] c1]; simpl in *; [|done].
  destruct (Hsvc service' eq_refl) as (_ & _ & Hann & _).
  destruct (malformed_same service service' Hann) as (_ & _ & Hfw).
  specialize (Hfw Hbad).
  unfold mbind at 1, M_bind at 1.
  destruct (fetchRelevantNamespaceNames service' c1) as [[names|e] c2]; simpl; [|done].
  unfold mbind at 1, M_bind at 1, lift.
  destruct (reconcileDesiredPolicies service' names) as [[tasks keys]|e] eqn:Hdesired;
    [|done].
  unfold mbind, M_bind. rewrite Parallel_spec. simpl.
  destruct Hfw as (v & Hv & Hparse).
  apply reconcileDesiredPolicies_spec in Hdesired as (_ & _ & _ & Hlast).
  destruct (Hlast v Hv) as [before ->].
  set (fns := (before ++ [fromWorldTask service']) ++ deleteStalePolicies l keys).
  destruct (serve_error (served (sched (length fns)) fns) (fromWorldTask service')) with (c := c2)
    as [e He].
  - rewrite served_fair by done. unfold fns. rewrite <- app_assoc.
    apply elem_of_app. right. left.
  - intros c0.
    destruct (runTask_fromWorld_malformed service' c0) as [e ->]; [|done].
    by exists v.
  - by rewrite He.
Qed.

End Malformed.

(** C2 (as stated) fails: for [svc1] with a from-world annotation that is not
    JSON, [Reconcile] returns an error and yet creates the ingress policy of
    port 80. *)
Lemma Reconcile_malformed_partial_application :
  let out := @Reconcile Fixtures.ext {| selectors := [] |} inOrder ("ns1", "svc1")
               Fixtures.clusterWorldMalformed in
  @malformedFromWorld Fixtures.ext Fixtures.svcWorldMalformed
  ∧ isErr out.1 = true
  ∧ networkPolicies Fixtures.clusterWorldMalformed !! ("ns1", "ingress-to-svc1-tcp-80") = None
  ∧ is_Some (networkPolicies out.2 !! ("ns1", "ingress-to-svc1-tcp-80")).
Proof.
  split_and!.
  - exists "{". by vm_compute.
  - by vm_compute.
  - by vm_compute.
  - vm_compute. by eexists.
Qed.

(** ** Schedulers that agree *)

Section SchedulerExt.
Context `{External}.

Lemma Parallel_ext (s1 s2 : Scheduler) (fns : list TaskFn) (c : Cluster) :
  (∀ n, s1 n = s2 n) → Parallel s1 fns c = Parallel s2 fns c.
Proof. intros Hs. unfold Parallel. by rewrite Hs. Qed.

Lemma reconcileInactive_ext (s1 s2 : Scheduler) service l (c : Cluster) :
  (∀ n, s1 n = s2 n) → reconcileInactive s1 service l c = reconcileInactive s2 service l c.
Proof.
  intros Hs. unfold reconcileInactive. destruct (negb _); [done|].
  unfold mbind, M_bind. by rewrite (Parallel_ext s1 s2).
Qed.

Lemma reconcileActive_ext (s1 s2 : Scheduler) service l (c : Cluster) :
  (∀ n, s1 n = s2 n) → reconcileActive s1 service l c = reconcileActive s2 service l c.
Proof.
  intros Hs. unfold reconcileActive, mbind, M_bind.
  destruct (ensureFinalizer service c) as [[service'|e] c1]; [|done].
  destruct (fetchRelevantNamespaceNames service' c1) as [[names|e] c2]; [|done].
  destruct (lift _ c2) as [[desired|e] c3]; [|done].
  by rewrite (Parallel_ext s1 s2).
Qed.

Lemma Reconcile_ext (r : Reconciler) (s1 s2 : Scheduler) request (c : Cluster) :
  (∀ n, s1 n = s2 n) → Reconcile r s1 request c = Reconcile r s2 request c.
Proof.
  intros Hs. unfold Reconcile.
  destruct (Get_Service _ _ c) as [[service|e] c1]; [|done].
  unfold reconcileService, mbind, M_bind.
  destruct (wrap _ (List_NetworkPolicies _) c1) as [[l|e] c2]; [|done].
  destruct (wrap _ (namespaceIsHandled r _) c2) as [[handled|e] c3]; [|done].
  destruct (_ || _ || _).
  - by apply reconcileInactive_ext.
  - by apply reconcileActive_ext.
Qed.

End SchedulerExt.

(** ** The keys of the tasks of a port; the schedules of two tasks *)

Lemma portTasks_keys (service : corev1.Service) (p : corev1.ServicePort) (n : string) :
  taskKey <$> portTasks service p n
  = (λ kind, derivationKey service
               {| dProtocol := corev1.Protocol p; dPort := corev1.TargetPort p;
                  dCustomPodLabelSelector := ""; dNamespace := n; dKind := kind |})
      <$> [IngressPolicy; EgressPolicy].
Proof. done. Qed.

Lemma fair_two (sched : Scheduler) :
  fair sched → sched 2%nat = [0; 1]%nat ∨ sched 2%nat = [1; 0]%nat.
Proof.
  intros Hfair. specialize (Hfair 2%nat). simpl in Hfair. symmetry in Hfair.
  by apply Permutation_length_2_inv in Hfair.
Qed.

(** ** The progressing check waits for the apply *)

Section Progressing.
Context `{progressing.Helpers}.

(** C8 (amended).  While the Applied condition of a fetched ManagedResource is
    missing, [False] or [Progressing], the progressing reconciler neither
    reads a workload nor updates a status: its only request is the fetch, the
    stores are as before, and it returns without error; it asks to be
    requeued after the sync period unless the ManagedResource is ignored, of
    a class it is not responsible for, or being deleted. *)
Theorem Reconcile_defers_progressing (r : progressing.Reconciler) (req : string * string)
    (w w1 : progressing.World) (mr : progressing.ManagedResource) :
  progressing.Get_ManagedResource req.1 req.2 w = (Ok mr, w1) →
  progressing.appliedPending mr = true →
  let out := progressing.Reconcile r req w in
  progressing.managedResources out.2 = progressing.managedResources w
  ∧ progressing.workloads out.2 = progressing.workloads w
  ∧ progressing.journal out.2
    = progressing.journal w ++ [progressing.GetManagedResource req.1 req.2]
  ∧ out.1 = Ok (if progressing.IsIgnored mr
                   || negb (progressing.Active mr).2
                   || negb (progressing.IsZero
                              (metav1.DeletionTimestamp (progressing.ObjectMeta mr)))
                then reconcile.empty else progressing.requeue r).
Proof.
  intros Hget Hpending. unfold progressing.Reconcile. rewrite Hget.
  assert (Hw1 : w1 = progressing.record w (progressing.GetManagedResource req.1 req.2)).
  { unfold progressing.Get_ManagedResource in Hget.
    destruct (progressing.faults w _); [done|].
    destruct (progressing.managedResources w !! _); by injection Hget as _ <-. }
  subst w1. rewrite Hpending.
  destruct (progressing.IsIgnored mr); [done|].
  destruct (negb (progressing.Active mr).2); [done|].
  by destruct (negb (progressing.IsZero _)).
Qed.

End Progressing.

(** C8 (as stated) fails: an ignored ManagedResource whose apply has failed is
    in the deferred state, and the reconciler returns without asking to be
    requeued. *)
Lemma Reconcile_ignored_not_requeued :
  let out := @progressing.Reconcile ProgressingFixtures.helpers
               ProgressingFixtures.everyMinute ("garden", "mr")
               (ProgressingFixtures.worldOf ProgressingFixtures.ignoredFailed) in
  @progressing.appliedPending ProgressingFixtures.helpers ProgressingFixtures.ignoredFailed
    = true
  ∧ out.1 = Ok reconcile.empty
  ∧ reconcile.RequeueAfter reconcile.empty
    ≠ progressing.SyncPeriod ProgressingFixtures.everyMinute
  ∧ reconcile.Requeue reconcile.empty = false.
Proof. split_and!; [by vm_compute|by vm_compute|done|done]. Qed.

Lemma Reconcile_defers_progressing_witness :
  let w := ProgressingFixtures.worldOf ProgressingFixtures.applying in
  let out := @progressing.Reconcile ProgressingFixtures.helpers
               ProgressingFixtures.everyMinute ("garden", "mr") w in
  progressing.managedResources out.2 = progressing.managedResources w
  ∧ progressing.workloads out.2 = progressing.workloads w
  ∧ progressing.journal out.2
    = progressing.journal w ++ [progressing.GetManagedResource "garden" "mr"]
  ∧ out.1 = Ok (progressing.requeue ProgressingFixtures.everyMinute).
Proof.
  intros w out.
  apply (@Reconcile_defers_progressing ProgressingFixtures.helpers
           ProgressingFixtures.everyMinute ("garden", "mr") w
           (progressing.record w (progressing.GetManagedResource "garden" "mr"))
           ProgressingFixtures.applying).
  - vm_compute. reflexivity.
  - vm_compute. reflexivity.
Defined.
Section Upserts.
Context `{External}.

(** An upsert succeeds iff its annotation parses and the store serves its
    request; it then writes, under its target, the starting point with the
    stamped metadata and a spec that the task alone determines. *)
Lemma upsert_shape (t : TaskFn) (service : corev1.Service) :
  taskService t = Some service →
  ∃ description spec (parses : bool), ∀ c,
    ((runTask t c).1 = Ok tt ↔ parses = true ∧ faults c (taskRequest t) = None)
    ∧ ((runTask t c).1 = Ok tt →
       (runTask t c).2
       = setNetworkPolicies (record c (taskRequest t))
           (<[taskTarget t :=
                {| networkingv1.ObjectMeta :=
                     stamp service description (networkingv1.ObjectMeta (startingPoint t c));
                   networkingv1.Spec := spec |}]> (networkPolicies c))).
Proof.
  destruct t as [s port meta n ml|s port meta n ml|s meta|np]; simpl; intros [= <-].
  - eexists _, _, true. intros c. unfold reconcileIngressPolicy.
    rewrite GetAndCreateOrMergePatch_spec. simpl.
    destruct (faults c _); (split; [split; [done|by intros []]|]); [done|].
    intros _. reflexivity.
  - eexists _, _, true. intros c. unfold reconcileEgressPolicy.
    rewrite GetAndCreateOrMergePatch_spec. simpl.
    destruct (faults c _); (split; [split; [done|by intros []]|]); [done|].
    intros _. reflexivity.
  - unfold reconcileIngressFromWorldPolicy, mbind, M_bind, lift.
    destruct (unmarshalPorts _) as [ports|e]; simpl.
    + eexists _, _, true. intros c. rewrite GetAndCreateOrMergePatch_spec. simpl.
      destruct (faults c _); (split; [split; [done|by intros []]|]); [done|].
      intros _. reflexivity.
    + exists "", (networkingv1.Spec (networkingv1.newNetworkPolicy meta)), false.
      intros c. split; [split; [done|by intros []]|done].
Qed.

Lemma upsert_has_service (t : TaskFn) :
  isUpsertTask t = true → ∃ service, taskService t = Some service.
Proof. destruct t; try done; by eexists. Qed.



Lemma stamp_owned (service : corev1.Service) (d : string) (meta : metav1.ObjectMeta) :
  matchingLabels (backReferenceLabels service) (stamp service d meta) = true.
Proof.
  unfold matchingLabels, backReferenceLabels, stamp, setBackReferences. simpl.
  rewrite lookup_insert_ne by (by intros ?). rewrite !lookup_insert_eq.
  by rewrite !bool_decide_eq_true_2.
Qed.



(** X3.  What an upsert writes is found by the list call of the next
    reconciliation of the same Service: the written policy carries both
    back-reference labels. *)
Theorem upsert_is_listed (t : TaskFn) (service : corev1.Service) (c : Cluster) :
  taskService t = Some service →
  (runTask t c).1 = Ok tt →
  faults c ListNetworkPolicies = None →
  ∃ written l c',
    networkPolicies (runTask t c).2 !! taskTarget t = Some written
    ∧ List_NetworkPolicies (backReferenceLabels service) (runTask t c).2 = (Ok l, c')
    ∧ networkingv1.ObjectMeta written ∈ l.
Proof.
  intros Hs Hok Hlist.
  destruct (upsert_shape t service Hs) as (d & spec & parses & Hshape).
  destruct (Hshape c) as [_ Hc]. rewrite (Hc Hok). clear Hc.
  rewrite List_NetworkPolicies_spec. simpl. rewrite Hlist.
  eexists _, _, _. split; [apply lookup_insert_eq|]. split; [done|].
  apply list_elem_of_filter. split; [apply stamp_owned|].
  apply list_elem_of_fmap. eexists (taskTarget t, _). split; [done|].
  apply elem_of_map_to_list. rewrite lookup_fmap, lookup_insert_eq. done.
Qed.

End Upserts.



Lemma upsert_is_listed_witness :
  let t := reconcileIngressPolicyTask Fixtures.svc1 Fixtures.tcp80
             (metav1.newObjectMeta "ingress-to-svc1-tcp-80" "ns1") "ns1" Fixtures.peerLabel in
  ∃ written l c',
    networkPolicies (runTask (H := Fixtures.ext) t Fixtures.clusterA).2
      !! ("ns1", "ingress-to-svc1-tcp-80") = Some written
    ∧ List_NetworkPolicies (backReferenceLabels Fixtures.svc1)
        (runTask (H := Fixtures.ext) t Fixtures.clusterA).2 = (Ok l, c')
    ∧ networkingv1.ObjectMeta written ∈ l.
Proof.
  intros t.
  apply (upsert_is_listed (H := Fixtures.ext) t Fixtures.svc1 Fixtures.clusterA); reflexivity.
Defined.

(** ** The desired policies in closed form *)

Section DesiredExact.
Context `{External}.

Lemma policyIDFor_None (name : string) (port : networkingv1.NetworkPolicyPort) :
  policyIDFor name port = None ↔ networkingv1.Protocol port = None.
Proof. unfold policyIDFor. by destruct (networkingv1.Protocol port). Qed.

Lemma addTasks_exact (service : corev1.Service) (names : gset string)
    (port : networkingv1.NetworkPolicyPort) (custom : string)
    (acc : list TaskFn * list string) :
  addTasksForRelevantNamespacesAndPort service names port custom acc =
    if bool_decide (networkingv1.Protocol port ≠ None)
    then Ok (acc.1 ++ tasksForPort service names custom port,
             acc.2 ++ (taskKey <$> tasksForPort service names custom port))
    else Err ErrPanic.
Proof.
  unfold addTasksForRelevantNamespacesAndPort, tasksForPort, policyIDFor.
  destruct (networkingv1.Protocol port) as [protocol|]; [|done].
  rewrite bool_decide_eq_true_2 by done. by rewrite addTasks_fold.
Qed.

Lemma forEachPort_exact (service : corev1.Service) (names : gset string)
    (ports : list networkingv1.NetworkPolicyPort) (custom : string)
    (acc : list TaskFn * list string) :
  forEachPort service names ports custom acc =
    if haveProtocols ports
    then Ok (acc.1 ++ (ports ≫= tasksForPort service names custom),
             acc.2 ++ (taskKey <$> (ports ≫= tasksForPort service names custom)))
    else Err ErrPanic.
Proof.
  revert acc. induction ports as [|port ports IH]; intros acc.
  - destruct acc. cbn. by rewrite !app_nil_r.
  - cbn [forEachPort haveProtocols forallb]. rewrite addTasks_exact.
    destruct (bool_decide (networkingv1.Protocol port ≠ None)); [|done].
    unfold mbind at 1, result_bind. rewrite IH. cbn [fst snd andb].
    fold (haveProtocols ports). destruct (haveProtocols ports); [|done].
    by rewrite bind_cons, fmap_app, !app_assoc.
Qed.

Lemma haveProtocols_service_ports (ps : list corev1.ServicePort) :
  haveProtocols (policyPortOf <$> ps) = true.
Proof. induction ps as [|p ps IH]; [done|]. simpl. done. Qed.

(** [reconcileDesiredPolicies], by cases on its two ways to fail. *)
Lemma reconcileDesiredPolicies_exact (service : corev1.Service) (names : gset string) :
  reconcileDesiredPolicies service names =
    match allowedPorts service with
    | Err e =>
        Err (ErrWrap ("failed unmarshaling "
                        +:+ annotationValue service NetworkingFromPolicyAllowedPorts) e)
    | Ok ports =>
        if haveProtocols ports
        then Ok (desiredTasks service names ports, taskKey <$> desiredTasks service names ports)
        else Err ErrPanic
    end.
Proof.
  unfold reconcileDesiredPolicies, allowedPorts, desiredTasks.
  rewrite forEachPort_exact, haveProtocols_service_ports. simpl.
  unfold mbind at 1, result_bind at 1.
  destruct (decide (_ ∧ _)) as [Hc|Hc].
  - destruct (unmarshalPorts _) as [ports|e]; simpl; [|done].
    rewrite forEachPort_exact. simpl.
    destruct (haveProtocols ports); simpl; [|done].
    destruct (annotation service NetworkingFromWorldToPorts); simpl.
    + by rewrite !fmap_app, <- !app_assoc.
    + by rewrite !app_nil_r, !fmap_app.
  - simpl. destruct (annotation service NetworkingFromWorldToPorts); simpl.
    + by rewrite !fmap_app.
    + by rewrite !app_nil_r.
Qed.

End DesiredExact.

Section DesiredShape.
Context `{External}.

Lemma elem_of_tasksForPort (service : corev1.Service) (names : gset string) (custom : string)
    (port : networkingv1.NetworkPolicyPort) (t : TaskFn) :
  t ∈ tasksForPort service names custom port →
  ∃ n policyID podLabelSelector,
    n ∈ names ∧ t ∈ policyTasks service port policyID podLabelSelector n.
Proof.
  unfold tasksForPort. destruct (policyIDFor _ _) as [policyID0|].
  - intros (n & Ht & Hn)%list_elem_of_bind. apply elem_of_elements in Hn. eauto.
  - by intros ?%elem_of_nil.
Qed.

Lemma elem_of_desiredTasks (service : corev1.Service) (names : gset string)
    (ports : list networkingv1.NetworkPolicyPort) (t : TaskFn) :
  t ∈ desiredTasks service names ports →
  (∃ port n policyID podLabelSelector,
     n ∈ names ∧ t ∈ policyTasks service port policyID podLabelSelector n)
  ∨ (is_Some (annotation service NetworkingFromWorldToPorts) ∧ t = fromWorldTask service).
Proof.
  unfold desiredTasks. rewrite !elem_of_app. intros [Ht|[Ht|Ht]].
  - apply list_elem_of_bind in Ht as (port & Ht & _).
    apply elem_of_tasksForPort in Ht as (n & id & sel & ? & ?). left. eauto 6.
  - apply list_elem_of_bind in Ht as (port & Ht & _).
    apply elem_of_tasksForPort in Ht as (n & id & sel & ? & ?). left. eauto 6.
  - destruct (annotation service NetworkingFromWorldToPorts); [|by apply elem_of_nil in Ht].
    apply list_elem_of_singleton in Ht. right. split; [by eexists|done].
Qed.

Lemma reconcileDesiredPolicies_Ok (service : corev1.Service) (names : gset string)
    (tasks : list TaskFn) (keys : list string) :
  reconcileDesiredPolicies service names = Ok (tasks, keys) →
  ∃ ports, allowedPorts service = Ok ports ∧ haveProtocols ports = true
    ∧ tasks = desiredTasks service names ports ∧ keys = taskKey <$> tasks.
Proof.
  rewrite reconcileDesiredPolicies_exact.
  destruct (allowedPorts service) as [ports|e]; [|done].
  destruct (haveProtocols ports) eqn:Hp; [|done].
  intros [= <- <-]. by exists ports.
Qed.

(** X4.  Where the policies of a Service go: an egress policy goes into the
    relevant namespace it was derived for, every other policy into the
    namespace of the Service; no task of the desired set is a delete, and
    every task works for this Service. *)
Theorem desired_policies_namespaces (service : corev1.Service) (names : gset string)
    (tasks : list TaskFn) (keys : list string) (t : TaskFn) :
  reconcileDesiredPolicies service names = Ok (tasks, keys) →
  t ∈ tasks →
  taskService t = Some service
  ∧ match t with
    | reconcileEgressPolicyTask _ _ objectMeta namespaceName _ =>
        metav1.Namespace objectMeta = namespaceName ∧ namespaceName ∈ names
    | _ => (taskTarget t).1 = serviceNamespace service
    end.
Proof.
  intros (ports & _ & _ & -> & _)%reconcileDesiredPolicies_Ok Ht.
  apply elem_of_desiredTasks in Ht as [(port & n & id & sel & Hn & Ht)|[_ ->]]; [|done].
  unfold policyTasks in Ht. apply elem_of_cons in Ht as [->|Ht]; [done|].
  apply list_elem_of_singleton in Ht as ->. done.
Qed.

Lemma length_tasksForPort (service : corev1.Service) (names : gset string) (custom : string)
    (port : networkingv1.NetworkPolicyPort) :
  networkingv1.Protocol port ≠ None →
  length (tasksForPort service names custom port) = (2 * size names)%nat.
Proof.
  intros Hp. unfold tasksForPort, policyIDFor.
  destruct (networkingv1.Protocol port); [|done].
  unfold size, set_size. simpl.
  induction (elements names) as [|n l IH]; [done|].
  rewrite bind_cons, length_app, IH. simpl. lia.
Qed.

Lemma length_bind_tasksForPort (service : corev1.Service) (names : gset string)
    (custom : string) (ports : list networkingv1.NetworkPolicyPort) :
  haveProtocols ports = true →
  length (ports ≫= tasksForPort service names custom)
  = (2 * size names * length ports)%nat.
Proof.
  induction ports as [|port ports IH]; [simpl; lia|].
  cbn [haveProtocols forallb]. intros [Hp Hps]%andb_true_iff.
  apply bool_decide_eq_true_1 in Hp.
  rewrite bind_cons, length_app, length_tasksForPort, IH by done. simpl. lia.
Qed.

(** X5.  How many policies a Service asks for: an ingress and an egress
    policy for every relevant namespace and every port (the ports of the
    Service and the allowed ports of the custom pod label selector), and one
    more when the from-world annotation is set; there are as many keys. *)
Theorem desired_policies_count (service : corev1.Service) (names : gset string)
    (tasks : list TaskFn) (keys : list string) (ports : list networkingv1.NetworkPolicyPort) :
  reconcileDesiredPolicies service names = Ok (tasks, keys) →
  allowedPorts service = Ok ports →
  length tasks
  = (2 * size names * (length (corev1.Ports (corev1.Spec service)) + length ports)
     + if annotation service NetworkingFromWorldToPorts is Some _ then 1 else 0)%nat
  ∧ length keys = length tasks.
Proof.
  intros (ports' & Hports & Hp & -> & ->)%reconcileDesiredPolicies_Ok Hallowed.
  rewrite Hports in Hallowed. injection Hallowed as ->.
  split; [|by rewrite length_fmap].
  unfold desiredTasks. rewrite !length_app.
  rewrite !length_bind_tasksForPort by (done || apply haveProtocols_service_ports).
  rewrite length_fmap.
  destruct (annotation service NetworkingFromWorldToPorts); simpl; lia.
Qed.

(** X6.  An allowed port without protocol crashes the derivation: when both
    annotations of the custom pod label selector are set and the allowed
    ports parse, a port that names no protocol makes [policyIDFor]
    dereference a nil pointer, whatever else the Service asks for. *)
Theorem allowed_port_without_protocol_panics (service : corev1.Service) (names : gset string)
    (ports : list networkingv1.NetworkPolicyPort) (port : networkingv1.NetworkPolicyPort) :
  annotationValue service NetworkingFromPolicyPodLabelSelector ≠ "" →
  annotationValue service NetworkingFromPolicyAllowedPorts ≠ "" →
  unmarshalPorts (annotationValue service NetworkingFromPolicyAllowedPorts) = Ok ports →
  port ∈ ports →
  networkingv1.Protocol port = None →
  reconcileDesiredPolicies service names = Err ErrPanic.
Proof.
  intros Hc Ha Hports Hin Hnil. rewrite reconcileDesiredPolicies_exact.
  unfold allowedPorts. rewrite decide_True by done. rewrite Hports.
  assert (Hp : haveProtocols ports = false); [|by rewrite Hp].
  apply not_true_is_false. unfold haveProtocols. rewrite forallb_forall.
  intros Hall. apply list_elem_of_In in Hin. apply Hall in Hin.
  apply bool_decide_eq_true_1 in Hin. done.
Qed.

End DesiredShape.

Lemma desired_policies_namespaces_witness :
  taskService (fromWorldTask MoreFixtures.svcWorld) = Some MoreFixtures.svcWorld
  ∧ (taskTarget (fromWorldTask MoreFixtures.svcWorld)).1
    = serviceNamespace MoreFixtures.svcWorld.
Proof.
  apply (desired_policies_namespaces (H := Fixtures.ext) MoreFixtures.svcWorld {[ "ns1" ]}
           (desiredTasks MoreFixtures.svcWorld {[ "ns1" ]} [])
           (taskKey <$> desiredTasks MoreFixtures.svcWorld {[ "ns1" ]} [])
           (fromWorldTask MoreFixtures.svcWorld)).
  - vm_compute. reflexivity.
  - unfold desiredTasks. rewrite !elem_of_app. right. right. simpl. left.
Defined.

Lemma desired_policies_count_witness :
  length (desiredTasks MoreFixtures.svcWorld {[ "ns1"; "ns2" ]} [])
  = (2 * size ({[ "ns1"; "ns2" ]} : gset string)
       * (length (corev1.Ports (corev1.Spec MoreFixtures.svcWorld)) + length (@nil networkingv1.NetworkPolicyPort))
     + if annotation MoreFixtures.svcWorld NetworkingFromWorldToPorts is Some _ then 1 else 0)%nat
  ∧ length (taskKey <$> desiredTasks MoreFixtures.svcWorld {[ "ns1"; "ns2" ]} [])
    = length (desiredTasks MoreFixtures.svcWorld {[ "ns1"; "ns2" ]} []).
Proof.
  apply (desired_policies_count (H := Fixtures.ext) MoreFixtures.svcWorld {[ "ns1"; "ns2" ]}
           (desiredTasks MoreFixtures.svcWorld {[ "ns1"; "ns2" ]} [])
           (taskKey <$> desiredTasks MoreFixtures.svcWorld {[ "ns1"; "ns2" ]} []) []).
  - vm_compute. reflexivity.
  - reflexivity.
Defined.

Lemma allowed_port_without_protocol_panics_witness :
  reconcileDesiredPolicies (H := Fixtures.ext) MoreFixtures.svcAllowedBare {[ "ns1" ]}
  = Err ErrPanic.
Proof.
  apply (allowed_port_without_protocol_panics (H := Fixtures.ext) MoreFixtures.svcAllowedBare
           {[ "ns1" ]}
           [{| networkingv1.Protocol := None; networkingv1.Port := None;
               networkingv1.EndPort := None |}]
           {| networkingv1.Protocol := None; networkingv1.Port := None;
              networkingv1.EndPort := None |}).
  - vm_compute. discriminate.
  - vm_compute. discriminate.
  - reflexivity.
  - left.
  - reflexivity.
Defined.

(** ** What a reconciliation leaves alone *)

Section Spares.
Context `{External}.

(** A fan-out of upserts and of deletes of other objects keeps an object. *)
Lemma serve_keeps_target (tasks : list TaskFn) (k : string * string) (c : Cluster) :
  (∀ t, t ∈ tasks → isUpsertTask t = true ∨ taskTarget t ≠ k) →
  is_Some (networkPolicies c !! k) →
  is_Some (networkPolicies (serve tasks c).2 !! k).
Proof.
  intros Htasks Hc.
  apply (serve_invariant (λ c, is_Some (networkPolicies c !! k))); [|done].
  intros t c0 r c1 Hin Hsome Hstep.
  destruct (Htasks t Hin) as [Hup|Hne].
  - exact (taskStep_upsert_keeps t c0 r c1 _ Hstep Hup Hsome).
  - by rewrite (taskStep_other t c0 r c1 _ Hstep).
Qed.

Lemma Parallel_keeps_target (sched : Scheduler) (fns : list TaskFn) (k : string * string)
    (c : Cluster) :
  (∀ t, t ∈ fns → isUpsertTask t = true ∨ taskTarget t ≠ k) →
  is_Some (networkPolicies c !! k) →
  is_Some (networkPolicies (Parallel sched fns c).2 !! k).
Proof.
  intros Htasks Hc. rewrite Parallel_spec. simpl.
  apply serve_keeps_target; [|done]. intros t Ht%served_elem_of. by apply Htasks.
Qed.

Lemma deleteStalePolicies_targets (l : list metav1.PartialObjectMetadata) (keys : list string)
    (k : string * string) (t : TaskFn) :
  (∀ meta, meta ∈ l → (metav1.Namespace meta, metav1.Name meta) ≠ k) →
  t ∈ deleteStalePolicies l keys → taskTarget t ≠ k.
Proof.
  intros Hl (np & -> & Hin & _)%elem_of_deleteStalePolicies. by apply Hl.
Qed.

Lemma reconcileInactive_keeps (sched : Scheduler) (service : corev1.Service)
    (l : list metav1.PartialObjectMetadata) (k : string * string) (c : Cluster) :
  (∀ meta, meta ∈ l → (metav1.Namespace meta, metav1.Name meta) ≠ k) →
  is_Some (networkPolicies c !! k) →
  is_Some (networkPolicies (reconcileInactive sched service l c).2 !! k).
Proof.
  intros Hl Hc. unfold reconcileInactive.
  destruct (ContainsFinalizer _ _); simpl; [|done].
  unfold mbind at 1, M_bind at 1.
  pose proof (Parallel_keeps_target sched (deleteStalePolicies l []) k c) as Hp.
  destruct (Parallel sched _ c) as [[[]|e] c1]; simpl in *.
  - assert (Hc1 : is_Some (networkPolicies c1 !! k)).
    { apply Hp; [|done]. intros t Ht. right. by eapply deleteStalePolicies_targets. }
    unfold mbind, M_bind, wrap.
    pose proof (RemoveFinalizers_samePolicies service finalizerName c1) as (_ & Hsame & _).
    destruct (RemoveFinalizers service finalizerName c1) as [[s|e] c2]; simpl in *;
      by rewrite Hsame.
  - apply Hp; [|done]. intros t Ht. right. by eapply deleteStalePolicies_targets.
Qed.

Lemma reconcileActive_keeps (sched : Scheduler) (service : corev1.Service)
    (l : list metav1.PartialObjectMetadata) (k : string * string) (c : Cluster) :
  (∀ meta, meta ∈ l → (metav1.Namespace meta, metav1.Name meta) ≠ k) →
  is_Some (networkPolicies c !! k) →
  is_Some (networkPolicies (reconcileActive sched service l c).2 !! k).
Proof.
  intros Hl Hc. unfold reconcileActive, mbind at 1, M_bind at 1.
  destruct (ensureFinalizer_cases service c) as [(_ & Hsame1 & _) _].
  destruct (ensureFinalizer service c) as [[service'|e] c1]; simpl in *;
    [|by rewrite Hsame1].
  unfold mbind at 1, M_bind at 1.
  pose proof (fetchRelevantNamespaceNames_sameObjects service' c1) as (_ & _ & Hsame2 & _).
  destruct (fetchRelevantNamespaceNames service' c1) as [[names|e] c2]; simpl in *;
    [|by rewrite Hsame2, Hsame1].
  unfold mbind at 1, M_bind at 1, lift.
  destruct (reconcileDesiredPolicies service' names) as [[tasks keys]|e] eqn:Hdesired;
    [|simpl; by rewrite Hsame2, Hsame1].
  apply reconcileDesiredPolicies_spec in Hdesired as (_ & Hups & _).
  unfold mbind, M_bind. simpl.
  pose proof (Parallel_keeps_target sched (tasks ++ deleteStalePolicies l keys) k c2) as Hp.
  destruct (Parallel sched _ c2) as [[[]|e] c3]; simpl in *;
    (apply Hp; [|by rewrite Hsame2, Hsame1]);
    (intros t [Ht|Ht]%elem_of_app;
      [left; by eapply (proj1 (Forall_forall _ _) Hups)
      |right; by eapply deleteStalePolicies_targets]).
Qed.

(** X7.  A reconciliation never removes a NetworkPolicy that does not carry
    the back-reference labels of the reconciled Service: whatever the
    Service asks for, whatever the store answers and in whatever order the
    tasks are served, such a policy is still stored afterwards. *)
Theorem Reconcile_spares_foreign_policies (r : Reconciler) (sched : Scheduler)
    (request : string * string) (c : Cluster) (k : string * string)
    (np : networkingv1.NetworkPolicy) :
  wellKeyed c →
  networkPolicies c !! k = Some np →
  (∀ service, services c !! request = Some service → ¬ ownedBy service np) →
  is_Some (networkPolicies (Reconcile r sched request c).2 !! k).
Proof.
  intros Hwf Hk Hforeign. destruct request as [namespace name].
  assert (Hc : is_Some (networkPolicies c !! k)) by (by eexists).
  unfold Reconcile. simpl. rewrite Get_Service_spec.
  destruct (faults c (GetService namespace name)) as [e|].
  { by destruct (IsNotFound e). }
  destruct (services c !! (namespace, name)) as [service|] eqn:Hsvc; [|done].
  specialize (Hforeign service eq_refl).
  set (c1 := record c _).
  unfold reconcileService, mbind at 1, M_bind at 1, wrap at 1.
  rewrite List_NetworkPolicies_spec. change (faults c1) with (faults c).
  destruct (faults c ListNetworkPolicies); [done|]. simpl.
  set (l := filter _ _). set (c2 := record c1 _).
  assert (Hl : ∀ meta, meta ∈ l → (metav1.Namespace meta, metav1.Name meta) ≠ k).
  { intros meta Hin Heq.
    assert (Hlisted : k ∈ (λ m, (metav1.Namespace m, metav1.Name m)) <$> l).
    { apply list_elem_of_fmap. by exists meta. }
    apply (listed_targets (backReferenceLabels service) c k Hwf) in Hlisted
      as (np' & Hk' & Hm).
    rewrite Hk in Hk'. injection Hk' as <-. by apply Hforeign. }
  unfold mbind at 1, M_bind at 1, wrap at 1.
  pose proof (namespaceIsHandled_sameObjects r (serviceNamespace service) c2)
    as (_ & _ & Hsame & _).
  destruct (namespaceIsHandled r _ c2) as [[handled|e] c3]; simpl in *;
    [|by rewrite Hsame].
  destruct (_ || _ || _).
  - apply reconcileInactive_keeps; [done|by rewrite Hsame].
  - apply reconcileActive_keeps; [done|by rewrite Hsame].
Qed.

End Spares.

Lemma Reconcile_spares_foreign_policies_witness :
  is_Some (networkPolicies
             (Reconcile (H := Fixtures.ext) {| selectors := [] |} lastFirst ("ns1", "svc1")
                Fixtures.clusterUnselected).2 !! ("ns1", "deny-all")).
Proof.
  apply (Reconcile_spares_foreign_policies (H := Fixtures.ext) {| selectors := [] |} lastFirst
           ("ns1", "svc1") Fixtures.clusterUnselected ("ns1", "deny-all")
           Fixtures.foreignPolicy).
  - change (map_Forall (λ k np, k = (metav1.Namespace (networkingv1.ObjectMeta np),
                                     metav1.Name (networkingv1.ObjectMeta np)))
              (networkPolicies Fixtures.clusterUnselected)).
    apply (bool_decide_unpack _). vm_compute. exact I.
  - reflexivity.
  - intros service Hs. vm_compute in Hs. injection Hs as <-. vm_compute. discriminate.
Defined.

(** ** The finalizer *)

Section Finalizer.
Context `{External}.

(** The three reads that open every reconciliation of a stored Service. *)
Lemma Reconcile_reads (r : Reconciler) (sched : Scheduler) (service : corev1.Service)
    (namespace : metav1.PartialObjectMetadata) (c : Cluster) :
  let request := (serviceNamespace service, serviceName service) in
  faults c (GetService request.1 request.2) = None →
  faults c ListNetworkPolicies = None →
  faults c (GetNamespace request.1) = None →
  services c !! request = Some service →
  namespaces c !! request.1 = Some namespace →
  ∃ handled : bool,
    (namespaceIsHandled r request.1 c).1 = Ok handled
    ∧ Reconcile r sched request c =
        (if bool_decide (metav1.DeletionTimestamp (corev1.ObjectMeta service) ≠ None)
            || bool_decide (corev1.Selector (corev1.Spec service) = None)
            || negb handled
         then reconcileInactive sched service
         else reconcileActive sched service)
          (filter (λ meta, matchingLabels (backReferenceLabels service) meta = true)
             (map_to_list (networkingv1.ObjectMeta <$> networkPolicies c)).*2)
          (record (record (record c (GetService request.1 request.2)) ListNetworkPolicies)
             (GetNamespace request.1)).
Proof.
  intros request Hget Hlist Hgetns Hsvc Hns. unfold request in *. simpl in *.
  unfold Reconcile. simpl. rewrite Get_Service_spec, Hget, Hsvc.
  unfold reconcileService, mbind at 1, M_bind at 1, wrap at 1.
  rewrite List_NetworkPolicies_spec. simpl. rewrite Hlist.
  unfold mbind at 1, M_bind at 1, wrap at 1.
  unfold namespaceIsHandled, mbind, M_bind, wrap.
  rewrite !Get_Namespace_spec. simpl. rewrite Hgetns, Hns. simpl.
  destruct (decide (length (selectors r) = 0%nat)); simpl; eexists; (split; [done|]);
    by destruct (_ || _ || _).
Qed.

(** X8.  The finalizer comes first: when an active Service has no finalizer
    yet and the patch that adds it fails, the reconciliation ends with that
    error, wrapped, and no NetworkPolicy has been written or deleted; the
    failed patch is the last request. *)
Theorem Reconcile_finalizer_first (r : Reconciler) (sched : Scheduler)
    (service : corev1.Service) (namespace : metav1.PartialObjectMetadata) (c : Cluster)
    (e : error) :
  let request := (serviceNamespace service, serviceName service) in
  faults c (GetService request.1 request.2) = None →
  faults c ListNetworkPolicies = None →
  faults c (GetNamespace request.1) = None →
  services c !! request = Some service →
  namespaces c !! request.1 = Some namespace →
  activeService service →
  (namespaceIsHandled r request.1 c).1 = Ok true →
  ContainsFinalizer (corev1.ObjectMeta service) finalizerName = false →
  faults c (PatchFinalizers request.1 request.2) = Some e →
  let out := Reconcile r sched request c in
  out.1 = Err (ErrWrap "failed to add finalizer" e)
  ∧ networkPolicies out.2 = networkPolicies c
  ∧ services out.2 = services c
  ∧ journal out.2
    = journal c ++ [GetService request.1 request.2; ListNetworkPolicies;
                    GetNamespace request.1; PatchFinalizers request.1 request.2].
Proof.
  intros request Hget Hlist Hgetns Hsvc Hns [Hdel Hsel] Hhandled Hfin Hpatch out.
  destruct (Reconcile_reads r sched service namespace c Hget Hlist Hgetns Hsvc Hns)
    as (handled & Hh & Hrec).
  fold request in Hh, Hrec. rewrite Hhandled in Hh. injection Hh as <-.
  unfold out. rewrite Hrec. clear Hrec.
  rewrite bool_decide_eq_false_2 by (by intros ?).
  rewrite bool_decide_eq_false_2 by done. simpl.
  unfold reconcileActive, mbind at 1, M_bind at 1, ensureFinalizer.
  rewrite Hfin. simpl. unfold wrap, AddFinalizers, mbind, M_bind.
  rewrite patchFinalizers_spec.
  unfold serviceNamespace, serviceName. simpl.
  destruct (AddFinalizer_fields (corev1.ObjectMeta service) finalizerName) as (-> & -> & _).
  fold (serviceNamespace service) (serviceName service).
  unfold request in Hpatch. simpl in Hpatch. rewrite Hpatch. simpl.
  split_and!; try done. by rewrite <- !app_assoc.
Qed.

(** A fan-out touches nothing but the policies and the journal. *)
Lemma serve_samePolicies_but_policies (tasks : list TaskFn) (c : Cluster) :
  services (serve tasks c).2 = services c
  ∧ namespaces (serve tasks c).2 = namespaces c
  ∧ faults (serve tasks c).2 = faults c.
Proof.
  apply (serve_invariant
           (λ c', services c' = services c ∧ namespaces c' = namespaces c
                  ∧ faults c' = faults c) tasks); [|done].
  intros t c0 r0 c1 _ (Hs & Hn & Hf) Hstep.
  apply taskStep_samePolicies_but_policies in Hstep as (-> & -> & ->). done.
Qed.

(** A task that fails wherever the invariant holds makes the fan-out fail. *)
Lemma serve_fails (Inv : Cluster → Prop) (tasks : list TaskFn) (t : TaskFn) :
  t ∈ tasks →
  (∀ t' c r c', t' ∈ tasks → Inv c → taskStep t' c r c' → Inv c') →
  (∀ c, Inv c → isErr (runTask t c).1 = true) →
  ∀ c, Inv c → is_Some (serve tasks c).1.
Proof.
  induction tasks as [|t0 tasks IH]; intros Hin HInv Hfail c Hc; simpl.
  { by apply elem_of_nil in Hin. }
  pose proof (runTask_step t0 c) as Ht.
  assert (HInv' : ∀ t' c r c', t' ∈ tasks → Inv c → taskStep t' c r c' → Inv c')
    by (intros t' ???? ; apply HInv; by right).
  apply elem_of_cons in Hin as [->|Hin].
  - specialize (Hfail c Hc). destruct (runTask t0 c) as [[|e] c1]; [done|].
    destruct (serve tasks c1) as [e' c2]. by eexists.
  - destruct (runTask t0 c) as [r0 c1]. simpl in Ht.
    assert (Hc1 : Inv c1) by (eapply HInv; [left|done..]).
    specialize (IH Hin HInv' Hfail c1 Hc1).
    destruct (serve tasks c1) as [e' c2]. destruct r0; [done|by eexists].
Qed.

(** X9.  The finalizer goes last: when a Service that is no longer active
    still has derived policies and the delete of one of them fails (for
    another reason than the policy being gone), the reconciliation returns
    an error and the stored Service keeps its finalizer. *)
Theorem Reconcile_keeps_finalizer_on_failed_delete (r : Reconciler) (sched : Scheduler)
    (service : corev1.Service) (namespace : metav1.PartialObjectMetadata) (c : Cluster)
    (k : string * string) (np : networkingv1.NetworkPolicy) (e : error) :
  let request := (serviceNamespace service, serviceName service) in
  fair sched →
  faults c (GetService request.1 request.2) = None →
  faults c ListNetworkPolicies = None →
  faults c (GetNamespace request.1) = None →
  services c !! request = Some service →
  namespaces c !! request.1 = Some namespace →
  ¬ activeService service →
  ContainsFinalizer (corev1.ObjectMeta service) finalizerName = true →
  networkPolicies c !! k = Some np →
  ownedBy service np →
  faults c (DeleteNetworkPolicy (metav1.Namespace (networkingv1.ObjectMeta np))
              (metav1.Name (networkingv1.ObjectMeta np))) = Some e →
  IsNotFound e = false →
  let out := Reconcile r sched request c in
  isErr out.1 = true
  ∧ services out.2 = services c
  ∧ PatchFinalizers request.1 request.2 ∉ drop (length (journal c)) (journal out.2).
Proof.
  intros request Hfair Hget Hlist Hgetns Hsvc Hns Hinactive Hfin Hk Howned Hfault Hnf out.
  destruct (Reconcile_reads r sched service namespace c Hget Hlist Hgetns Hsvc Hns)
    as (handled & _ & Hrec).
  fold request in Hrec. unfold out. rewrite Hrec. clear Hrec.
  set (l := filter _ _). set (c3 := record _ _).
  assert (Hcond : bool_decide (metav1.DeletionTimestamp (corev1.ObjectMeta service) ≠ None)
                  || bool_decide (corev1.Selector (corev1.Spec service) = None)
                  || negb handled = true).
  { destruct (metav1.DeletionTimestamp (corev1.ObjectMeta service)) eqn:Hdel; [done|].
    destruct (corev1.Selector (corev1.Spec service)) eqn:Hsel; [|done].
    exfalso. apply Hinactive. split; [done|]. by rewrite Hsel. }
  rewrite Hcond.
  set (tasks := served (sched (length (deleteObjectTask <$> l))) (deleteObjectTask <$> l)).
  assert (Hin : deleteObjectTask (networkingv1.ObjectMeta np) ∈ tasks).
  { unfold tasks. rewrite (served_fair sched _ Hfair).
    apply list_elem_of_fmap. exists (networkingv1.ObjectMeta np). split; [done|].
    apply list_elem_of_filter. split; [done|].
    apply list_elem_of_fmap. exists (k, networkingv1.ObjectMeta np). split; [done|].
    apply elem_of_map_to_list. by rewrite lookup_fmap, Hk. }
  assert (Hfails : is_Some (serve tasks c3).1).
  { apply (serve_fails (λ c', faults c' = faults c) tasks _ Hin); [| |done].
    - intros t' c0 r0 c1 _ Hf Hstep.
      apply taskStep_samePolicies_but_policies in Hstep as (_ & _ & ->). done.
    - intros c0 Hf. simpl. unfold DeleteObject. rewrite Hf, Hfault. simpl.
      by rewrite Hnf. }
  assert (Hout : ∃ e', reconcileInactive sched service l c3 = (Err e', (serve tasks c3).2)).
  { unfold reconcileInactive. rewrite Hfin. simpl.
    unfold mbind at 1, M_bind at 1. rewrite Parallel_spec, deleteStalePolicies_nil.
    fold tasks. destruct Hfails as [e' ->]. by exists e'. }
  destruct Hout as [e' ->]. simpl.
  destruct (serve_samePolicies_but_policies tasks c3) as (Hs & _ & _).
  destruct (serve_journal tasks c3) as (sent & Hj & Hsub).
  split_and!; [done|by rewrite Hs|].
  rewrite Hj. unfold c3. simpl. rewrite <- !app_assoc, drop_app_length.
  intros Hp. repeat (apply elem_of_cons in Hp as [Hp|Hp]; [done|]).
  apply list_elem_of_fmap in Hp as (t & Ht & _). by destruct t.
Qed.

End Finalizer.

Lemma Reconcile_finalizer_first_witness :
  let out := Reconcile (H := Fixtures.ext) {| selectors := [] |} inOrder ("ns1", "svc1")
               FaultFixtures.clusterNoPatch in
  out.1 = Err (ErrWrap "failed to add finalizer" (ErrStore "forbidden"))
  ∧ networkPolicies out.2 = networkPolicies FaultFixtures.clusterNoPatch
  ∧ services out.2 = services FaultFixtures.clusterNoPatch
  ∧ journal out.2
    = journal FaultFixtures.clusterNoPatch
        ++ [GetService "ns1" "svc1"; ListNetworkPolicies; GetNamespace "ns1";
            PatchFinalizers "ns1" "svc1"].
Proof.
  apply (Reconcile_finalizer_first (H := Fixtures.ext) {| selectors := [] |} inOrder
           Fixtures.svc1 (Fixtures.namespaceObject "ns1" ∅ None)
           FaultFixtures.clusterNoPatch (ErrStore "forbidden")).
  - reflexivity.
  - reflexivity.
  - reflexivity.
  - vm_compute. reflexivity.
  - vm_compute. reflexivity.
  - split; [reflexivity|discriminate].
  - vm_compute. reflexivity.
  - vm_compute. reflexivity.
  - reflexivity.
Defined.

Lemma Reconcile_keeps_finalizer_on_failed_delete_witness :
  let out := Reconcile (H := Fixtures.ext) {| selectors := [] |} inOrder ("ns1", "svc1")
               FaultFixtures.clusterNoDelete in
  isErr out.1 = true
  ∧ services out.2 = services FaultFixtures.clusterNoDelete
  ∧ PatchFinalizers "ns1" "svc1"
      ∉ drop (length (journal FaultFixtures.clusterNoDelete)) (journal out.2).
Proof.
  apply (Reconcile_keeps_finalizer_on_failed_delete (H := Fixtures.ext) {| selectors := [] |}
           inOrder Fixtures.svcUnselected (Fixtures.namespaceObject "ns1" ∅ None)
           FaultFixtures.clusterNoDelete ("ns1", "ingress-to-svc1-tcp-80")
           (Fixtures.ownedPolicy "ns1" "ingress-to-svc1-tcp-80" [networkingv1.PolicyTypeIngress])
           (ErrStore "forbidden")).
  - exact fair_inOrder.
  - reflexivity.
  - reflexivity.
  - reflexivity.
  - vm_compute. reflexivity.
  - vm_compute. reflexivity.
  - intros [_ Hsel]. apply Hsel. reflexivity.
  - vm_compute. reflexivity.
  - vm_compute. reflexivity.
  - vm_compute. reflexivity.
  - reflexivity.
  - reflexivity.
Defined.

(** ** The order of the fan-out *)

Section Order.
Context `{External}.





Lemma serve_cons (t : TaskFn) (tasks : list TaskFn) (c : Cluster) :
  (serve (t :: tasks) c).2 = (serve tasks (runTask t c).2).2
  ∧ ((serve (t :: tasks) c).1 = None
     ↔ (runTask t c).1 = Ok tt ∧ (serve tasks (runTask t c).2).1 = None).
Proof.
  simpl. destruct (runTask t c) as [r c1]. simpl.
  destruct (serve tasks c1) as [e' c2]. simpl.
  split; [done|]. destruct r as [[]|e]; (split; [done|by intros []]).
Qed.




End Order.


(** ** The two policies of a port and a namespace *)

Section Pairs.
Context `{External}.





End Pairs.


(** ** The wiring: [add.go] *)

Section Wiring.
Context `{External}.

Lemma compileSelectors_spec (sprintSelector : metav1.LabelSelector → string)
    (namespaceSelectors : list metav1.LabelSelector) (r r' : Reconciler) :
  compileSelectors sprintSelector namespaceSelectors r = Ok r' →
  ∃ compiled,
    selectors r' = selectors r ++ compiled
    ∧ Forall2 (λ n selector, LabelSelectorAsSelector n = Ok selector)
        namespaceSelectors compiled.
Proof.
  revert r. induction namespaceSelectors as [|n rest IH]; intros r; simpl.
  - intros [= <-]. exists []. by rewrite app_nil_r.
  - unfold mbind, result_bind.
    destruct (LabelSelectorAsSelector n) as [selector|e] eqn:Hn; simpl; [|done].
    intros (compiled & Hsel & Hall)%IH. simpl in Hsel.
    exists (selector :: compiled). split; [by rewrite Hsel, <- app_assoc|].
    by constructor.
Qed.

(** X12.  From the configuration to the gate: when the configured namespace
    selectors compile, a fetched namespace is handled iff none is configured
    or one of the configured selectors, compiled, matches its labels. *)
Theorem configured_selectors_gate (sprintSelector : metav1.LabelSelector → string)
    (namespaceSelectors : list metav1.LabelSelector) (r : Reconciler)
    (namespaceName : string) (namespace : metav1.PartialObjectMetadata) (c : Cluster) :
  compileSelectors sprintSelector namespaceSelectors {| selectors := [] |} = Ok r →
  faults c (GetNamespace namespaceName) = None →
  namespaces c !! namespaceName = Some namespace →
  ∃ handled : bool,
    (namespaceIsHandled r namespaceName c).1 = Ok handled
    ∧ (handled = true ↔
         namespaceSelectors = []
         ∨ ∃ n selector, n ∈ namespaceSelectors
             ∧ LabelSelectorAsSelector n = Ok selector
             ∧ labels.Matches selector (metav1.Labels namespace) = true).
Proof.
  intros (compiled & Hsel & Hall)%compileSelectors_spec Hf Hns. simpl in Hsel.
  unfold namespaceIsHandled, mbind, M_bind, wrap.
  rewrite Get_Namespace_spec, Hf, Hns. simpl. rewrite Hsel.
  destruct (decide (length compiled = 0%nat)) as [Hlen|Hlen]; simpl.
  - exists true. split; [done|]. split; [|done]. intros _. left.
    apply nil_length_inv in Hlen as ->. by apply Forall2_nil_inv_r in Hall.
  - eexists. split; [done|]. rewrite existsb_exists. split.
    + intros (selector & Hin & Hm). right.
      apply list_elem_of_In, list_elem_of_lookup in Hin as [i Hi].
      destruct (Forall2_lookup_r _ _ _ _ _ Hall Hi) as (n & Hn & Hc).
      exists n, selector. split_and!; [|done..]. by eapply list_elem_of_lookup_2.
    + intros [->|(n & selector & Hin & Hc & Hm)].
      * apply Forall2_nil_inv_l in Hall as ->. done.
      * apply list_elem_of_lookup in Hin as [i Hi].
        destruct (Forall2_lookup_l _ _ _ _ _ Hall Hi) as (selector' & Hs & Hc').
        rewrite Hc in Hc'. injection Hc' as <-.
        exists selector. split; [|done]. apply list_elem_of_In.
        by eapply list_elem_of_lookup_2.
Qed.

(** The keys of the tasks of a port depend on the Service through its name
    and namespace only. *)
Lemma tasksForPort_keys_ext (s s' : corev1.Service) (names : gset string) (custom : string)
    (port : networkingv1.NetworkPolicyPort) :
  serviceName s' = serviceName s → serviceNamespace s' = serviceNamespace s →
  taskKey <$> tasksForPort s' names custom port = taskKey <$> tasksForPort s names custom port.
Proof.
  intros Hn Hns. unfold tasksForPort. rewrite Hn.
  destruct (policyIDFor (serviceName s) port) as [policyID0|]; [|done].
  induction (elements names) as [|n l IH]; [done|].
  rewrite !bind_cons, !fmap_app, IH. f_equal.
  unfold policyTasks. simpl. by rewrite Hns.
Qed.

Lemma bind_tasksForPort_keys_ext (s s' : corev1.Service) (names : gset string)
    (custom : string) (ports : list networkingv1.NetworkPolicyPort) :
  serviceName s' = serviceName s → serviceNamespace s' = serviceNamespace s →
  taskKey <$> (ports ≫= tasksForPort s' names custom)
  = taskKey <$> (ports ≫= tasksForPort s names custom).
Proof.
  intros Hn Hns. induction ports as [|port ports IH]; [done|].
  rewrite !bind_cons, !fmap_app, IH. f_equal. by apply tasksForPort_keys_ext.
Qed.

Lemma ServicePredicate_false (old new : corev1.Service) :
  ServicePredicate {| event.ObjectOld := event.ServiceObject old;
                      event.ObjectNew := event.ServiceObject new |} = false →
  corev1.Ports (corev1.Spec new) = corev1.Ports (corev1.Spec old)
  ∧ ∀ k, k ∈ watchedAnnotations → annotationValue new k = annotationValue old k.
Proof.
  unfold ServicePredicate. simpl. rewrite !orb_false_iff, !negb_false_iff.
  unfold semanticDeepEqualPorts.
  intros (((((((_ & _) & Hports) & H1) & H2) & H3) & H4) & H5).
  apply bool_decide_eq_true_1 in Hports.
  apply bool_decide_eq_false_1, dec_stable in H1, H2, H3, H4, H5.
  split; [done|]. intros k Hk. unfold watchedAnnotations in Hk.
  repeat (apply elem_of_cons in Hk as [->|Hk]; [congruence|]).
  by apply elem_of_nil in Hk.
Qed.

(** X13.  What the update filter lets through unseen keeps the key set: when
    [ServicePredicate] drops an update of a Service, and the from-world
    annotation is present in both versions or in neither, both versions ask
    for the same policy keys in every set of relevant namespaces, or fail
    alike. *)
Theorem ServicePredicate_dropped_update_keeps_keys (old new : corev1.Service)
    (names : gset string) :
  ServicePredicate {| event.ObjectOld := event.ServiceObject old;
                      event.ObjectNew := event.ServiceObject new |} = false →
  serviceName new = serviceName old →
  serviceNamespace new = serviceNamespace old →
  (is_Some (annotation new NetworkingFromWorldToPorts)
   ↔ is_Some (annotation old NetworkingFromWorldToPorts)) →
  match reconcileDesiredPolicies new names, reconcileDesiredPolicies old names with
  | Ok desired, Ok desired' => desired.2 = desired'.2
  | Err e, Err e' => e = e'
  | _, _ => False
  end.
Proof.
  intros (Hports & Hann)%ServicePredicate_false Hn Hns Hfw.
  assert (Hcustom : annotationValue new NetworkingFromPolicyPodLabelSelector
                    = annotationValue old NetworkingFromPolicyPodLabelSelector).
  { apply Hann. unfold watchedAnnotations. repeat first [left | right]. }
  assert (Hallowed : annotationValue new NetworkingFromPolicyAllowedPorts
                     = annotationValue old NetworkingFromPolicyAllowedPorts).
  { apply Hann. unfold watchedAnnotations. repeat first [left | right]. }
  rewrite !reconcileDesiredPolicies_exact. unfold allowedPorts.
  rewrite Hcustom, Hallowed.
  destruct (if decide _ then _ else _) as [ports|e]; [|done].
  destruct (haveProtocols ports); [|done]. simpl.
  unfold desiredTasks. rewrite !fmap_app, Hports, Hcustom.
  rewrite !(bind_tasksForPort_keys_ext old new) by done.
  do 2 f_equal.
  destruct (annotation new NetworkingFromWorldToPorts) as [v|],
           (annotation old NetworkingFromWorldToPorts) as [v'|]; simpl.
  - unfold fromWorldObjectMeta, key. simpl. by rewrite Hn, Hns.
  - by destruct (proj1 Hfw ltac:(by eexists)).
  - by destruct (proj2 Hfw ltac:(by eexists)).
  - done.
Qed.

Lemma annotationValue_withAnnotation_ne (service : corev1.Service) (k k' v : string) :
  k ≠ k' →
  annotationValue (withAnnotation service k v) k' = annotationValue service k'.
Proof.
  intros Hne. unfold annotationValue, annotation, withAnnotation. simpl.
  by rewrite lookup_insert_ne.
Qed.

(** X14.  The update filter compares values, the reconciler tests presence:
    giving a Service the from-world annotation with an empty value is an
    update that [ServicePredicate] drops, although the annotated Service
    asks for one key more, the key of the from-world policy. *)
Theorem ServicePredicate_blind_to_empty_from_world (service : corev1.Service)
    (names : gset string) (tasks : list TaskFn) (keys : list string) :
  annotation service NetworkingFromWorldToPorts = None →
  reconcileDesiredPolicies service names = Ok (tasks, keys) →
  let service' := withAnnotation service NetworkingFromWorldToPorts "" in
  ServicePredicate {| event.ObjectOld := event.ServiceObject service;
                      event.ObjectNew := event.ServiceObject service' |} = false
  ∧ ∃ tasks',
      reconcileDesiredPolicies service' names
      = Ok (tasks', keys ++ [key (fromWorldObjectMeta service)]).
Proof.
  intros Hnone Hdesired service'. split.
  - unfold ServicePredicate. simpl.
    unfold semanticDeepEqualSelector, semanticDeepEqualPorts.
    rewrite (bool_decide_eq_true_2 (default ∅ _ = default ∅ _)) by done.
    rewrite (bool_decide_eq_true_2 (corev1.Ports _ = corev1.Ports _)) by done. simpl.
    unfold service'.
    rewrite (annotationValue_withAnnotation_ne service _
               NetworkingPodLabelSelectorNamespaceAlias) by done.
    rewrite (annotationValue_withAnnotation_ne service _ NetworkingNamespaceSelectors)
      by done.
    rewrite (annotationValue_withAnnotation_ne service _
               NetworkingFromPolicyPodLabelSelector) by done.
    rewrite (annotationValue_withAnnotation_ne service _ NetworkingFromPolicyAllowedPorts)
      by done.
    assert (Hfw : annotationValue (withAnnotation service NetworkingFromWorldToPorts "")
                    NetworkingFromWorldToPorts
                  = annotationValue service NetworkingFromWorldToPorts).
    { unfold annotationValue at 2. rewrite Hnone.
      unfold annotationValue, annotation, withAnnotation. simpl.
      by rewrite lookup_insert_eq. }
    rewrite Hfw.
    rewrite !(bool_decide_eq_false_2 (annotationValue _ _ ≠ annotationValue _ _))
      by (by intros ?).
    rewrite !orb_false_r, andb_false_iff.
    destruct (metav1.DeletionTimestamp (corev1.ObjectMeta service)).
    + by left.
    + right. apply bool_decide_eq_false_2. by intros ?.
  - apply reconcileDesiredPolicies_Ok in Hdesired as (ports & Hallowed & Hp & -> & ->).
    rewrite reconcileDesiredPolicies_exact.
    assert (Hallowed' : allowedPorts service' = Ok ports).
    { rewrite <- Hallowed. unfold allowedPorts, service'.
      by rewrite !annotationValue_withAnnotation_ne. }
    rewrite Hallowed', Hp. eexists. f_equal. f_equal.
    unfold desiredTasks. rewrite Hnone.
    assert (Hfw : annotation service' NetworkingFromWorldToPorts = Some "").
    { unfold annotation, service', withAnnotation. simpl. by rewrite lookup_insert_eq. }
    rewrite Hfw. rewrite !fmap_app. simpl. rewrite app_nil_r.
    assert (Hcustom : annotationValue service' NetworkingFromPolicyPodLabelSelector
                      = annotationValue service NetworkingFromPolicyPodLabelSelector)
      by (by apply annotationValue_withAnnotation_ne).
    rewrite Hcustom, !(bind_tasksForPort_keys_ext service service') by done.
    by rewrite <- app_assoc.
Qed.

End Wiring.

Lemma configured_selectors_gate_witness :
  ∃ handled : bool,
    (namespaceIsHandled WiringFixtures.teamAReconciler "ns1" Fixtures.clusterA).1 = Ok handled
    ∧ (handled = true ↔
         WiringFixtures.teamA = []
         ∨ ∃ n selector, n ∈ WiringFixtures.teamA
             ∧ LabelSelectorAsSelector (External := Fixtures.ext) n = Ok selector
             ∧ labels.Matches selector
                 (metav1.Labels (Fixtures.namespaceObject "ns1" ∅ None)) = true).
Proof.
  apply (configured_selectors_gate (H := Fixtures.ext) WiringFixtures.sprintSelector
           WiringFixtures.teamA WiringFixtures.teamAReconciler "ns1"
           (Fixtures.namespaceObject "ns1" ∅ None) Fixtures.clusterA).
  - reflexivity.
  - reflexivity.
  - vm_compute. reflexivity.
Defined.

Lemma ServicePredicate_dropped_update_keeps_keys_witness :
  match reconcileDesiredPolicies (H := Fixtures.ext) WiringFixtures.svc1Noted {[ "ns1" ]},
        reconcileDesiredPolicies (H := Fixtures.ext) Fixtures.svc1 {[ "ns1" ]} with
  | Ok desired, Ok desired' => desired.2 = desired'.2
  | Err e, Err e' => e = e'
  | _, _ => False
  end.
Proof.
  apply (ServicePredicate_dropped_update_keeps_keys (H := Fixtures.ext) Fixtures.svc1
           WiringFixtures.svc1Noted {[ "ns1" ]}).
  - vm_compute. reflexivity.
  - reflexivity.
  - reflexivity.
  - split; intros [v Hv]; vm_compute in Hv; discriminate.
Defined.

Lemma ServicePredicate_blind_to_empty_from_world_witness :
  let service' := withAnnotation Fixtures.svc1 NetworkingFromWorldToPorts "" in
  ServicePredicate {| event.ObjectOld := event.ServiceObject Fixtures.svc1;
                      event.ObjectNew := event.ServiceObject service' |} = false
  ∧ ∃ tasks',
      reconcileDesiredPolicies (H := Fixtures.ext) service' {[ "ns1" ]}
      = Ok (tasks', (taskKey <$> desiredTasks Fixtures.svc1 {[ "ns1" ]} [])
                    ++ [key (fromWorldObjectMeta Fixtures.svc1)]).
Proof.
  apply (ServicePredicate_blind_to_empty_from_world (H := Fixtures.ext) Fixtures.svc1
           {[ "ns1" ]} (desiredTasks Fixtures.svc1 {[ "ns1" ]} [])
           (taskKey <$> desiredTasks Fixtures.svc1 {[ "ns1" ]} [])).
  - vm_compute. reflexivity.
  - vm_compute. reflexivity.
Defined.

(** ** Namespace events *)

Lemma MapToAllServices_spec (c : Cluster) :
  MapToAllServices c =
    match faults c ListServices with
    | Some _ => ([], record c ListServices)
    | None => ((map_to_list (services c)).*2
                 ≫= (λ service, [(serviceNamespace service, serviceName service)]),
               record c ListServices)
    end.
Proof.
  unfold MapToAllServices, List_Services, mbind at 1, M_bind, call.
  destruct (faults c ListServices); [done|]. simpl. f_equal.
  generalize ((map_to_list (services c)).*2). intros l.
  assert (Hfold : ∀ acc,
            foldl (λ requests service,
                     requests ++ [(metav1.Namespace service, metav1.Name service)])
                  acc (corev1.ObjectMeta <$> l)
            = acc ++ (l ≫= λ service, [(serviceNamespace service, serviceName service)])).
  { induction l as [|s l IH]; intros acc; simpl; [by rewrite app_nil_r|].
    rewrite IH. by rewrite <- app_assoc. }
  apply (Hfold []).
Qed.

(** X15.  A namespace event asks for the reconciliation of every stored
    Service, once, and of nothing else; when the list of Services fails it
    asks for none.  No object is touched. *)
Theorem MapToAllServices_requests (c : Cluster) :
  servicesWellKeyed c →
  sameObjects c (MapToAllServices c).2
  ∧ match faults c ListServices with
    | Some _ => (MapToAllServices c).1 = []
    | None =>
        NoDup (MapToAllServices c).1
        ∧ ∀ request, request ∈ (MapToAllServices c).1 ↔ is_Some (services c !! request)
    end.
Proof.
  intros Hwf. rewrite MapToAllServices_spec.
  destruct (faults c ListServices); [done|]. simpl. split; [done|].
  assert (Heq : (map_to_list (services c)).*2
                  ≫= (λ service, [(serviceNamespace service, serviceName service)])
                = (map_to_list (services c)).*1).
  { pose proof (λ k s, proj1 (elem_of_map_to_list (services c) k s)) as Hin.
    induction (map_to_list (services c)) as [|[k s] l IH]; [done|].
    rewrite !fmap_cons, bind_cons, IH; [|intros; apply Hin; by right]. simpl.
    f_equal. symmetry. apply Hwf, Hin. left. }
  rewrite Heq. split; [apply NoDup_fst_map_to_list|].
  intros request. rewrite list_elem_of_fmap. split.
  - intros ([k s] & -> & Hin%elem_of_map_to_list). by eexists.
  - intros [s Hs]. exists (request, s). split; [done|]. by apply elem_of_map_to_list.
Qed.

Lemma MapToAllServices_requests_witness :
  sameObjects Fixtures.clusterA (MapToAllServices Fixtures.clusterA).2
  ∧ NoDup (MapToAllServices Fixtures.clusterA).1
  ∧ ∀ request, request ∈ (MapToAllServices Fixtures.clusterA).1
               ↔ is_Some (services Fixtures.clusterA !! request).
Proof.
  apply (MapToAllServices_requests Fixtures.clusterA).
  change (map_Forall (λ k service, k = (serviceNamespace service, serviceName service))
            (services Fixtures.clusterA)).
  apply (bool_decide_unpack _). vm_compute. exact I.
Defined.

(** ** The progressing check, reference by reference *)

Section ProgressingChecks.
Context `{progressing.Helpers}.

Lemma recordAll_nil (w : progressing.World) : recordAll w [] = w.
Proof. destruct w. unfold recordAll. simpl. by rewrite app_nil_r. Qed.

Lemma record_recordAll (w : progressing.World) (reqs : list progressing.Request)
    (req : progressing.Request) :
  progressing.record (recordAll w reqs) req = recordAll w (reqs ++ [req]).
Proof. unfold progressing.record, recordAll. simpl. by rewrite app_assoc. Qed.

Lemma fetches_cons (ref : progressing.ObjectReference)
    (refs : list progressing.ObjectReference) :
  fetches (ref :: refs) = fetches [ref] ++ fetches refs.
Proof. unfold fetches. simpl. by destruct (decide (considered ref)). Qed.

Lemma fetches_app (refs refs' : list progressing.ObjectReference) :
  fetches (refs ++ refs') = fetches refs ++ fetches refs'.
Proof. apply omap_app. Qed.

Lemma fetches_considered (ref : progressing.ObjectReference) :
  considered ref → fetches [ref] = [workloadRequest ref].
Proof. intros Hc. unfold fetches. simpl. by rewrite decide_True. Qed.

Lemma fetches_isFetch (refs : list progressing.ObjectReference) :
  Forall (λ req, isFetch req = true) (fetches refs).
Proof.
  induction refs as [|ref refs IH]; [constructor|].
  rewrite fetches_cons. apply Forall_app. split; [|done].
  unfold fetches. simpl. destruct (decide (considered ref)); by repeat constructor.
Qed.

(** The guard of the loop body: the references that are looked at. *)
Lemma checkReference_not_considered (r : progressing.Reconciler)
    (mr : progressing.ManagedResource) (cond : progressing.Condition)
    (ref : progressing.ObjectReference) (w : progressing.World) :
  ¬ considered ref →
  progressing.checkReference r mr cond ref w = (progressing.Continue, w).
Proof.
  intros Hn. unfold progressing.checkReference.
  destruct (decide (progressing.groupOf ref ≠ progressing.appsGroupName)) as [|Hg]; [done|].
  destruct (decide (_ ∨ _)) as [Hk|]; [|done].
  exfalso. apply Hn. split; [|done]. by apply dec_stable.
Qed.

Lemma checkReference_considered (r : progressing.Reconciler)
    (mr : progressing.ManagedResource) (cond : progressing.Condition)
    (ref : progressing.ObjectReference) (w : progressing.World) :
  considered ref →
  progressing.checkReference r mr cond ref w =
    let w1 := progressing.record w (workloadRequest ref) in
    match progressing.faults w (workloadRequest ref) with
    | Some err =>
        if IsNotFound err then (progressing.Continue, w1)
        else (progressing.Return (Err err), w1)
    | None =>
        match progressing.workloads w
                !! (progressing.Kind ref, progressing.Namespace ref, progressing.Name ref) with
        | None => (progressing.Continue, w1)
        | Some obj =>
            if (progressing.checkProgressing (progressing.Kind ref) obj).1 then
              let condition :=
                progressing.UpdatedConditionWithClock (progressing.Now r) cond
                  progressing.ConditionTrue (progressing.Kind ref +:+ "Progressing")
                  (progressing.Kind ref +:+ " "
                     +:+ quoted (progressing.Namespace ref +:+ "/" +:+ progressing.Name ref)
                     +:+ " is progressing: "
                     +:+ (progressing.checkProgressing (progressing.Kind ref) obj).2) in
              let mr' :=
                progressing.withConditions mr
                  (progressing.MergeConditions
                     (progressing.Conditions (progressing.ResourceStatus mr)) condition) in
              match progressing.Status_Update mr' w1 with
              | (Err err, w2) =>
                  (progressing.Return
                     (Err (ErrWrap "could not update the ManagedResource status" err)), w2)
              | (Ok _, w2) => (progressing.Return (Ok (progressing.requeue r)), w2)
              end
            else (progressing.Continue, w1)
        end
    end.
Proof.
  intros [Hg Hk]. unfold progressing.checkReference.
  rewrite decide_False by (by intros ?). rewrite decide_True by done.
  unfold progressing.Get_Workload, workloadRequest. simpl.
  destruct (progressing.faults w _) as [err|]; [done|].
  destruct (progressing.workloads w !! _) as [obj|]; [|done].
  by destruct (progressing.checkProgressing (progressing.Kind ref) obj) as [[] description].
Qed.

Lemma checkReference_settled (r : progressing.Reconciler) (mr : progressing.ManagedResource)
    (cond : progressing.Condition) (ref : progressing.ObjectReference)
    (w : progressing.World) (reqs : list progressing.Request) :
  settled w ref →
  progressing.checkReference r mr cond ref (recordAll w reqs)
  = (progressing.Continue, recordAll w (reqs ++ fetches [ref])).
Proof.
  intros Hs. destruct (decide (considered ref)) as [Hc|Hn].
  - destruct Hs as [Hn|Hs]; [done|].
    rewrite checkReference_considered, fetches_considered, record_recordAll by done.
    simpl. destruct (progressing.faults w (workloadRequest ref)) as [err|].
    + by rewrite Hs.
    + destruct (progressing.workloads w !! _) as [obj|]; [|done]. by rewrite Hs.
  - rewrite checkReference_not_considered by done.
    unfold fetches. simpl. rewrite decide_False by done. by rewrite app_nil_r.
Qed.

(** The loop runs through references that are settled, at the cost of their
    fetches. *)
Lemma checkReferences_settled (r : progressing.Reconciler) (mr : progressing.ManagedResource)
    (cond : progressing.Condition) (pre rest : list progressing.ObjectReference)
    (w : progressing.World) (reqs : list progressing.Request) :
  Forall (settled w) pre →
  progressing.checkReferences r mr cond (pre ++ rest) (recordAll w reqs)
  = progressing.checkReferences r mr cond rest (recordAll w (reqs ++ fetches pre)).
Proof.
  revert reqs. induction pre as [|ref pre IH]; intros reqs Hall.
  - simpl. by rewrite app_nil_r.
  - apply Forall_cons in Hall as [Href Hall]. rewrite fetches_cons.
    cbn [app progressing.checkReferences].
    rewrite checkReference_settled by done. rewrite IH by done.
    by rewrite app_assoc.
Qed.

Lemma checkReferences_settled_prefix (r : progressing.Reconciler)
    (mr : progressing.ManagedResource) (cond : progressing.Condition)
    (pre rest : list progressing.ObjectReference) (w : progressing.World) :
  Forall (settled w) pre →
  progressing.checkReferences r mr cond (pre ++ rest) w
  = progressing.checkReferences r mr cond rest (recordAll w (fetches pre)).
Proof.
  intros Hall. rewrite <- (recordAll_nil w) at 1.
  by rewrite checkReferences_settled.
Qed.

Lemma Status_Update_spec (mr : progressing.ManagedResource) (w : progressing.World) :
  progressing.Status_Update mr w =
    match progressing.faults w (statusUpdate mr),
          progressing.managedResources w !! managedResourceKey mr with
    | Some e, _ => (Err e, progressing.record w (statusUpdate mr))
    | None, None => (Err ErrNotFound, progressing.record w (statusUpdate mr))
    | None, Some stored =>
        (Ok tt,
         progressing.setManagedResources (progressing.record w (statusUpdate mr))
           (<[managedResourceKey mr :=
                withStatusOf stored mr (progressing.Conditions (progressing.ResourceStatus mr))]>
              (progressing.managedResources w)))
    end.
Proof.
  unfold progressing.Status_Update, statusUpdate, managedResourceKey, withStatusOf.
  destruct (progressing.faults w _); [done|].
  destruct (progressing.managedResources w !! _) as [stored|]; [|done].
  by destruct mr as [meta class [conditions resources]].
Qed.

(** X16.  The status is written for the first progressing workload, and the
    loop ends there: when the references before one are settled and that
    one's workload is progressing, the Progressing condition of the stored
    ManagedResource becomes [True] with the reason and message of that
    workload, the result asks to come back after the sync period, and no
    later reference is fetched. *)
Theorem reconcileChecks_first_progressing (r : progressing.Reconciler)
    (mr stored : progressing.ManagedResource) (w : progressing.World)
    (pre post : list progressing.ObjectReference) (ref : progressing.ObjectReference)
    (obj : progressing.Workload) (description : string) :
  progressing.Resources (progressing.ResourceStatus mr) = pre ++ ref :: post →
  Forall (settled w) pre →
  considered ref →
  progressing.faults w (workloadRequest ref) = None →
  progressing.workloads w
    !! (progressing.Kind ref, progressing.Namespace ref, progressing.Name ref) = Some obj →
  progressing.checkProgressing (progressing.Kind ref) obj = (true, description) →
  progressing.faults w (statusUpdate mr) = None →
  progressing.managedResources w !! managedResourceKey mr = Some stored →
  let out := progressing.reconcileChecks r mr w in
  let condition :=
    progressing.UpdatedConditionWithClock (progressing.Now r)
      (progressing.GetOrInitConditionWithClock (progressing.Now r)
         (progressing.Conditions (progressing.ResourceStatus mr))
         progressing.ResourcesProgressing)
      progressing.ConditionTrue (progressing.Kind ref +:+ "Progressing")
      (progressing.Kind ref +:+ " "
         +:+ quoted (progressing.Namespace ref +:+ "/" +:+ progressing.Name ref)
         +:+ " is progressing: " +:+ description) in
  out.1 = Ok (progressing.requeue r)
  ∧ progressing.managedResources out.2
    = <[managedResourceKey mr :=
          withStatusOf stored mr
            (progressing.MergeConditions
               (progressing.Conditions (progressing.ResourceStatus mr)) condition)]>
        (progressing.managedResources w)
  ∧ progressing.journal out.2
    = progressing.journal w ++ fetches pre ++ [workloadRequest ref; statusUpdate mr].
Proof.
  intros Hrefs Hpre Hc Hf Hobj Hprog Hfu Hstored out condition.
  assert (Hout : out
    = (Ok (progressing.requeue r),
       progressing.setManagedResources
         (recordAll w (fetches pre ++ [workloadRequest ref; statusUpdate mr]))
         (<[managedResourceKey mr :=
              withStatusOf stored mr
                (progressing.MergeConditions
                   (progressing.Conditions (progressing.ResourceStatus mr)) condition)]>
            (progressing.managedResources w)))).
  { unfold out, progressing.reconcileChecks. rewrite Hrefs.
    rewrite checkReferences_settled_prefix by done.
    cbn [progressing.checkReferences].
    rewrite checkReference_considered by done. simpl.
    rewrite Hf, Hobj, Hprog. simpl.
    rewrite Status_Update_spec. simpl.
    change (statusUpdate (progressing.withConditions mr ?x)) with (statusUpdate mr).
    change (managedResourceKey (progressing.withConditions mr ?x))
      with (managedResourceKey mr).
    rewrite Hfu, Hstored. f_equal.
    unfold progressing.setManagedResources, recordAll. simpl. by rewrite <- !app_assoc. }
  by rewrite Hout.
Qed.

(** X17.  A failing fetch ends the check as it is: when the references
    before one are settled and the fetch of that one's workload fails for
    another reason than the workload being gone, the check returns that very
    error, has written no status, and has fetched nothing further. *)
Theorem reconcileChecks_fetch_error (r : progressing.Reconciler)
    (mr : progressing.ManagedResource) (w : progressing.World)
    (pre post : list progressing.ObjectReference) (ref : progressing.ObjectReference)
    (e : error) :
  progressing.Resources (progressing.ResourceStatus mr) = pre ++ ref :: post →
  Forall (settled w) pre →
  considered ref →
  progressing.faults w (workloadRequest ref) = Some e →
  IsNotFound e = false →
  let out := progressing.reconcileChecks r mr w in
  out.1 = Err e
  ∧ progressing.managedResources out.2 = progressing.managedResources w
  ∧ progressing.journal out.2
    = progressing.journal w ++ fetches pre ++ [workloadRequest ref].
Proof.
  intros Hrefs Hpre Hc Hf Hnf out.
  assert (Hout : out = (Err e, recordAll w (fetches pre ++ [workloadRequest ref]))).
  { unfold out, progressing.reconcileChecks. rewrite Hrefs.
    rewrite checkReferences_settled_prefix by done.
    cbn [progressing.checkReferences].
    rewrite checkReference_considered by done. simpl.
    rewrite Hf, Hnf. f_equal. unfold recordAll, progressing.record. simpl.
    by rewrite <- !app_assoc. }
  by rewrite Hout.
Qed.

(** X18.  A rolled-out ManagedResource: when every reference is settled, the
    check fetches the considered workloads and asks to come back after the
    sync period; it writes the status, with the condition that the builder
    returns merged in, only if the builder says that the condition
    changed. *)
Theorem reconcileChecks_rolled_out (r : progressing.Reconciler)
    (mr stored : progressing.ManagedResource) (w : progressing.World)
    (condition : progressing.Condition) (needsUpdate : bool) :
  Forall (settled w) (progressing.Resources (progressing.ResourceStatus mr)) →
  progressing.buildCondition progressing.ResourcesProgressing
    (progressing.GetOrInitConditionWithClock (progressing.Now r)
       (progressing.Conditions (progressing.ResourceStatus mr))
       progressing.ResourcesProgressing)
    progressing.ConditionFalse "ResourcesRolledOut" "All resources have been fully rolled out."
  = Ok (condition, needsUpdate) →
  progressing.faults w (statusUpdate mr) = None →
  progressing.managedResources w !! managedResourceKey mr = Some stored →
  let out := progressing.reconcileChecks r mr w in
  out.1 = Ok (progressing.requeue r)
  ∧ progressing.managedResources out.2
    = (if needsUpdate
       then <[managedResourceKey mr :=
                withStatusOf stored mr
                  (progressing.MergeConditions
                     (progressing.Conditions (progressing.ResourceStatus mr)) condition)]>
              (progressing.managedResources w)
       else progressing.managedResources w)
  ∧ progressing.journal out.2
    = progressing.journal w
        ++ fetches (progressing.Resources (progressing.ResourceStatus mr))
        ++ (if needsUpdate then [statusUpdate mr] else []).
Proof.
  intros Hall Hbuild Hfu Hstored out.
  set (refs := progressing.Resources (progressing.ResourceStatus mr)) in *.
  assert (Hout : out
    = (Ok (progressing.requeue r),
       if needsUpdate
       then progressing.setManagedResources (recordAll w (fetches refs ++ [statusUpdate mr]))
              (<[managedResourceKey mr :=
                   withStatusOf stored mr
                     (progressing.MergeConditions
                        (progressing.Conditions (progressing.ResourceStatus mr)) condition)]>
                 (progressing.managedResources w))
       else recordAll w (fetches refs))).
  { unfold out, progressing.reconcileChecks. fold refs.
    rewrite <- (app_nil_r refs) at 1.
    rewrite checkReferences_settled_prefix by done. simpl.
    rewrite Hbuild. destruct needsUpdate; [|done].
    rewrite Status_Update_spec. simpl.
    change (statusUpdate (progressing.withConditions mr ?x)) with (statusUpdate mr).
    change (managedResourceKey (progressing.withConditions mr ?x))
      with (managedResourceKey mr).
    rewrite Hfu, Hstored. f_equal.
    unfold progressing.setManagedResources, recordAll. simpl. by rewrite <- !app_assoc. }
  rewrite Hout. destruct needsUpdate; simpl; split_and!; try done.
  by rewrite app_nil_r.
Qed.

End ProgressingChecks.

Section ProgressingEffects.
Context `{progressing.Helpers}.

Lemma readsOnly_refl (w : progressing.World) : readsOnly w w.
Proof. split_and!; try done. exists []. by rewrite app_nil_r. Qed.

Lemma readsOnly_record (w : progressing.World) (ref : progressing.ObjectReference) :
  readsOnly w (progressing.record w (workloadRequest ref)).
Proof. split_and!; try done. exists [workloadRequest ref]. split; [done|]. by repeat constructor. Qed.

Lemma readsOnly_trans (w1 w2 w3 : progressing.World) :
  readsOnly w1 w2 → readsOnly w2 w3 → readsOnly w1 w3.
Proof.
  intros (Hm & Hw & Hf & gets & Hj & Hg) (Hm' & Hw' & Hf' & gets' & Hj' & Hg').
  split_and!; try congruence. exists (gets ++ gets'). split.
  - by rewrite Hj', Hj, app_assoc.
  - by apply Forall_app.
Qed.

Lemma readsOnly_statusOnly (mr : progressing.ManagedResource) (w w' : progressing.World) :
  readsOnly w w' → statusOnly mr w w'.
Proof.
  intros (Hm & Hw & Hf & gets & Hj & Hg). split_and!; try done.
  - intros k _. by rewrite Hm.
  - exists gets, []. rewrite app_nil_r. split_and!; try done. by left.
Qed.

Lemma reads_then_status (mr : progressing.ManagedResource) (w1 w2 w3 : progressing.World) :
  readsOnly w1 w2 → statusOnly mr w2 w3 → statusOnly mr w1 w3.
Proof.
  intros (Hm & Hw & Hf & gets & Hj & Hg) (Hw' & Hf' & Hm' & gets' & updates & Hj' & Hg' & Hu).
  split_and!; try congruence.
  - intros k Hk. rewrite Hm' by done. by rewrite Hm.
  - exists (gets ++ gets'), updates. split_and!.
    + by rewrite Hj', Hj, <- !app_assoc.
    + by apply Forall_app.
    + destruct Hu as [[-> Hu]| ->]; [left|by right]. split; [done|congruence].
Qed.

Lemma Status_Update_statusOnly (mr mr' : progressing.ManagedResource) (w : progressing.World) :
  progressing.ObjectMeta mr' = progressing.ObjectMeta mr →
  statusOnly mr w (progressing.Status_Update mr' w).2.
Proof.
  intros Hmeta. rewrite Status_Update_spec.
  assert (Hreq : statusUpdate mr' = statusUpdate mr)
    by (unfold statusUpdate; by rewrite Hmeta).
  assert (Hkey : managedResourceKey mr' = managedResourceKey mr)
    by (unfold managedResourceKey; by rewrite Hmeta).
  rewrite Hreq, Hkey.
  assert (Hrecord : statusOnly mr w (progressing.record w (statusUpdate mr))).
  { split_and!; try done. exists [], [statusUpdate mr]. split_and!; [done|constructor|by right]. }
  destruct (progressing.faults w _); [done|].
  destruct (progressing.managedResources w !! _) as [stored|]; [|done].
  split_and!; try done.
  - intros k Hk. simpl. by rewrite lookup_insert_ne.
  - exists [], [statusUpdate mr]. split_and!; [done|constructor|by right].
Qed.

Lemma checkReference_effects (r : progressing.Reconciler) (mr : progressing.ManagedResource)
    (cond : progressing.Condition) (ref : progressing.ObjectReference)
    (w : progressing.World) :
  let out := progressing.checkReference r mr cond ref w in
  match out.1 with
  | progressing.Continue => readsOnly w out.2
  | progressing.Return (Ok res) => res = progressing.requeue r ∧ statusOnly mr w out.2
  | progressing.Return (Err _) => statusOnly mr w out.2
  end.
Proof.
  destruct (decide (considered ref)) as [Hc|Hn].
  - rewrite checkReference_considered by done. cbv zeta.
    pose proof (readsOnly_record w ref) as Hread.
    destruct (progressing.faults w (workloadRequest ref)) as [err|].
    { destruct (IsNotFound err); simpl; [done|]. by apply readsOnly_statusOnly. }
    destruct (progressing.workloads w !! _) as [obj|]; [|done].
    destruct (progressing.checkProgressing _ obj).1; [|done].
    set (mr' := progressing.withConditions mr _).
    pose proof (Status_Update_statusOnly mr mr'
                  (progressing.record w (workloadRequest ref)) eq_refl) as Hup.
    destruct (progressing.Status_Update mr' _) as [[[]|err] w2]; simpl in *.
    + split; [done|]. by eapply reads_then_status.
    + by eapply reads_then_status.
  - rewrite checkReference_not_considered by done. simpl. apply readsOnly_refl.
Qed.

Lemma checkReferences_effects (r : progressing.Reconciler) (mr : progressing.ManagedResource)
    (cond : progressing.Condition) (refs : list progressing.ObjectReference)
    (w : progressing.World) :
  let out := progressing.checkReferences r mr cond refs w in
  match out.1 with
  | progressing.Continue => readsOnly w out.2
  | progressing.Return (Ok res) => res = progressing.requeue r ∧ statusOnly mr w out.2
  | progressing.Return (Err _) => statusOnly mr w out.2
  end.
Proof.
  revert w. induction refs as [|ref refs IH]; intros w; simpl.
  { apply readsOnly_refl. }
  pose proof (checkReference_effects r mr cond ref w) as Hstep. cbv zeta in Hstep.
  destruct (progressing.checkReference r mr cond ref w) as [[|res] w1]; simpl in *.
  - specialize (IH w1). cbv zeta in IH.
    destruct (progressing.checkReferences r mr cond refs w1) as [[|[res|e]] w2]; simpl in *.
    + by eapply readsOnly_trans.
    + destruct IH as [-> IH]. split; [done|]. by eapply reads_then_status.
    + by eapply reads_then_status.
  - done.
Qed.

Lemma reconcileChecks_outcome (r : progressing.Reconciler)
    (mr : progressing.ManagedResource) (w : progressing.World) :
  statusOnly mr w (progressing.reconcileChecks r mr w).2
  ∧ ∀ res, (progressing.reconcileChecks r mr w).1 = Ok res → res = progressing.requeue r.
Proof.
  unfold progressing.reconcileChecks.
  set (cond := progressing.GetOrInitConditionWithClock _ _ _).
  pose proof (checkReferences_effects r mr cond
                (progressing.Resources (progressing.ResourceStatus mr)) w) as Hloop.
  cbv zeta in Hloop.
  destruct (progressing.checkReferences r mr cond _ w) as [[|[res|e]] w1]; simpl in *.
  - destruct (progressing.buildCondition _ _ _ _ _) as [[condition needsUpdate]|err].
    + destruct needsUpdate.
      * set (mr' := progressing.withConditions mr _).
        pose proof (Status_Update_statusOnly mr mr' w1 eq_refl) as Hup.
        destruct (progressing.Status_Update mr' w1) as [[[]|err] w2]; simpl in *.
        -- split; [by eapply reads_then_status|]. by intros ? [= <-].
        -- split; [by eapply reads_then_status|done].
      * simpl. split; [by apply readsOnly_statusOnly|]. by intros ? [= <-].
    + simpl. split; [by apply readsOnly_statusOnly|done].
  - destruct Hloop as [-> Hloop]. split; [done|]. by intros ? [= <-].
  - by split.
Qed.

(** X19.  What the check may touch: whatever the workloads look like and
    whatever the stores answer, a run fetches workloads and then sends at
    most one request more, the update of the status of the ManagedResource
    at hand; workloads, faults and every other ManagedResource stay as they
    are, and without an update so does the ManagedResource itself. *)
Theorem reconcileChecks_effects (r : progressing.Reconciler)
    (mr : progressing.ManagedResource) (w : progressing.World) :
  statusOnly mr w (progressing.reconcileChecks r mr w).2.
Proof. apply reconcileChecks_outcome. Qed.

(** X20.  The check is periodic: for a ManagedResource that is stored, not
    ignored, of a class the reconciler is responsible for and not being
    deleted, every reconciliation that ends without error asks to come back
    after the sync period. *)
Theorem progressing_Reconcile_requeues (r : progressing.Reconciler) (req : string * string)
    (w : progressing.World) (mr : progressing.ManagedResource) (res : reconcile.Result) :
  progressing.faults w (progressing.GetManagedResource req.1 req.2) = None →
  progressing.managedResources w !! (req.1, req.2) = Some mr →
  progressing.IsIgnored mr = false →
  (progressing.Active mr).2 = true →
  progressing.IsZero (metav1.DeletionTimestamp (progressing.ObjectMeta mr)) = true →
  (progressing.Reconcile r req w).1 = Ok res →
  res = progressing.requeue r.
Proof.
  intros Hf Hmr Hign Hact Hdel. unfold progressing.Reconcile, progressing.Get_ManagedResource.
  rewrite Hf, Hmr, Hign, Hact, Hdel. simpl.
  destruct (progressing.appliedPending mr).
  - by intros [= <-].
  - apply reconcileChecks_outcome.
Qed.

End ProgressingEffects.

Lemma reconcileChecks_first_progressing_witness :
  let mr := MoreProgressingFixtures.applied MoreProgressingFixtures.references [] in
  let w := MoreProgressingFixtures.worldWith mr (λ _, None) in
  let out := progressing.reconcileChecks (H := MoreProgressingFixtures.rolling)
               ProgressingFixtures.everyMinute mr w in
  out.1 = Ok (progressing.requeue ProgressingFixtures.everyMinute)
  ∧ progressing.journal out.2
    = [progressing.GetWorkload "StatefulSet" "shoot" "etcd";
       progressing.GetWorkload "Deployment" "shoot" "quiet";
       progressing.GetWorkload "Deployment" "shoot" "api";
       progressing.UpdateStatus "garden" "mr"].
Proof.
  intros mr w out.
  destruct (reconcileChecks_first_progressing (H := MoreProgressingFixtures.rolling)
              ProgressingFixtures.everyMinute mr mr w
              (take 3 MoreProgressingFixtures.references)
              [MoreProgressingFixtures.reference "DaemonSet" "proxy"]
              (MoreProgressingFixtures.reference "Deployment" "api")
              (MoreProgressingFixtures.workload "api" ∅) "new replicas are coming up")
    as (Hres & _ & Hjournal).
  - reflexivity.
  - repeat apply Forall_cons_2; [| | |constructor].
    + left. intros [Hg _]. vm_compute in Hg. discriminate.
    + right. vm_compute. exact I.
    + right. vm_compute. reflexivity.
  - split; [reflexivity|left; reflexivity].
  - reflexivity.
  - vm_compute. reflexivity.
  - vm_compute. reflexivity.
  - reflexivity.
  - vm_compute. reflexivity.
  - split; [exact Hres|]. fold out in Hjournal. rewrite Hjournal. vm_compute. reflexivity.
Defined.

Lemma reconcileChecks_fetch_error_witness :
  let mr := MoreProgressingFixtures.applied MoreProgressingFixtures.references [] in
  let w := MoreProgressingFixtures.worldWith mr MoreProgressingFixtures.daemonSetsTimeOut in
  let out := progressing.reconcileChecks (H := ProgressingFixtures.helpers)
               ProgressingFixtures.everyMinute mr w in
  out.1 = Err (ErrStore "timeout")
  ∧ progressing.managedResources out.2 = progressing.managedResources w.
Proof.
  intros mr w out.
  destruct (reconcileChecks_fetch_error (H := ProgressingFixtures.helpers)
              ProgressingFixtures.everyMinute mr w
              (take 4 MoreProgressingFixtures.references) []
              (MoreProgressingFixtures.reference "DaemonSet" "proxy") (ErrStore "timeout"))
    as (Hres & Hmrs & _).
  - reflexivity.
  - repeat apply Forall_cons_2; [| | | |constructor].
    + left. intros [Hg _]. vm_compute in Hg. discriminate.
    + right. vm_compute. exact I.
    + right. vm_compute. reflexivity.
    + right. vm_compute. reflexivity.
  - split; [reflexivity|right; right; reflexivity].
  - reflexivity.
  - reflexivity.
  - split; [exact Hres|exact Hmrs].
Defined.

Lemma reconcileChecks_rolled_out_witness :
  let mr := MoreProgressingFixtures.rolledOut in
  let w := MoreProgressingFixtures.worldWith mr (λ _, None) in
  let out := progressing.reconcileChecks (H := ProgressingFixtures.helpers)
               ProgressingFixtures.everyMinute mr w in
  out.1 = Ok (progressing.requeue ProgressingFixtures.everyMinute)
  ∧ progressing.managedResources out.2 = progressing.managedResources w.
Proof.
  intros mr w out.
  destruct (reconcileChecks_rolled_out (H := ProgressingFixtures.helpers)
              ProgressingFixtures.everyMinute mr mr w
              {| progressing.ConditionType := progressing.ResourcesProgressing;
                 progressing.Status := progressing.ConditionFalse;
                 progressing.Reason := "ResourcesRolledOut";
                 progressing.Message := "All resources have been fully rolled out.";
                 progressing.LastTransitionTime := 1; progressing.LastUpdateTime := 1 |}
              false)
    as (Hres & Hmrs & _).
  - repeat apply Forall_cons_2; [| | | | |constructor].
    + left. intros [Hg _]. vm_compute in Hg. discriminate.
    + right. vm_compute. exact I.
    + right. vm_compute. reflexivity.
    + right. vm_compute. reflexivity.
    + right. vm_compute. reflexivity.
  - vm_compute. reflexivity.
  - reflexivity.
  - vm_compute. reflexivity.
  - split; [exact Hres|exact Hmrs].
Defined.

Lemma progressing_Reconcile_requeues_witness :
  {| reconcile.Requeue := false; reconcile.RequeueAfter := 60 |}
  = progressing.requeue ProgressingFixtures.everyMinute.
Proof.
  apply (progressing_Reconcile_requeues (H := ProgressingFixtures.helpers)
           ProgressingFixtures.everyMinute ("garden", "mr")
           (MoreProgressingFixtures.worldWith MoreProgressingFixtures.rolledOut (λ _, None))
           MoreProgressingFixtures.rolledOut).
  - reflexivity.
  - vm_compute. reflexivity.
  - vm_compute. reflexivity.
  - reflexivity.
  - reflexivity.
  - vm_compute. reflexivity.
Defined.

(** X21.  A numeric target port and the named target port that spells the
    same number give two derivations with one identity key. *)
Lemma derivationKey_number_as_name (service : corev1.Service)
    (protocol customPodLabelSelector namespaceName : string) (kind : PolicyKind) (n : Z) :
  let numeric :=
    {| dProtocol := protocol; dPort := intstr.FromInt n;
       dCustomPodLabelSelector := customPodLabelSelector;
       dNamespace := namespaceName; dKind := kind |} in
  let named :=
    {| dProtocol := protocol;
       dPort := intstr.FromString (intstr.String (Some (intstr.FromInt n)));
       dCustomPodLabelSelector := customPodLabelSelector;
       dNamespace := namespaceName; dKind := kind |} in
  numeric ≠ named ∧ derivationKey service numeric = derivationKey service named.
Proof. split; [discriminate|reflexivity]. Qed.
(** ** A reconciliation of an active Service, step by step *)

Section ActiveOutcome.
Context `{External}.

(** The requests before the fan-out are no requests for a NetworkPolicy. *)
Lemma quiet_refl (c : Cluster) :
  ∃ reqs, journal c = journal c ++ reqs ∧ Forall (λ req, isPolicyRequest req = false) reqs.
Proof. exists []. by rewrite app_nil_r. Qed.

Lemma quiet_trans (c1 c2 c3 : Cluster) :
  (∃ reqs, journal c2 = journal c1 ++ reqs ∧ Forall (λ req, isPolicyRequest req = false) reqs) →
  (∃ reqs, journal c3 = journal c2 ++ reqs ∧ Forall (λ req, isPolicyRequest req = false) reqs) →
  ∃ reqs, journal c3 = journal c1 ++ reqs ∧ Forall (λ req, isPolicyRequest req = false) reqs.
Proof.
  intros (r1 & H1 & F1) (r2 & H2 & F2). exists (r1 ++ r2). split.
  - by rewrite H2, H1, app_assoc.
  - by apply Forall_app.
Qed.

Lemma ensureFinalizer_result (service service' : corev1.Service) (c : Cluster) :
  (ensureFinalizer service c).1 = Ok service' → service' = withFinalizer service.
Proof.
  unfold ensureFinalizer, withFinalizer.
  destruct (ContainsFinalizer _ _); simpl; [by intros [= <-]|].
  unfold wrap.
  destruct (AddFinalizers service finalizerName c) as [[s|e] c1] eqn:Hadd; simpl; [|done].
  intros [= <-]. by apply AddFinalizers_result in Hadd.
Qed.

Lemma ensureFinalizer_closed (service : corev1.Service) (c : Cluster) :
  ensureFinalizer service c =
    if ContainsFinalizer (corev1.ObjectMeta service) finalizerName then (Ok service, c)
    else
      match faults c (PatchFinalizers (serviceNamespace service) (serviceName service)),
            services c !! (serviceNamespace service, serviceName service) with
      | Some e, _ =>
          (Err (ErrWrap "failed to add finalizer" e),
           record c (PatchFinalizers (serviceNamespace service) (serviceName service)))
      | None, None =>
          (Err (ErrWrap "failed to add finalizer" ErrNotFound),
           record c (PatchFinalizers (serviceNamespace service) (serviceName service)))
      | None, Some stored =>
          (Ok (withFinalizer service),
           setServices
             (record c (PatchFinalizers (serviceNamespace service) (serviceName service)))
             (<[(serviceNamespace service, serviceName service) :=
                  corev1.withObjectMeta stored
                    (metav1.SetFinalizers (corev1.ObjectMeta stored)
                       (metav1.Finalizers (corev1.ObjectMeta (withFinalizer service))))]>
                (services c)))
      end.
Proof.
  unfold ensureFinalizer, withFinalizer.
  destruct (ContainsFinalizer _ _) eqn:Hfin; simpl; [done|].
  unfold wrap, AddFinalizers, mbind, M_bind. rewrite patchFinalizers_spec.
  unfold serviceNamespace, serviceName. simpl.
  destruct (AddFinalizer_fields (corev1.ObjectMeta service) finalizerName) as (-> & -> & _).
  destruct (faults c _); [done|]. by destruct (services c !! _).
Qed.

Lemma ensureFinalizer_quiet (service : corev1.Service) (c : Cluster) :
  ∃ reqs, journal (ensureFinalizer service c).2 = journal c ++ reqs
          ∧ Forall (λ req, isPolicyRequest req = false) reqs.
Proof.
  rewrite ensureFinalizer_closed.
  destruct (ContainsFinalizer _ _); [apply quiet_refl|].
  destruct (faults c _); [|destruct (services c !! _)]; simpl;
    (eexists [_]; split; [done|by repeat constructor]).
Qed.

Lemma ensureFinalizer_respects (service : corev1.Service) (c c' : Cluster) :
  services c' = services c → faults c' = faults c →
  (ensureFinalizer service c').1 = (ensureFinalizer service c).1.
Proof.
  intros Hs Hf. rewrite !ensureFinalizer_closed, Hs, Hf.
  destruct (ContainsFinalizer _ _); [done|].
  destruct (faults c _); [done|]. by destruct (services c !! _).
Qed.

Lemma insertMatchingNamespaces_respects (sel : metav1.LabelSelector) (acc : gset string)
    (c c' : Cluster) :
  namespaces c' = namespaces c → faults c' = faults c →
  (insertMatchingNamespaces sel acc c').1 = (insertMatchingNamespaces sel acc c).1.
Proof.
  intros Hn Hf. unfold insertMatchingNamespaces, mbind, M_bind, lift, wrap.
  destruct (LabelSelectorAsSelector sel); simpl; [|done].
  rewrite !List_Namespaces_spec, Hn, Hf. by destruct (faults c ListNamespaces).
Qed.

Lemma insertMatchingNamespaces_quiet (sel : metav1.LabelSelector) (acc : gset string)
    (c : Cluster) :
  ∃ reqs, journal (insertMatchingNamespaces sel acc c).2 = journal c ++ reqs
          ∧ Forall (λ req, isPolicyRequest req = false) reqs.
Proof.
  unfold insertMatchingNamespaces, mbind, M_bind, lift, wrap.
  destruct (LabelSelectorAsSelector sel); simpl; [|apply quiet_refl].
  rewrite List_Namespaces_spec.
  destruct (faults c ListNamespaces); simpl;
    (eexists [_]; split; [done|by repeat constructor]).
Qed.

Lemma forEachSelector_respects (sels : list metav1.LabelSelector) (acc : gset string)
    (c c' : Cluster) :
  namespaces c' = namespaces c → faults c' = faults c →
  (forEachSelector sels acc c').1 = (forEachSelector sels acc c).1.
Proof.
  revert acc c c'. induction sels as [|sel sels IH]; intros acc c c' Hn Hf; [done|].
  simpl. unfold mbind, M_bind.
  pose proof (insertMatchingNamespaces_respects sel acc c c' Hn Hf) as Hr.
  pose proof (insertMatchingNamespaces_sameObjects sel acc c) as (_ & Hn1 & _ & Hf1).
  pose proof (insertMatchingNamespaces_sameObjects sel acc c') as (_ & Hn1' & _ & Hf1').
  destruct (insertMatchingNamespaces sel acc c) as [r1 c1],
           (insertMatchingNamespaces sel acc c') as [r1' c1']. simpl in *. subst r1'.
  destruct r1 as [acc'|e]; [|done]. apply IH; congruence.
Qed.

Lemma forEachSelector_quiet (sels : list metav1.LabelSelector) (acc : gset string)
    (c : Cluster) :
  ∃ reqs, journal (forEachSelector sels acc c).2 = journal c ++ reqs
          ∧ Forall (λ req, isPolicyRequest req = false) reqs.
Proof.
  revert acc c. induction sels as [|sel sels IH]; intros acc c; [apply quiet_refl|].
  simpl. unfold mbind, M_bind.
  pose proof (insertMatchingNamespaces_quiet sel acc c) as Hq.
  destruct (insertMatchingNamespaces sel acc c) as [[acc'|e] c1]; [|done].
  eapply quiet_trans; [exact Hq|apply IH].
Qed.

Lemma fetchRelevantNamespaceNames_respects (service : corev1.Service) (c c' : Cluster) :
  namespaces c' = namespaces c → faults c' = faults c →
  (fetchRelevantNamespaceNames service c').1 = (fetchRelevantNamespaceNames service c).1.
Proof.
  intros Hn Hf. unfold fetchRelevantNamespaceNames, mbind, M_bind.
  destruct (annotation service NetworkingNamespaceSelectors) as [v|].
  - unfold lift. destruct (wrapResult _ _); simpl; [|done].
    by apply forEachSelector_respects.
  - by apply forEachSelector_respects.
Qed.

Lemma fetchRelevantNamespaceNames_quiet (service : corev1.Service) (c : Cluster) :
  ∃ reqs, journal (fetchRelevantNamespaceNames service c).2 = journal c ++ reqs
          ∧ Forall (λ req, isPolicyRequest req = false) reqs.
Proof.
  unfold fetchRelevantNamespaceNames, mbind, M_bind.
  destruct (annotation service NetworkingNamespaceSelectors) as [v|].
  - unfold lift. destruct (wrapResult _ _); simpl; [|apply quiet_refl].
    apply forEachSelector_quiet.
  - apply forEachSelector_quiet.
Qed.

(** The active branch, by cases on the three steps before the fan-out. *)
Lemma reconcileActive_cases (sched : Scheduler) (service : corev1.Service)
    (l : list metav1.PartialObjectMetadata) (c : Cluster) :
  ∃ c5,
    namespaces c5 = namespaces c ∧ networkPolicies c5 = networkPolicies c
    ∧ faults c5 = faults c
    ∧ (∃ reqs, journal c5 = journal c ++ reqs
               ∧ Forall (λ req, isPolicyRequest req = false) reqs)
    ∧ match (ensureFinalizer service c).1 with
      | Err e => reconcileActive sched service l c = (Err e, c5)
      | Ok _ =>
          match (fetchRelevantNamespaceNames (withFinalizer service) c).1 with
          | Err e => reconcileActive sched service l c = (Err e, c5)
          | Ok names =>
              match reconcileDesiredPolicies (withFinalizer service) names with
              | Err e => reconcileActive sched service l c = (Err e, c5)
              | Ok (tasks, keys) =>
                  let fns := tasks ++ deleteStalePolicies l keys in
                  let served_ := served (sched (length fns)) fns in
                  reconcileActive sched service l c
                  = (match (serve served_ c5).1 with
                     | Some e => Err e
                     | None => Ok reconcile.empty
                     end, (serve served_ c5).2)
              end
          end
      end.
Proof.
  remember (reconcileActive sched service l c) as out eqn:Hout.
  unfold reconcileActive, mbind at 1, M_bind at 1 in Hout.
  destruct (ensureFinalizer_cases service c) as [(Hn1 & Hp1 & Hf1) _].
  pose proof (ensureFinalizer_quiet service c) as Hq1.
  pose proof (λ service', ensureFinalizer_result service service' c) as Hres.
  destruct (ensureFinalizer service c) as [[service'|e] c1];
    simpl in Hn1, Hp1, Hf1, Hq1, Hres |- *.
  2: { exists c1. by split_and!. }
  rewrite (Hres service' eq_refl) in Hout. clear Hres.
  unfold mbind at 1, M_bind at 1 in Hout.
  pose proof (fetchRelevantNamespaceNames_sameObjects (withFinalizer service) c1)
    as (_ & Hn2 & Hp2 & Hf2).
  pose proof (fetchRelevantNamespaceNames_quiet (withFinalizer service) c1) as Hq2.
  pose proof (fetchRelevantNamespaceNames_respects (withFinalizer service) c c1 Hn1 Hf1)
    as Hr2.
  destruct (fetchRelevantNamespaceNames (withFinalizer service) c1) as [r2 c2].
  simpl in Hn2, Hp2, Hf2, Hq2, Hr2. rewrite <- Hr2.
  exists c2. split_and!; [congruence..|by eapply quiet_trans|].
  destruct r2 as [names|e]; [|done].
  unfold mbind at 1, M_bind at 1, lift in Hout.
  destruct (reconcileDesiredPolicies (withFinalizer service) names) as [[tasks keys]|e];
    [|done].
  unfold mbind, M_bind in Hout. simpl in Hout. rewrite Parallel_spec in Hout.
  simpl. rewrite Hout. by destruct (serve _ c2).1.
Qed.

(** The three reads that open the reconciliation of a fetched Service. *)
Lemma Reconcile_opening (r : Reconciler) (sched : Scheduler) (request : string * string)
    (c : Cluster) (service : corev1.Service) (handled : bool) :
  (Get_Service request.1 request.2 c).1 = Ok service →
  faults c ListNetworkPolicies = None →
  (namespaceIsHandled r (serviceNamespace service) c).1 = Ok handled →
  ∃ c3,
    sameObjects c c3
    ∧ journal c3 = journal c ++ [GetService request.1 request.2; ListNetworkPolicies;
                                 GetNamespace (serviceNamespace service)]
    ∧ Reconcile r sched request c =
        (if bool_decide (metav1.DeletionTimestamp (corev1.ObjectMeta service) ≠ None)
            || bool_decide (corev1.Selector (corev1.Spec service) = None)
            || negb handled
         then reconcileInactive sched service (listed service c) c3
         else reconcileActive sched service (listed service c) c3).
Proof.
  intros Hget Hlist Hhandled. rewrite Get_Service_spec in Hget.
  unfold Reconcile. rewrite Get_Service_spec.
  destruct (faults c (GetService request.1 request.2)); [done|].
  destruct (services c !! (request.1, request.2)) as [service0|]; [|done].
  simpl in Hget. injection Hget as ->.
  set (c1 := record c _).
  unfold reconcileService, mbind at 1, M_bind at 1, wrap at 1.
  rewrite List_NetworkPolicies_spec. change (faults c1) with (faults c). rewrite Hlist.
  simpl. fold (listed service c). set (c2 := record c1 _).
  unfold mbind at 1, M_bind at 1, wrap at 1.
  assert (Hsame2 : sameObjects c c2) by done.
  pose proof (namespaceIsHandled_sameObjects_result r (serviceNamespace service) c c2 Hsame2)
    as Hres.
  pose proof (namespaceIsHandled_sameObjects r (serviceNamespace service) c2) as Hsame3.
  pose proof (namespaceIsHandled_journal r (serviceNamespace service) c2) as Hj3.
  rewrite Hhandled in Hres.
  destruct (namespaceIsHandled r (serviceNamespace service) c2) as [rh c3].
  simpl in *. subst rh. simpl. exists c3. split_and!.
  - by eapply sameObjects_trans.
  - rewrite Hj3. unfold c2, c1. simpl. by rewrite <- !app_assoc.
  - by destruct (_ || _ || _).
Qed.

End ActiveOutcome.

(** ** The requests and the writes of a fan-out *)

Section FanOutRequests.
Context `{External}.

Lemma runTask_journal (t : TaskFn) (c : Cluster) :
  journal (runTask t c).2
  = journal c ++ (if sendsRequest t then [taskRequest t] else []).
Proof.
  destruct t as [service port meta n ml|service port meta n ml|service meta|np]; simpl.
  - unfold reconcileIngressPolicy. rewrite GetAndCreateOrMergePatch_spec. simpl.
    by destruct (faults c _).
  - unfold reconcileEgressPolicy. rewrite GetAndCreateOrMergePatch_spec. simpl.
    by destruct (faults c _).
  - unfold reconcileIngressFromWorldPolicy, mbind, M_bind, lift.
    destruct (unmarshalPorts _) as [ports|e]; simpl; [|by rewrite app_nil_r].
    rewrite GetAndCreateOrMergePatch_spec. simpl. by destruct (faults c _).
  - unfold DeleteObject. by destruct (faults c _).
Qed.

Lemma serve_journal_exact (tasks : list TaskFn) (c : Cluster) :
  journal (serve tasks c).2
  = journal c ++ (taskRequest <$> filter (λ t, sendsRequest t = true) tasks).
Proof.
  revert c. induction tasks as [|t tasks IH]; intros c; [by rewrite app_nil_r|].
  rewrite (proj1 (serve_cons t tasks c)), IH, runTask_journal, filter_cons.
  destruct (decide (sendsRequest t = true)) as [->|Hno].
  - by rewrite fmap_cons, <- app_assoc.
  - apply not_true_is_false in Hno. by rewrite Hno, app_nil_r.
Qed.

(** What a task does to the policies: an upsert that sends its request to a
    store that serves it writes a policy of its Service at its target, any
    other upsert writes nothing; a delete removes at most its target. *)
Lemma runTask_policies (t : TaskFn) (c : Cluster) :
  match taskService t with
  | Some service =>
      (sendsRequest t = true ∧ faults c (taskRequest t) = None
       ∧ (runTask t c).1 = Ok tt
       ∧ ∃ np, ownedBy service np
           ∧ networkingv1.PolicyTypes (networkingv1.Spec np) = taskPolicyTypes t
           ∧ networkPolicies (runTask t c).2 = <[taskTarget t := np]> (networkPolicies c))
      ∨ ((sendsRequest t = false ∨ is_Some (faults c (taskRequest t)))
         ∧ isErr (runTask t c).1 = true
         ∧ networkPolicies (runTask t c).2 = networkPolicies c)
  | None =>
      networkPolicies (runTask t c).2 = networkPolicies c
      ∨ networkPolicies (runTask t c).2 = delete (taskTarget t) (networkPolicies c)
  end.
Proof.
  destruct t as [service port meta n ml|service port meta n ml|service meta|np]; simpl.
  - unfold reconcileIngressPolicy. rewrite GetAndCreateOrMergePatch_spec. simpl.
    destruct (faults c _) as [e|]; simpl.
    + right. split_and!; [right; by eexists|done..].
    + left. split_and!; [done..|]. eexists. split_and!; [| |reflexivity]; [apply stamp_owned|done].
  - unfold reconcileEgressPolicy. rewrite GetAndCreateOrMergePatch_spec. simpl.
    destruct (faults c _) as [e|]; simpl.
    + right. split_and!; [right; by eexists|done..].
    + left. split_and!; [done..|]. eexists. split_and!; [| |reflexivity]; [apply stamp_owned|done].
  - unfold reconcileIngressFromWorldPolicy, mbind, M_bind, lift.
    destruct (unmarshalPorts _) as [ports|e]; simpl.
    + rewrite GetAndCreateOrMergePatch_spec. simpl.
      destruct (faults c _) as [e|]; simpl.
      * right. split_and!; [right; by eexists|done..].
      * left. split_and!; [done..|]. eexists. split_and!; [| |reflexivity]; [apply stamp_owned|done].
    + right. split_and!; [by left|done..].
  - unfold DeleteObject. destruct (faults c _); simpl; [by left|by right].
Qed.

Lemma runTask_faults (t : TaskFn) (c : Cluster) : faults (runTask t c).2 = faults c.
Proof.
  pose proof (serve_samePolicies_but_policies [t] c) as (_ & _ & Hf).
  by rewrite (proj1 (serve_cons t [] c)) in Hf.
Qed.

Lemma serve_preserves (P : Cluster → Prop) (tasks : list TaskFn) :
  (∀ t c, t ∈ tasks → P c → P (runTask t c).2) →
  ∀ c, P c → P (serve tasks c).2.
Proof.
  induction tasks as [|t tasks IH]; intros Hstep c HP; [done|].
  rewrite (proj1 (serve_cons t tasks c)). apply IH.
  - intros t' c' Ht'. apply Hstep. by right.
  - apply Hstep; [by left|done].
Qed.

(** A task of the fan-out establishes what every task of it preserves. *)
Lemma serve_establishes_at (P : Cluster → Prop) (tasks : list TaskFn) (t : TaskFn) :
  t ∈ tasks →
  (∀ c, faults c (taskRequest t) = None → P (runTask t c).2) →
  (∀ t' c, t' ∈ tasks → P c → P (runTask t' c).2) →
  ∀ c, faults c (taskRequest t) = None → P (serve tasks c).2.
Proof.
  induction tasks as [|t0 tasks IH]; intros Hin Hest Hstep c Hf; [by inversion Hin|].
  rewrite (proj1 (serve_cons t0 tasks c)).
  apply elem_of_cons in Hin as [<-|Hin].
  - apply serve_preserves.
    + intros t' c' Ht'. apply Hstep. by right.
    + by apply Hest.
  - apply IH; [done|done| |by rewrite runTask_faults].
    intros t' c' Ht'. apply Hstep. by right.
Qed.

(** A fan-out without error has served every task without error. *)
Lemma serve_None (tasks : list TaskFn) (t : TaskFn) (c : Cluster) :
  (serve tasks c).1 = None → t ∈ tasks →
  ∃ c', faults c' = faults c ∧ (runTask t c').1 = Ok tt.
Proof.
  revert c. induction tasks as [|t0 tasks IH]; intros c Hnone Hin; [by inversion Hin|].
  apply (serve_cons t0 tasks c) in Hnone as [Hok Hrest].
  apply elem_of_cons in Hin as [->|Hin]; [by exists c|].
  destruct (IH _ Hrest Hin) as (c' & Hf & Hrun). exists c'.
  by rewrite Hf, runTask_faults.
Qed.

(** The policy that an upsert of the fan-out writes is in the store when the
    fan-out is over, unless a delete of the fan-out works on the same object. *)
Lemma serve_upserted (service : corev1.Service) (tasks : list TaskFn) (t : TaskFn)
    (c : Cluster) :
  t ∈ tasks → taskService t ≠ None → sendsRequest t = true →
  faults c (taskRequest t) = None →
  (∀ t', t' ∈ tasks →
     match taskService t' with
     | Some service' =>
         backReferenceLabels service' = backReferenceLabels service
         ∧ (taskTarget t' = taskTarget t → taskPolicyTypes t' = taskPolicyTypes t)
     | None => taskTarget t' ≠ taskTarget t
     end) →
  ∃ np, networkPolicies (serve tasks c).2 !! taskTarget t = Some np
        ∧ ownedBy service np
        ∧ networkingv1.PolicyTypes (networkingv1.Spec np) = taskPolicyTypes t.
Proof.
  intros Hin Hup Hsends Hfault Htasks.
  apply (serve_establishes_at
           (λ c, ∃ np, networkPolicies c !! taskTarget t = Some np ∧ ownedBy service np
                       ∧ networkingv1.PolicyTypes (networkingv1.Spec np) = taskPolicyTypes t)
           tasks t Hin); [| |done].
  - intros c0 Hf. pose proof (runTask_policies t c0) as Hrun.
    pose proof (Htasks t Hin) as Hlabels.
    destruct (taskService t) as [service'|]; [|done].
    destruct Hlabels as [Hlabels _].
    destruct Hrun as [(_ & _ & _ & np & Hown & Htypes & ->)|([Hno|[e He]] & _)].
    + exists np. rewrite lookup_insert_eq. split_and!; [done| |done].
      unfold ownedBy in *. by rewrite <- Hlabels.
    + by rewrite Hno in Hsends.
    + by rewrite He in Hf.
  - intros t' c0 Ht' (np & Hnp & Hown & Htypes).
    pose proof (runTask_policies t' c0) as Hrun.
    pose proof (Htasks t' Ht') as Hlabels.
    destruct (taskService t') as [service'|].
    + destruct Hlabels as [Hlabels Hsame].
      destruct Hrun as [(_ & _ & _ & np' & Hown' & Htypes' & ->)|(_ & _ & ->)];
        [|by exists np].
      destruct (decide (taskTarget t' = taskTarget t)) as [Heq|Hne].
      * exists np'. rewrite Heq, lookup_insert_eq. split_and!; [done| |].
        -- unfold ownedBy in *. by rewrite <- Hlabels.
        -- by rewrite Htypes', Hsame.
      * exists np. by rewrite lookup_insert_ne.
    + destruct Hrun as [->| ->]; [by exists np|].
      exists np. by rewrite lookup_delete_ne.
Qed.

End FanOutRequests.

(** ** From [Reconcile] to the fan-out *)

Lemma withFinalizer_fields (service : corev1.Service) :
  serviceName (withFinalizer service) = serviceName service
  ∧ serviceNamespace (withFinalizer service) = serviceNamespace service
  ∧ metav1.Annotations (corev1.ObjectMeta (withFinalizer service))
    = metav1.Annotations (corev1.ObjectMeta service)
  ∧ corev1.Spec (withFinalizer service) = corev1.Spec service.
Proof.
  unfold withFinalizer, serviceName, serviceNamespace.
  destruct (ContainsFinalizer _ _); [done|]. simpl.
  by destruct (AddFinalizer_fields (corev1.ObjectMeta service) finalizerName) as (-> & -> & ->).
Qed.

Lemma backReferenceLabels_withFinalizer (service : corev1.Service) :
  backReferenceLabels (withFinalizer service) = backReferenceLabels service.
Proof.
  unfold backReferenceLabels.
  by destruct (withFinalizer_fields service) as (-> & -> & _).
Qed.

Lemma omap_reverse {A B} (f : A → option B) (l : list A) :
  omap f (reverse l) = reverse (omap f l).
Proof.
  induction l as [|x l IH]; [done|].
  rewrite reverse_cons, omap_app, IH. simpl.
  destruct (f x); simpl; [by rewrite reverse_cons|by rewrite app_nil_r].
Qed.

Lemma served_lastFirst (fns : list TaskFn) :
  served (reverse (seq 0 (length fns))) fns = reverse fns.
Proof.
  unfold served. rewrite omap_reverse. f_equal. apply (served_all fns).
Qed.

(** Delete requests followed by upsert requests. *)
Lemma deletesBeforeUpserts_app (dels ups : list Request) :
  Forall (λ req, isDeleteRequest req = true) dels →
  Forall (λ req, isUpsertRequest req = true) ups →
  ∀ i j d u, (dels ++ ups) !! i = Some d → (dels ++ ups) !! j = Some u →
    isDeleteRequest d = true → isUpsertRequest u = true → (i < j)%nat.
Proof.
  intros Hdels Hups i j d u Hi Hj Hd Hu.
  apply lookup_app_Some in Hj as [Hj|[Hlen Hj]].
  - apply list_elem_of_lookup_2 in Hj.
    rewrite Forall_forall in Hdels. specialize (Hdels u Hj).
    by destruct u.
  - apply lookup_app_Some in Hi as [Hi|[_ Hi]].
    + apply lookup_lt_Some in Hi. lia.
    + apply list_elem_of_lookup_2 in Hi.
      rewrite Forall_forall in Hups. specialize (Hups d Hi).
      by destruct d.
Qed.

Lemma elem_of_listed (service : corev1.Service) (c : Cluster)
    (meta : metav1.PartialObjectMetadata) :
  meta ∈ listed service c ↔
  ∃ k np, networkPolicies c !! k = Some np ∧ networkingv1.ObjectMeta np = meta
          ∧ ownedBy service np.
Proof.
  unfold listed, ownedBy. rewrite list_elem_of_filter, list_elem_of_fmap. split.
  - intros (Hown & [k m] & -> & Hin). apply elem_of_map_to_list in Hin.
    apply lookup_fmap_Some in Hin as (np & <- & Hnp). by exists k, np.
  - intros (k & np & Hnp & <- & Hown). split; [done|].
    exists (k, networkingv1.ObjectMeta np). split; [done|].
    apply elem_of_map_to_list, lookup_fmap_Some. by exists np.
Qed.

Section ToFanOut.
Context `{External}.

(** The reconciliation of an active Service in a handled namespace, by cases
    on the steps before the fan-out. *)
Lemma Reconcile_active_cases (r : Reconciler) (sched : Scheduler) (request : string * string)
    (c : Cluster) (service : corev1.Service) :
  (Get_Service request.1 request.2 c).1 = Ok service →
  faults c ListNetworkPolicies = None →
  (namespaceIsHandled r (serviceNamespace service) c).1 = Ok true →
  activeService service →
  ∃ c5 before,
    namespaces c5 = namespaces c ∧ networkPolicies c5 = networkPolicies c
    ∧ faults c5 = faults c
    ∧ journal c5 = journal c ++ before
    ∧ Forall (λ req, isPolicyRequest req = false) before
    ∧ match (ensureFinalizer service c).1 with
      | Err e => Reconcile r sched request c = (Err e, c5)
      | Ok _ =>
          match (fetchRelevantNamespaceNames (withFinalizer service) c).1 with
          | Err e => Reconcile r sched request c = (Err e, c5)
          | Ok names =>
              match reconcileDesiredPolicies (withFinalizer service) names with
              | Err e => Reconcile r sched request c = (Err e, c5)
              | Ok (tasks, keys) =>
                  let fns := tasks ++ deleteStalePolicies (listed service c) keys in
                  let served_ := served (sched (length fns)) fns in
                  Reconcile r sched request c
                  = (match (serve served_ c5).1 with
                     | Some e => Err e
                     | None => Ok reconcile.empty
                     end, (serve served_ c5).2)
              end
          end
      end.
Proof.
  intros Hget Hlist Hhandled [Hlive Hsel].
  destruct (Reconcile_opening r sched request c service true Hget Hlist Hhandled)
    as (c3 & (Hs3 & Hn3 & Hp3 & Hf3) & Hj3 & ->).
  rewrite Hlive. destruct (corev1.Selector (corev1.Spec service)) as [sel|] eqn:Hs; [|done].
  simpl.
  destruct (reconcileActive_cases sched service (listed service c) c3)
    as (c5 & Hn5 & Hp5 & Hf5 & (reqs & Hj5 & Hreqs) & Hcases).
  rewrite (ensureFinalizer_respects service c c3 Hs3 Hf3) in Hcases.
  rewrite (fetchRelevantNamespaceNames_respects (withFinalizer service) c c3 Hn3 Hf3)
    in Hcases.
  exists c5, ([GetService request.1 request.2; ListNetworkPolicies;
               GetNamespace (serviceNamespace service)] ++ reqs).
  split_and!; [congruence|congruence|congruence| | |exact Hcases].
  - by rewrite Hj5, Hj3, <- app_assoc.
  - apply Forall_app. split; [by repeat constructor|done].
Qed.

End ToFanOut.

(** ** One fan-out, no barrier *)

Section NoBarrierReconcile.
Context `{External}.

(** C1 (amended).  A reconciliation that reaches its fan-out (the Service is
    fetched, is not being deleted and selects pods, its policies are listed,
    its namespace is handled, the finalizer is in place, the relevant
    namespaces [names] and the desired [tasks] and [keys] are derived) sends,
    after requests that concern no NetworkPolicy, exactly the requests of ONE
    fan-out of the upsert tasks followed by the stale-delete tasks, in the
    order the scheduler serves that one list: there is no barrier.  Served in
    dispatch order every upsert request precedes every delete request; served
    last to first every delete request precedes every upsert request.  Under
    every schedule an upsert request is for a desired key and a delete
    request is for a listed policy of the Service whose key is not desired,
    so nothing that is upserted in a reconciliation is deleted by it. *)
Theorem Reconcile_fanOut_without_barrier (r : Reconciler) (sched : Scheduler)
    (request : string * string) (c : Cluster) (service : corev1.Service)
    (names : gset string) (tasks : list TaskFn) (keys : list string) :
  (Get_Service request.1 request.2 c).1 = Ok service →
  faults c ListNetworkPolicies = None →
  (namespaceIsHandled r (serviceNamespace service) c).1 = Ok true →
  activeService service →
  isErr (ensureFinalizer service c).1 = false →
  (fetchRelevantNamespaceNames (withFinalizer service) c).1 = Ok names →
  reconcileDesiredPolicies (withFinalizer service) names = Ok (tasks, keys) →
  let fns := tasks ++ deleteStalePolicies (listed service c) keys in
  let sent :=
    taskRequest <$> filter (λ t, sendsRequest t = true) (served (sched (length fns)) fns) in
  (∃ before,
     journal (Reconcile r sched request c).2 = journal c ++ before ++ sent
     ∧ Forall (λ req, isPolicyRequest req = false) before)
  ∧ (sched (length fns) = seq 0 (length fns) → upsertsBeforeDeletes sent)
  ∧ (sched (length fns) = reverse (seq 0 (length fns)) →
     ∀ i j d u, sent !! i = Some d → sent !! j = Some u →
       isDeleteRequest d = true → isUpsertRequest u = true → (i < j)%nat)
  ∧ (∀ namespace name, UpsertNetworkPolicy namespace name ∈ sent →
       namespace +:+ "/" +:+ name ∈ keys)
  ∧ (∀ namespace name, DeleteNetworkPolicy namespace name ∈ sent →
       ¬ (namespace +:+ "/" +:+ name ∈ keys)
       ∧ ¬ (UpsertNetworkPolicy namespace name ∈ sent)
       ∧ ∃ k np, networkPolicies c !! k = Some np ∧ ownedBy service np
           ∧ metav1.Namespace (networkingv1.ObjectMeta np) = namespace
           ∧ metav1.Name (networkingv1.ObjectMeta np) = name).
Proof.
  intros Hget Hlist Hhandled Hactive Hfin Hnames Hdesired fns sent.
  pose proof (reconcileDesiredPolicies_spec _ _ _ _ Hdesired) as (Hkeys & Hups & _).
  assert (Hdels : Forall (λ t, isDeleteTask t = true)
                    (deleteStalePolicies (listed service c) keys)).
  { apply Forall_forall. intros t Ht.
    by apply elem_of_deleteStalePolicies in Ht as (np & -> & _). }
  assert (Hupreqs : ∀ l, Forall (λ req, isUpsertRequest req = true)
                      (taskRequest <$> filter (λ t, sendsRequest t = true) l)
                    ↔ Forall (λ t, isUpsertTask t = true)
                        (filter (λ t, sendsRequest t = true) l)).
  { intros l. rewrite Forall_fmap. apply Forall_proper; [|done].
    intros t. simpl. by rewrite (proj1 (taskRequest_kind t)). }
  assert (Hdelreqs : ∀ l, Forall (λ req, isDeleteRequest req = true)
                       (taskRequest <$> filter (λ t, sendsRequest t = true) l)
                     ↔ Forall (λ t, isDeleteTask t = true)
                         (filter (λ t, sendsRequest t = true) l)).
  { intros l. rewrite Forall_fmap. apply Forall_proper; [|done].
    intros t. simpl. by rewrite (proj2 (taskRequest_kind t)). }
  assert (Hfilter : ∀ (P : TaskFn → Prop) l, Forall P l →
                      Forall P (filter (λ t, sendsRequest t = true) l)).
  { intros P l HP. apply Forall_forall. intros t [_ Ht]%list_elem_of_filter.
    rewrite Forall_forall in HP. by apply HP. }
  assert (Hsent : ∀ req, req ∈ sent → ∃ t, req = taskRequest t ∧ t ∈ fns).
  { intros req (t & -> & [_ Ht]%list_elem_of_filter)%list_elem_of_fmap.
    exists t. split; [done|]. by eapply served_elem_of. }
  assert (Hup : ∀ namespace name, UpsertNetworkPolicy namespace name ∈ sent →
                  namespace +:+ "/" +:+ name ∈ keys).
  { intros namespace name (t & Hreq & Ht)%Hsent.
    symmetry in Hreq. apply taskRequest_upsert in Hreq as [Hupt <-].
    apply elem_of_app in Ht as [Ht|Ht].
    - rewrite Hkeys. apply list_elem_of_fmap. by exists t.
    - rewrite Forall_forall in Hdels. specialize (Hdels t Ht).
      unfold isUpsertTask in Hupt. by rewrite Hdels in Hupt. }
  split_and!.
  - destruct (Reconcile_active_cases r sched request c service Hget Hlist Hhandled Hactive)
      as (c5 & before & _ & _ & _ & Hj5 & Hbefore & Hcases).
    destruct (ensureFinalizer service c).1; [|done].
    rewrite Hnames, Hdesired in Hcases. simpl in Hcases.
    exists before. split; [|done].
    rewrite Hcases. simpl. by rewrite serve_journal_exact, Hj5, <- app_assoc.
  - intros Hsched. unfold sent. rewrite Hsched, served_all. unfold fns.
    rewrite filter_app, fmap_app. apply upsertsBeforeDeletes_app.
    + by apply Hupreqs, Hfilter.
    + by apply Hdelreqs, Hfilter.
  - intros Hsched. unfold sent. rewrite Hsched, served_lastFirst. unfold fns.
    rewrite reverse_app, filter_app, fmap_app. apply deletesBeforeUpserts_app.
    + apply Hdelreqs, Hfilter, Forall_reverse, Hdels.
    + apply Hupreqs, Hfilter, Forall_reverse, Hups.
  - exact Hup.
  - intros namespace name Hin. pose proof Hin as (t & Hreq & Ht)%Hsent.
    symmetry in Hreq. pose proof Hreq as [Hdel Hk]%taskRequest_delete.
    apply elem_of_app in Ht as [Ht|Ht].
    { rewrite Forall_forall in Hups. specialize (Hups t Ht).
      unfold isUpsertTask in Hups. by rewrite Hdel in Hups. }
    apply elem_of_deleteStalePolicies in Ht as (meta & -> & Hmeta & Hstale).
    simpl in Hreq. injection Hreq as <- <-.
    split_and!; [done|by intros ?%Hup|].
    apply elem_of_listed in Hmeta as (k & np & Hnp & <- & Hown). by exists k, np.
Qed.

End NoBarrierReconcile.

Lemma Reconcile_fanOut_without_barrier_witness :
  let out := @Reconcile Fixtures.ext {| selectors := [] |} lastFirst ("ns1", "svc1")
               Fixtures.clusterStale in
  ∃ before,
    journal out.2
    = before ++ [DeleteNetworkPolicy "ns1" "ingress-to-svc1-tcp-8080";
                 UpsertNetworkPolicy "ns1" "egress-to-svc1-tcp-80";
                 UpsertNetworkPolicy "ns1" "ingress-to-svc1-tcp-80"]
    ∧ Forall (λ req, isPolicyRequest req = false) before.
Proof.
  intros out.
  destruct (@Reconcile_fanOut_without_barrier Fixtures.ext {| selectors := [] |} lastFirst
              ("ns1", "svc1") Fixtures.clusterStale Fixtures.svc1 {[ "ns1" ]}
              (portTasks (withFinalizer Fixtures.svc1)
                 (Fixtures.servicePort "TCP" (intstr.FromInt 80)) "ns1")
              ["ns1/ingress-to-svc1-tcp-80"; "ns1/egress-to-svc1-tcp-80"])
    as [(before & Hj & Hbefore) _].
  - vm_compute. reflexivity.
  - reflexivity.
  - vm_compute. reflexivity.
  - split; [reflexivity|]. simpl. discriminate.
  - vm_compute. reflexivity.
  - vm_compute. reflexivity.
  - vm_compute. reflexivity.
  - exists before. split; [|exact Hbefore].
    unfold out. rewrite Hj. vm_compute. reflexivity.
Defined.

(** ** The desired tasks in the fan-out *)

Lemma policyTasks_head (service : corev1.Service) (port : networkingv1.NetworkPolicyPort)
    (policyID podLabelSelector n : string) (t : TaskFn) :
  t ∈ policyTasks service port policyID podLabelSelector n →
  taskService t = Some service
  ∧ ∃ rest, (taskTarget t).2
            = String (match taskPolicyTypes t with
                      | [networkingv1.PolicyTypeEgress] => "e"
                      | _ => "i"
                      end)%char rest.
Proof.
  unfold policyTasks. intros [->|[->|[]%elem_of_nil]%elem_of_cons]%elem_of_cons;
    (split; [done|]); simpl.
  - unfold ingressPolicyObjectMetaFor. simpl.
    destruct (decide _); rewrite ?append_assoc, !append_cons; by eexists.
  - unfold egressPolicyObjectMetaFor. simpl.
    destruct (decide _); rewrite ?append_assoc, !append_cons; by eexists.
Qed.

Section DesiredInFanOut.
Context `{External}.

Lemma desiredTasks_head (service : corev1.Service) (names : gset string)
    (ports : list networkingv1.NetworkPolicyPort) (t : TaskFn) :
  t ∈ desiredTasks service names ports →
  taskService t = Some service
  ∧ (t = fromWorldTask service ∨ sendsRequest t = true)
  ∧ ∃ rest, (taskTarget t).2
            = String (match taskPolicyTypes t with
                      | [networkingv1.PolicyTypeEgress] => "e"
                      | _ => "i"
                      end)%char rest.
Proof.
  intros [(port & n & policyID & pls & _ & Ht)|[_ ->]]%elem_of_desiredTasks.
  - destruct (policyTasks_head _ _ _ _ _ _ Ht) as [Hs Hhead]. split_and!; [done| |done].
    right. unfold policyTasks in Ht.
    by apply elem_of_cons in Ht as [->|[->|[]%elem_of_nil]%elem_of_cons].
  - split_and!; [done|by left|]. simpl. unfold fromWorldObjectMeta. simpl.
    rewrite !append_cons. by eexists.
Qed.

Lemma desiredTasks_direction (service : corev1.Service) (names : gset string)
    (ports : list networkingv1.NetworkPolicyPort) (t t' : TaskFn) :
  t ∈ desiredTasks service names ports → t' ∈ desiredTasks service names ports →
  taskTarget t' = taskTarget t → taskPolicyTypes t' = taskPolicyTypes t.
Proof.
  intros (_ & _ & rest & Hhead)%desiredTasks_head
         (_ & _ & rest' & Hhead')%desiredTasks_head Htarget.
  rewrite Htarget, Hhead in Hhead'.
  destruct t, t'; simpl in *; try done; by injection Hhead'.
Qed.

(** Under a fair scheduler, a desired upsert that reaches a store which
    serves it is journalled, and its policy is in the store when the fan-out
    is over, with the labels of the Service and the policy type of the
    task. *)
Lemma fanOut_upserts (service : corev1.Service) (sched : Scheduler)
    (l : list metav1.PartialObjectMetadata) (names : gset string)
    (tasks : list TaskFn) (keys : list string) (c : Cluster) (t : TaskFn) :
  fair sched →
  reconcileDesiredPolicies (withFinalizer service) names = Ok (tasks, keys) →
  t ∈ tasks → sendsRequest t = true → faults c (taskRequest t) = None →
  let fns := tasks ++ deleteStalePolicies l keys in
  let served_ := served (sched (length fns)) fns in
  taskRequest t ∈ taskRequest <$> filter (λ t, sendsRequest t = true) served_
  ∧ ∃ np, networkPolicies (serve served_ c).2 !! taskTarget t = Some np
          ∧ ownedBy service np
          ∧ networkingv1.PolicyTypes (networkingv1.Spec np) = taskPolicyTypes t.
Proof.
  intros Hfair Hdesired Ht Hsends Hfault fns served_.
  apply reconcileDesiredPolicies_Ok in Hdesired as (ports & _ & _ & -> & ->).
  assert (Hin : t ∈ served_).
  { unfold served_. rewrite (served_fair sched fns Hfair). apply elem_of_app. by left. }
  split.
  - apply list_elem_of_fmap. exists t. split; [done|]. by apply list_elem_of_filter.
  - destruct (desiredTasks_head _ _ _ _ Ht) as (Hservice & _).
    apply serve_upserted; [done|by rewrite Hservice|done|done|].
    intros t' Ht'. unfold served_ in Ht'. rewrite (served_fair sched fns Hfair) in Ht'.
    apply elem_of_app in Ht' as [Ht'|Ht'].
    + destruct (desiredTasks_head _ _ _ _ Ht') as (-> & _).
      split; [apply backReferenceLabels_withFinalizer|].
      by apply (desiredTasks_direction (withFinalizer service) names ports).
    + apply elem_of_deleteStalePolicies in Ht' as (np & -> & _ & Hstale). simpl.
      intros Htarget. apply Hstale, list_elem_of_fmap. exists t. split; [|done].
      destruct t; simpl in *; try done; unfold key; by injection Htarget as -> ->.
Qed.

End DesiredInFanOut.

(** ** Malformed annotations, at the level of [Reconcile] *)

Section MalformedReconcile.
Context `{External}.

Lemma Reconcile_list_fault (r : Reconciler) (sched : Scheduler) (request : string * string)
    (c : Cluster) (service : corev1.Service) (e : error) :
  (Get_Service request.1 request.2 c).1 = Ok service →
  faults c ListNetworkPolicies = Some e →
  isErr (Reconcile r sched request c).1 = true
  ∧ networkPolicies (Reconcile r sched request c).2 = networkPolicies c
  ∧ journal (Reconcile r sched request c).2
    = journal c ++ [GetService request.1 request.2; ListNetworkPolicies].
Proof.
  intros Hget Hlist. rewrite Get_Service_spec in Hget.
  cut (∀ out, Reconcile r sched request c = out →
         isErr out.1 = true ∧ networkPolicies out.2 = networkPolicies c
         ∧ journal out.2 = journal c ++ [GetService request.1 request.2; ListNetworkPolicies]);
    [by eauto|].
  intros out. unfold Reconcile. rewrite Get_Service_spec.
  destruct (faults c (GetService request.1 request.2)); [done|].
  destruct (services c !! (request.1, request.2)) as [service0|]; [|done].
  simpl in Hget. injection Hget as ->.
  unfold reconcileService, mbind at 1, M_bind at 1, wrap at 1.
  rewrite List_NetworkPolicies_spec. simpl. rewrite Hlist. simpl.
  intros <-. simpl. split_and!; [done..|]. by rewrite <- app_assoc.
Qed.

(** Malformed namespace selectors or allowed ports: the reconciliation fails
    before the fan-out. *)
Lemma Reconcile_malformed_early (r : Reconciler) (sched : Scheduler)
    (request : string * string) (c : Cluster) (service : corev1.Service) :
  (Get_Service request.1 request.2 c).1 = Ok service →
  activeService service →
  (namespaceIsHandled r (serviceNamespace service) c).1 = Ok true →
  malformedNamespaceSelectors service ∨ malformedAllowedPorts service →
  isErr (Reconcile r sched request c).1 = true
  ∧ networkPolicies (Reconcile r sched request c).2 = networkPolicies c
  ∧ ∃ reqs, journal (Reconcile r sched request c).2 = journal c ++ reqs
            ∧ Forall (λ req, isPolicyRequest req = false) reqs.
Proof.
  intros Hget Hactive Hhandled Hbad.
  destruct (faults c ListNetworkPolicies) as [e|] eqn:Hlist.
  { destruct (Reconcile_list_fault r sched request c service e Hget Hlist)
      as (Herr & Hnps & Hj).
    split_and!; [done..|]. eexists. split; [exact Hj|]. by repeat constructor. }
  destruct (Reconcile_active_cases r sched request c service Hget Hlist Hhandled Hactive)
    as (c5 & before & _ & Hp5 & _ & Hj5 & Hbefore & Hcases).
  destruct (withFinalizer_fields service) as (_ & _ & Hann & _).
  destruct (malformed_same service (withFinalizer service) Hann) as (Hns & Hap & _).
  assert (Hout : ∃ e, Reconcile r sched request c = (Err e, c5)).
  { destruct (ensureFinalizer service c).1; [|by eexists].
    pose proof (fetchRelevantNamespaceNames_malformed (withFinalizer service) c) as Hfetch.
    destruct (fetchRelevantNamespaceNames (withFinalizer service) c).1 as [names|e];
      [|by eexists].
    destruct Hbad as [Hbad|Hbad]; [by specialize (Hfetch (Hns Hbad))|].
    pose proof (reconcileDesiredPolicies_malformed (withFinalizer service) names (Hap Hbad))
      as Hdesired.
    destruct (reconcileDesiredPolicies (withFinalizer service) names) as [[tasks keys]|e];
      [done|by eexists]. }
  destruct Hout as [e ->]. split_and!; [done..|]. by exists before.
Qed.

(** Malformed from-world ports: the reconciliation fails in the fan-out. *)
Lemma Reconcile_malformed_fromWorld (r : Reconciler) (sched : Scheduler)
    (request : string * string) (c : Cluster) (service : corev1.Service) :
  (Get_Service request.1 request.2 c).1 = Ok service →
  activeService service →
  (namespaceIsHandled r (serviceNamespace service) c).1 = Ok true →
  malformedFromWorld service → fair sched →
  isErr (Reconcile r sched request c).1 = true.
Proof.
  intros Hget Hactive Hhandled Hbad Hfair.
  destruct (faults c ListNetworkPolicies) as [e|] eqn:Hlist.
  { by destruct (Reconcile_list_fault r sched request c service e Hget Hlist). }
  destruct (Reconcile_opening r sched request c service true Hget Hlist Hhandled)
    as (c3 & _ & _ & ->).
  destruct Hactive as [-> Hsel].
  destruct (corev1.Selector (corev1.Spec service)); [|done]. simpl.
  by apply reconcileActive_malformed_fromWorld.
Qed.

(** Malformed from-world ports: every other desired upsert is served. *)
Lemma Reconcile_malformed_others (r : Reconciler) (sched : Scheduler)
    (request : string * string) (c : Cluster) (service : corev1.Service)
    (names : gset string) (tasks : list TaskFn) (keys : list string) :
  (Get_Service request.1 request.2 c).1 = Ok service →
  activeService service →
  (namespaceIsHandled r (serviceNamespace service) c).1 = Ok true →
  fair sched → reliable c →
  isErr (ensureFinalizer service c).1 = false →
  (fetchRelevantNamespaceNames (withFinalizer service) c).1 = Ok names →
  reconcileDesiredPolicies (withFinalizer service) names = Ok (tasks, keys) →
  ∃ reqs, journal (Reconcile r sched request c).2 = journal c ++ reqs
    ∧ ∀ t, t ∈ tasks → t ≠ fromWorldTask (withFinalizer service) →
        taskRequest t ∈ reqs
        ∧ ∃ np, networkPolicies (Reconcile r sched request c).2 !! taskTarget t = Some np
                ∧ ownedBy service np
                ∧ networkingv1.PolicyTypes (networkingv1.Spec np) = taskPolicyTypes t.
Proof.
  intros Hget Hactive Hhandled Hfair Hrel Hfin Hnames Hdesired.
  destruct (Reconcile_active_cases r sched request c service Hget (Hrel _) Hhandled Hactive)
    as (c5 & before & _ & _ & Hf5 & Hj5 & _ & Hcases).
  destruct (ensureFinalizer service c).1; [|done].
  rewrite Hnames, Hdesired in Hcases. simpl in Hcases. rewrite Hcases. simpl.
  eexists. split.
  { rewrite serve_journal_exact, Hj5, <- app_assoc. reflexivity. }
  intros t Ht Hother.
  pose proof (reconcileDesiredPolicies_Ok _ _ _ _ Hdesired) as (ports & _ & _ & Htasks & _).
  assert (Hsends : sendsRequest t = true).
  { rewrite Htasks in Ht. by apply desiredTasks_head in Ht as (_ & [?|?] & _). }
  assert (Hfault : faults c5 (taskRequest t) = None) by (by rewrite Hf5).
  destruct (fanOut_upserts service sched (listed service c) names tasks keys c5 t
              Hfair Hdesired Ht Hsends Hfault) as [Hreq Hstored].
  split; [|done]. apply elem_of_app. by right.
Qed.

(** C2 (amended).  For a fetched Service that is not being deleted, selects
    pods and lives in a handled namespace.  When the namespace-selectors
    annotation (its JSON or one of its label selectors) or the allowed-ports
    annotation (not empty, with a custom pod label selector) does not parse,
    [Reconcile] returns an error, sends no request for a NetworkPolicy and
    leaves the NetworkPolicies of the store as they were.  When the
    from-world annotation does not parse, [Reconcile] returns an error under
    every fair scheduler and the from-world task fails without sending a
    request; but on a store that serves every request, once the finalizer is
    in place and the relevant namespaces and the desired tasks are derived,
    every other desired upsert is sent and its policy is in the store
    afterwards, with the labels of the Service: the policy set is applied in
    part. *)
Theorem Reconcile_malformed (r : Reconciler) (sched : Scheduler) (request : string * string)
    (c : Cluster) (service : corev1.Service) :
  faults c (GetService request.1 request.2) = None →
  services c !! request = Some service →
  metav1.DeletionTimestamp (corev1.ObjectMeta service) = None →
  is_Some (corev1.Selector (corev1.Spec service)) →
  (namespaceIsHandled r (serviceNamespace service) c).1 = Ok true →
  (malformedNamespaceSelectors service ∨ malformedAllowedPorts service →
     isErr (Reconcile r sched request c).1 = true
     ∧ networkPolicies (Reconcile r sched request c).2 = networkPolicies c
     ∧ ∃ reqs, journal (Reconcile r sched request c).2 = journal c ++ reqs
               ∧ Forall (λ req, isPolicyRequest req = false) reqs)
  ∧ (malformedFromWorld service → fair sched →
     isErr (Reconcile r sched request c).1 = true
     ∧ (∀ c0, ∃ e, runTask (fromWorldTask service) c0 = (Err e, c0))
     ∧ (reliable c → isErr (ensureFinalizer service c).1 = false →
        ∀ names tasks keys,
          (fetchRelevantNamespaceNames (withFinalizer service) c).1 = Ok names →
          reconcileDesiredPolicies (withFinalizer service) names = Ok (tasks, keys) →
          ∃ reqs, journal (Reconcile r sched request c).2 = journal c ++ reqs
            ∧ ∀ t, t ∈ tasks → t ≠ fromWorldTask (withFinalizer service) →
                taskRequest t ∈ reqs
                ∧ ∃ np, networkPolicies (Reconcile r sched request c).2 !! taskTarget t
                        = Some np
                        ∧ ownedBy service np
                        ∧ networkingv1.PolicyTypes (networkingv1.Spec np)
                          = taskPolicyTypes t)).
Proof.
  intros Hfault Hsvc Hlive Hsel Hhandled.
  assert (Hget : (Get_Service request.1 request.2 c).1 = Ok service).
  { rewrite Get_Service_spec, Hfault. destruct request as [namespace name].
    simpl in *. by rewrite Hsvc. }
  assert (Hactive : activeService service).
  { split; [done|]. destruct Hsel as [sel ->]. done. }
  split.
  - by apply (Reconcile_malformed_early r sched request c service).
  - intros Hbad Hfair. split_and!.
    + by apply (Reconcile_malformed_fromWorld r sched request c service).
    + intros c0. by apply runTask_fromWorld_malformed.
    + intros Hrel Hfin names tasks keys Hnames Hdesired.
      by apply (Reconcile_malformed_others r sched request c service names tasks keys).
Qed.

End MalformedReconcile.

Lemma Reconcile_malformed_witness :
  let r := {| selectors := [] |} in
  let early := @Reconcile Fixtures.ext r inOrder ("ns1", "svc1")
                 MalformedFixtures.clusterSelectorsMalformed in
  let late := @Reconcile Fixtures.ext r inOrder ("ns1", "svc1")
                Fixtures.clusterWorldMalformed in
  (isErr early.1 = true
   ∧ networkPolicies early.2 = networkPolicies MalformedFixtures.clusterSelectorsMalformed)
  ∧ (isErr late.1 = true
     ∧ ∃ reqs np,
         journal late.2 = journal Fixtures.clusterWorldMalformed ++ reqs
         ∧ UpsertNetworkPolicy "ns1" "egress-to-svc1-tcp-80" ∈ reqs
         ∧ networkPolicies late.2 !! ("ns1", "egress-to-svc1-tcp-80") = Some np
         ∧ ownedBy Fixtures.svcWorldMalformed np
         ∧ networkingv1.PolicyTypes (networkingv1.Spec np)
           = [networkingv1.PolicyTypeEgress]).
Proof.
  intros r early late. split.
  - destruct (@Reconcile_malformed Fixtures.ext r inOrder ("ns1", "svc1")
                MalformedFixtures.clusterSelectorsMalformed
                MalformedFixtures.svcSelectorsMalformed) as [Hearly _].
    + reflexivity.
    + vm_compute. reflexivity.
    + reflexivity.
    + simpl. eexists. reflexivity.
    + vm_compute. reflexivity.
    + destruct Hearly as (Herr & Hnps & _); [|by split].
      left. exists "{". split; [by vm_compute|]. left. by vm_compute.
  - destruct (@Reconcile_malformed Fixtures.ext r inOrder ("ns1", "svc1")
                Fixtures.clusterWorldMalformed Fixtures.svcWorldMalformed) as [_ Hlate].
    + reflexivity.
    + vm_compute. reflexivity.
    + reflexivity.
    + simpl. eexists. reflexivity.
    + vm_compute. reflexivity.
    + destruct Hlate as (Herr & _ & Hothers).
      * exists "{". split; by vm_compute.
      * apply fair_inOrder.
      * split; [done|].
        destruct (Hothers (λ _, eq_refl) eq_refl {[ "ns1" ]}
                    (portTasks (withFinalizer Fixtures.svcWorldMalformed)
                       (Fixtures.servicePort "TCP" (intstr.FromInt 80)) "ns1"
                     ++ [fromWorldTask (withFinalizer Fixtures.svcWorldMalformed)])
                    ["ns1/ingress-to-svc1-tcp-80"; "ns1/egress-to-svc1-tcp-80";
                     "ns1/ingress-to-svc1-from-world"])
          as (reqs & Hj & Htasks).
        -- vm_compute. reflexivity.
        -- vm_compute. reflexivity.
        -- destruct (Htasks
                       (reconcileEgressPolicyTask (withFinalizer Fixtures.svcWorldMalformed)
                          (policyPortOf (Fixtures.servicePort "TCP" (intstr.FromInt 80)))
                          (egressPolicyObjectMetaFor "svc1-tcp-80" "ns1" "ns1") "ns1"
                          (matchLabelsForServiceAndNamespace "svc1-tcp-80"
                             (withFinalizer Fixtures.svcWorldMalformed) "ns1")))
             as (Hreq & np & Hnp & Hown & Htypes).
           ++ apply elem_of_app. left. right. left.
           ++ discriminate.
           ++ exists reqs, np.
              split_and!; [exact Hj|exact Hreq|exact Hnp|exact Hown|exact Htypes].
Defined.

(** ** A successful reconciliation of an active Service *)

Section Success.
Context `{External}.

Lemma fetchRelevantNamespaceNames_withFinalizer (service : corev1.Service) (c : Cluster) :
  fetchRelevantNamespaceNames (withFinalizer service) c
  = fetchRelevantNamespaceNames service c.
Proof.
  destruct (withFinalizer_fields service) as (_ & Hns & Hann & _).
  unfold fetchRelevantNamespaceNames. by rewrite (annotation_same _ _ _ Hann), Hns.
Qed.

(** After a successful reconciliation of an active Service in a handled
    namespace, under a fair scheduler: every desired task has sent its upsert
    request, no delete request was sent for its target, and its policy is in
    the store. *)
Lemma Reconcile_success (r : Reconciler) (sched : Scheduler) (request : string * string)
    (c : Cluster) (service : corev1.Service) (res : reconcile.Result) :
  fair sched →
  (Get_Service request.1 request.2 c).1 = Ok service →
  activeService service →
  (namespaceIsHandled r (serviceNamespace service) c).1 = Ok true →
  (Reconcile r sched request c).1 = Ok res →
  ∃ names tasks keys reqs,
    (fetchRelevantNamespaceNames service c).1 = Ok names
    ∧ reconcileDesiredPolicies (withFinalizer service) names = Ok (tasks, keys)
    ∧ journal (Reconcile r sched request c).2 = journal c ++ reqs
    ∧ ∀ t, t ∈ tasks →
        UpsertNetworkPolicy (taskTarget t).1 (taskTarget t).2 ∈ reqs
        ∧ ¬ (DeleteNetworkPolicy (taskTarget t).1 (taskTarget t).2 ∈ reqs)
        ∧ ∃ np, networkPolicies (Reconcile r sched request c).2 !! taskTarget t = Some np
                ∧ ownedBy service np
                ∧ networkingv1.PolicyTypes (networkingv1.Spec np) = taskPolicyTypes t.
Proof.
  intros Hfair Hget Hactive Hhandled Hok.
  destruct (faults c ListNetworkPolicies) as [e|] eqn:Hlist.
  { destruct (Reconcile_list_fault r sched request c service e Hget Hlist) as (Herr & _).
    by rewrite Hok in Herr. }
  destruct (Reconcile_active_cases r sched request c service Hget Hlist Hhandled Hactive)
    as (c5 & before & _ & _ & Hf5 & Hj5 & Hbefore & Hcases).
  destruct (ensureFinalizer service c).1; [|by rewrite Hcases in Hok].
  rewrite fetchRelevantNamespaceNames_withFinalizer in Hcases.
  destruct (fetchRelevantNamespaceNames service c).1 as [names|e];
    [|by rewrite Hcases in Hok].
  destruct (reconcileDesiredPolicies (withFinalizer service) names) as [[tasks keys]|e]
    eqn:Hdesired; [|by rewrite Hcases in Hok].
  simpl in Hcases. rewrite Hcases in Hok |- *. simpl in Hok |- *.
  set (fns := tasks ++ deleteStalePolicies (listed service c) keys) in *.
  set (served_ := served (sched (length fns)) fns) in *.
  assert (Hnone : (serve served_ c5).1 = None) by (by destruct (serve served_ c5).1).
  exists names, tasks, keys,
    (before ++ (taskRequest <$> filter (λ t, sendsRequest t = true) served_)).
  split_and!; [done|done|by rewrite serve_journal_exact, Hj5, <- app_assoc|].
  intros t Ht.
  pose proof (reconcileDesiredPolicies_spec _ _ _ _ Hdesired) as (Hkeys & Hups & _).
  assert (Hin : t ∈ served_).
  { unfold served_. rewrite (served_fair sched fns Hfair). apply elem_of_app. by left. }
  assert (Hupsert : isUpsertTask t = true).
  { rewrite Forall_forall in Hups. by apply Hups. }
  destruct (serve_None served_ t c5 Hnone Hin) as (c' & Hf' & Hrun).
  pose proof (runTask_policies t c') as Hcase.
  destruct (upsert_has_service t Hupsert) as [service' Hservice]. rewrite Hservice in Hcase.
  destruct Hcase as [(Hsends & Hfault & _)|(_ & Herr & _)]; [|by rewrite Hrun in Herr].
  rewrite Hf' in Hfault.
  destruct (fanOut_upserts service sched (listed service c) names tasks keys c5 t
              Hfair Hdesired Ht Hsends Hfault) as [Hreq Hstored].
  split_and!; [|clear Hstored|exact Hstored].
  - apply elem_of_app. right.
    by replace (UpsertNetworkPolicy _ _) with (taskRequest t) by (by destruct t).
  - intros [Hdel|Hdel]%elem_of_app.
    + rewrite Forall_forall in Hbefore. by specialize (Hbefore _ Hdel).
    + apply list_elem_of_fmap in Hdel as (t' & Hreq' & [_ Ht']%list_elem_of_filter).
      symmetry in Hreq'. pose proof Hreq' as [Hdel' Hk]%taskRequest_delete.
      apply served_elem_of, elem_of_app in Ht' as [Ht'|Ht'].
      * rewrite Forall_forall in Hups. specialize (Hups t' Ht').
        unfold isUpsertTask in Hups. by rewrite Hdel' in Hups.
      * apply elem_of_deleteStalePolicies in Ht' as (np & -> & _ & Hstale).
        apply Hstale. rewrite Hkeys. apply list_elem_of_fmap. exists t.
        split; [|done]. simpl in Hk. rewrite Hk. by destruct t.
Qed.

End Success.

(** ** Completeness of the desired policies, and Scenario A *)

Section Complete.
Context `{External}.

(** C4.  After a successful reconciliation of a fetched Service that is not
    being deleted, selects pods and lives in a handled namespace, with the
    relevant namespaces [names] as [fetchRelevantNamespaceNames] resolves
    them: for every port [p] of the Service and every [n] in [names], the
    reconciliation has sent an upsert and no delete for the ingress policy
    [ingress-to-<name>-<protocol>-<targetPort>] (with the suffix [-from-<n>]
    for a foreign [n]) in the namespace of the Service and for the egress
    policy [egress-to-<name>-<protocol>-<targetPort>] (for a foreign [n]:
    [egress-to-<namespace>-<name>-<protocol>-<targetPort>]) in [n], and both
    are in the store afterwards, labelled with the Service, the one of type
    Ingress and the other of type Egress.
    Scenario A: for [svc1] in [ns1] with selector [{app: foo}], port
    [{TCP, 80}] and no annotations, under every fair scheduler [Reconcile]
    succeeds and leaves exactly the two policies [ingress-to-svc1-tcp-80] and
    [egress-to-svc1-tcp-80] in [ns1], with the peer label
    [networking.resources.gardener.cloud/to-svc1-tcp-80=allowed]. *)
Theorem desired_policies_complete :
  (∀ (r : Reconciler) (sched : Scheduler) (request : string * string) (c : Cluster)
     (service : corev1.Service) (res : reconcile.Result),
     fair sched →
     (Get_Service request.1 request.2 c).1 = Ok service →
     activeService service →
     (namespaceIsHandled r (serviceNamespace service) c).1 = Ok true →
     (Reconcile r sched request c).1 = Ok res →
     ∃ names reqs,
       (fetchRelevantNamespaceNames service c).1 = Ok names
       ∧ journal (Reconcile r sched request c).2 = journal c ++ reqs
       ∧ ∀ p n, p ∈ corev1.Ports (corev1.Spec service) → n ∈ names →
           let namespace := serviceNamespace service in
           let policyID :=
             serviceName service +:+ "-" +:+ ToLower (corev1.Protocol p) +:+ "-"
               +:+ intstr.String (Some (corev1.TargetPort p)) in
           let ingress :=
             (namespace,
              if decide (namespace ≠ n)
              then ("ingress-to-" +:+ policyID) +:+ "-from-" +:+ n
              else "ingress-to-" +:+ policyID) in
           let egress :=
             (n,
              if decide (namespace ≠ n)
              then "egress-to-" +:+ namespace +:+ "-" +:+ policyID
              else "egress-to-" +:+ policyID) in
           ∀ target types,
             (target, types) ∈ [(ingress, [networkingv1.PolicyTypeIngress]);
                                (egress, [networkingv1.PolicyTypeEgress])] →
             UpsertNetworkPolicy target.1 target.2 ∈ reqs
             ∧ ¬ (DeleteNetworkPolicy target.1 target.2 ∈ reqs)
             ∧ ∃ np, networkPolicies (Reconcile r sched request c).2 !! target = Some np
                     ∧ ownedBy service np
                     ∧ networkingv1.PolicyTypes (networkingv1.Spec np) = types)
  ∧ (∀ sched, fair sched →
       let out := @Reconcile Fixtures.ext {| selectors := [] |} sched ("ns1", "svc1")
                    Fixtures.clusterA in
       out.1 = Ok reconcile.empty
       ∧ networkPolicies out.2
         = {[ ("ns1", "ingress-to-svc1-tcp-80") := Fixtures.expectedIngress;
              ("ns1", "egress-to-svc1-tcp-80") := Fixtures.expectedEgress ]}).
Proof.
  split.
  - intros r sched request c service res Hfair Hget Hactive Hhandled Hok.
    destruct (Reconcile_success r sched request c service res Hfair Hget Hactive Hhandled Hok)
      as (names & tasks & keys & reqs & Hnames & Hdesired & Hj & Htasks).
    exists names, reqs. split_and!; [done..|].
    intros p n Hp Hn namespace policyID ingress egress target types Hin.
    destruct (withFinalizer_fields service) as (Hname & Hns & _ & Hspec).
    pose proof (reconcileDesiredPolicies_spec _ _ _ _ Hdesired) as (_ & _ & Hports & _).
    rewrite Hspec in Hports. specialize (Hports p n).
    unfold portTasks, policyTasks in Hports. rewrite Hname, Hns in Hports.
    apply elem_of_cons in Hin as [[= -> ->]|Hin];
      [|apply list_elem_of_singleton in Hin as [= -> ->]].
    + specialize (Hports _ Hp Hn ltac:(left)).
      destruct (Htasks _ Hports) as (Hup & Hdel & Hnp). done.
    + specialize (Hports _ Hp Hn ltac:(right; left)).
      destruct (Htasks _ Hports) as (Hup & Hdel & Hnp). done.
  - intros sched Hfair.
    destruct (fair_two sched Hfair) as [Hs|Hs].
    + rewrite (@Reconcile_ext Fixtures.ext _ sched
                 (λ n, if decide (n = 2%nat) then [0; 1]%nat else sched n));
        [|intros n; destruct (decide (n = 2%nat)) as [->|]; done].
      split; vm_refl.
    + rewrite (@Reconcile_ext Fixtures.ext _ sched
                 (λ n, if decide (n = 2%nat) then [1; 0]%nat else sched n));
        [|intros n; destruct (decide (n = 2%nat)) as [->|]; done].
      split; vm_refl.
Qed.

End Complete.

Lemma desired_policies_complete_witness :
  let r := {| selectors := [] |} in
  let out := @Reconcile Fixtures.ext r inOrder ("ns1", "svc1") Fixtures.clusterOpen in
  (∃ np, networkPolicies out.2 !! ("ns2", "egress-to-ns1-svc1-tcp-80") = Some np
         ∧ ownedBy Fixtures.svcOpen np
         ∧ networkingv1.PolicyTypes (networkingv1.Spec np) = [networkingv1.PolicyTypeEgress])
  ∧ (@Reconcile Fixtures.ext r inOrder ("ns1", "svc1") Fixtures.clusterA).1
    = Ok reconcile.empty.
Proof.
  intros r out.
  destruct (@desired_policies_complete Fixtures.ext) as [Hgeneral Hscenario].
  split; [|apply (Hscenario inOrder fair_inOrder)].
  destruct (Hgeneral r inOrder ("ns1", "svc1") Fixtures.clusterOpen Fixtures.svcOpen
              reconcile.empty) as (names & reqs & Hnames & _ & Hports).
  - apply fair_inOrder.
  - vm_compute. reflexivity.
  - split; [reflexivity|]. simpl. discriminate.
  - vm_compute. reflexivity.
  - vm_compute. reflexivity.
  - assert (Hfetch : (@fetchRelevantNamespaceNames Fixtures.ext Fixtures.svcOpen
                        Fixtures.clusterOpen).1 = Ok ({[ "ns1"; "ns2" ]} : gset string))
      by (vm_compute; reflexivity).
    rewrite Hfetch in Hnames. injection Hnames as <-.
    destruct (Hports (Fixtures.servicePort "TCP" (intstr.FromInt 80)) "ns2")
      with (target := ("ns2", "egress-to-ns1-svc1-tcp-80"))
           (types := [networkingv1.PolicyTypeEgress]) as (_ & _ & Hnp).
    + simpl. left.
    + apply elem_of_union. right. by apply elem_of_singleton.
    + right. left.
    + exact Hnp.
Defined.
